(** * gmail-mcp: message composition and extraction

    A shallow embedding of [src/gmail-client.ts] (subject encoding, message
    composition, plain-text and link extraction, header lookup, search)
    and of the server entry point ([getGmailClient], the [send_email] and
    [add_account] tool handlers), followed by the properties proved about
    them.

    JavaScript strings are sequences of UTF-16 code units and are modelled
    as [list N]; a [Buffer] is a list of bytes, also [list N]. *)

From Stdlib Require Import List NArith ZArith QArith Bool Lia Ascii String.
Import ListNotations.
Local Open Scope N_scope.
Local Open Scope list_scope.

(* ================================================================= *)
(** * Part I: definitions *)
(* ================================================================= *)

(** ** JavaScript strings *)

Definition jsstring := list N.

(** An ASCII literal as a JavaScript string. *)
Definition js (s : string) : jsstring :=
  map N_of_ascii (list_ascii_of_string s).

Fixpoint jseqb (a b : jsstring) : bool :=
  match a, b with
  | [], [] => true
  | x :: a', y :: b' => (x =? y) && jseqb a' b'
  | _, _ => false
  end.

(** [String.prototype.startsWith]. *)
Fixpoint startsWith (s prefix : jsstring) : bool :=
  match prefix, s with
  | [], _ => true
  | p :: prefix', c :: s' => (c =? p) && startsWith s' prefix'
  | _ :: _, [] => false
  end.

(** [String.prototype.includes]. *)
Fixpoint includes (s needle : jsstring) : bool :=
  startsWith s needle ||
  match s with
  | [] => false
  | _ :: s' => includes s' needle
  end.

(** [Array.prototype.join] on an array of strings. *)
Fixpoint join (sep : jsstring) (l : list jsstring) : jsstring :=
  match l with
  | [] => []
  | [x] => x
  | x :: l' => x ++ sep ++ join sep l'
  end.

(** Truthiness of a string value: the empty string is falsy. *)
Definition truthy (s : jsstring) : bool :=
  match s with [] => false | _ :: _ => true end.

(** Truthiness of a possibly absent ([undefined] / [null]) string. *)
Definition truthy_opt (o : option jsstring) : bool :=
  match o with Some s => truthy s | None => false end.

(** ASCII case folding, as the regular expressions' [i] flag applies it to
    the ASCII letters of a pattern (without the [u] flag a character
    outside ASCII never matches an ASCII letter). *)
Definition ascii_upper (c : N) : N :=
  if (97 <=? c) && (c <=? 122) then c - 32 else c.

Definition ascii_lower (c : N) : N :=
  if (65 <=? c) && (c <=? 90) then c + 32 else c.

(** ** Buffers: UTF-8 and base64, as Node's [Buffer] implements them *)

Module Buffer.

Definition is_high_surrogate (c : N) : bool := (0xD800 <=? c) && (c <=? 0xDBFF).
Definition is_low_surrogate (c : N) : bool := (0xDC00 <=? c) && (c <=? 0xDFFF).

(** The UTF-8 bytes of a code point below 0x110000. *)
Definition utf8_of_code_point (cp : N) : list N :=
  if cp <? 0x80 then [cp]
  else if cp <? 0x800 then [0xC0 + cp / 64; 0x80 + cp mod 64]
  else if cp <? 0x10000 then
    [0xE0 + cp / 4096; 0x80 + (cp / 64) mod 64; 0x80 + cp mod 64]
  else
    [0xF0 + cp / 262144; 0x80 + (cp / 4096) mod 64;
     0x80 + (cp / 64) mod 64; 0x80 + cp mod 64].

Definition replacement : N := 0xFFFD.

(** [Buffer.from(s, 'utf-8')]: a surrogate pair is one code point, an
    unpaired surrogate is written as U+FFFD. *)
Fixpoint from_utf8 (s : jsstring) : list N :=
  match s with
  | [] => []
  | c :: s' =>
      if is_high_surrogate c then
        match s' with
        | d :: s'' =>
            if is_low_surrogate d then
              utf8_of_code_point
                (0x10000 + (c - 0xD800) * 0x400 + (d - 0xDC00))
              ++ from_utf8 s''
            else utf8_of_code_point replacement ++ from_utf8 s'
        | [] => utf8_of_code_point replacement
        end
      else if is_low_surrogate c then
        utf8_of_code_point replacement ++ from_utf8 s'
      else utf8_of_code_point c ++ from_utf8 s'
  end.

(** The UTF-16 code units of a code point. *)
Definition utf16_of_code_point (cp : N) : jsstring :=
  if cp <? 0x10000 then [cp]
  else [0xD800 + (cp - 0x10000) / 0x400; 0xDC00 + (cp - 0x10000) mod 0x400].

Definition in_range (lo hi b : N) : bool := (lo <=? b) && (b <=? hi).
Definition is_cont (b : N) : bool := in_range 0x80 0xBF b.

(** Range allowed for the second byte after lead byte [b1]. *)
Definition second_lo (b1 : N) : N :=
  if b1 =? 0xE0 then 0xA0 else if b1 =? 0xF0 then 0x90 else 0x80.
Definition second_hi (b1 : N) : N :=
  if b1 =? 0xED then 0x9F else if b1 =? 0xF4 then 0x8F else 0xBF.

(** [buf.toString('utf-8')]: the decoder of the Encoding standard; every
    maximal ill-formed subsequence becomes one U+FFFD. *)
Fixpoint toString_utf8 (bs : list N) : jsstring :=
  match bs with
  | [] => []
  | b1 :: r1 =>
      if b1 <? 0x80 then b1 :: toString_utf8 r1
      else if in_range 0xC2 0xDF b1 then
        match r1 with
        | b2 :: r2 =>
            if is_cont b2
            then ((b1 - 0xC0) * 64 + (b2 - 0x80)) :: toString_utf8 r2
            else replacement :: toString_utf8 r1
        | [] => [replacement]
        end
      else if in_range 0xE0 0xEF b1 then
        match r1 with
        | b2 :: r2 =>
            if in_range (second_lo b1) (second_hi b1) b2 then
              match r2 with
              | b3 :: r3 =>
                  if is_cont b3
                  then ((b1 - 0xE0) * 4096 + (b2 - 0x80) * 64 + (b3 - 0x80))
                       :: toString_utf8 r3
                  else replacement :: toString_utf8 r2
              | [] => [replacement]
              end
            else replacement :: toString_utf8 r1
        | [] => [replacement]
        end
      else if in_range 0xF0 0xF4 b1 then
        match r1 with
        | b2 :: r2 =>
            if in_range (second_lo b1) (second_hi b1) b2 then
              match r2 with
              | b3 :: r3 =>
                  if is_cont b3 then
                    match r3 with
                    | b4 :: r4 =>
                        if is_cont b4
                        then utf16_of_code_point
                               ((b1 - 0xF0) * 262144 + (b2 - 0x80) * 4096
                                + (b3 - 0x80) * 64 + (b4 - 0x80))
                             ++ toString_utf8 r4
                        else replacement :: toString_utf8 r3
                    | [] => [replacement]
                    end
                  else replacement :: toString_utf8 r2
              | [] => [replacement]
              end
            else replacement :: toString_utf8 r1
        | [] => [replacement]
        end
      else replacement :: toString_utf8 r1
  end.

(** The base64 alphabet: the character of a 6-bit value; [url] selects
    the URL-safe alphabet. *)
Definition b64_char (url : bool) (n : N) : N :=
  if n <? 26 then 65 + n
  else if n <? 52 then 97 + (n - 26)
  else if n <? 62 then 48 + (n - 52)
  else if n =? 62 then (if url then 45 else 43)
  else (if url then 95 else 47).

Definition pad_char : N := 61.

(** [pad] is false for base64url, which Node writes without padding. *)
Fixpoint encode64 (url pad : bool) (bs : list N) : jsstring :=
  match bs with
  | a :: b :: c :: rest =>
      b64_char url (a / 4)
      :: b64_char url ((a mod 4) * 16 + b / 16)
      :: b64_char url ((b mod 16) * 4 + c / 64)
      :: b64_char url (c mod 64)
      :: encode64 url pad rest
  | [a; b] =>
      [b64_char url (a / 4); b64_char url ((a mod 4) * 16 + b / 16);
       b64_char url ((b mod 16) * 4)]
      ++ (if pad then [pad_char] else [])
  | [a] =>
      [b64_char url (a / 4); b64_char url ((a mod 4) * 16)]
      ++ (if pad then [pad_char; pad_char] else [])
  | [] => []
  end.

(** [buf.toString('base64')] and [buf.toString('base64url')]. *)
Definition toString_base64 (bs : list N) : jsstring := encode64 false true bs.
Definition toString_base64url (bs : list N) : jsstring := encode64 true false bs.

(** The value of a base64 character; both alphabets are accepted. *)
Definition unbase64 (c : N) : option N :=
  if in_range 65 90 c then Some (c - 65)
  else if in_range 97 122 c then Some (c - 97 + 26)
  else if in_range 48 57 c then Some (c - 48 + 52)
  else if (c =? 43) || (c =? 45) then Some 62
  else if (c =? 47) || (c =? 95) then Some 63
  else None.

(** The 6-bit values read by the decoder: characters outside the
    alphabets are skipped and the first [=] ends the input. *)
Fixpoint sextets (s : jsstring) : list N :=
  match s with
  | [] => []
  | c :: s' =>
      if c =? pad_char then []
      else match unbase64 c with
           | Some v => v :: sextets s'
           | None => sextets s'
           end
  end.

Fixpoint bytes_of_sextets (l : list N) : list N :=
  match l with
  | a :: b :: c :: d :: rest =>
      (a * 4 + b / 16) :: ((b mod 16) * 16 + c / 4) :: ((c mod 4) * 64 + d)
      :: bytes_of_sextets rest
  | [a; b; c] => [a * 4 + b / 16; (b mod 16) * 16 + c / 4]
  | [a; b] => [a * 4 + b / 16]
  | _ => []
  end.

(** [Buffer.from(s, 'base64')]. *)
Definition from_base64 (s : jsstring) : list N := bytes_of_sextets (sextets s).

End Buffer.

(** ** Message composer *)

(** [/^[\x20-\x7E]*$/.test(subject)]: every code unit is printable ASCII. *)
Definition printable_ascii (c : N) : bool := (0x20 <=? c) && (c <=? 0x7E).

Definition test_printable (subject : jsstring) : bool :=
  forallb printable_ascii subject.

Definition encodeSubject (subject : jsstring) : jsstring :=
  if test_printable subject then subject
  else js "=?UTF-8?B?"
       ++ Buffer.toString_base64 (Buffer.from_utf8 subject) ++ js "?=".

Module SendParams.
Record t := {
  to : list jsstring;
  subject : jsstring;
  body : jsstring;
  cc : option (list jsstring);
  bcc : option (list jsstring)
}.
End SendParams.

(** [cc?.length]: the list is present and not empty. *)
Definition has_length (l : option (list jsstring)) : bool :=
  match l with
  | Some (_ :: _) => true
  | _ => false
  end.

Definition join_opt (sep : jsstring) (l : option (list jsstring)) : jsstring :=
  match l with Some xs => join sep xs | None => [] end.

Definition CRLF : jsstring := [13; 10].

(** The array [messageParts] after the two conditional [push]es and the
    final [push] of the content type, the empty line and the body. *)
Definition messageParts (p : SendParams.t) : list jsstring :=
  let parts0 :=
    [js "To: " ++ join (js ", ") (SendParams.to p);
     js "Subject: " ++ encodeSubject (SendParams.subject p)] in
  let parts1 :=
    if has_length (SendParams.cc p)
    then parts0 ++ [js "Cc: " ++ join_opt (js ", ") (SendParams.cc p)]
    else parts0 in
  let parts2 :=
    if has_length (SendParams.bcc p)
    then parts1 ++ [js "Bcc: " ++ join_opt (js ", ") (SendParams.bcc p)]
    else parts1 in
  parts2 ++ [js "Content-Type: text/plain; charset=utf-8"; []; SendParams.body p].

(** [sendEmail]: [messages_send] is the transport call
    [gmail.users.messages.send] applied to the [raw] field; its answer is
    what [sendEmail] returns. *)
Definition sendEmail {R : Type} (messages_send : jsstring -> R)
    (p : SendParams.t) : R :=
  let email := join CRLF (messageParts p) in
  let encodedEmail := Buffer.toString_base64url (Buffer.from_utf8 email) in
  messages_send encodedEmail.

(** ** Regular expressions

    The patterns of the source are sequences of literal characters and of
    character classes under [*], [*?] and [+], with at most one capturing
    group; a backtracking matcher for this fragment follows. *)

Module Regex.

Inductive atom :=
| Lit (c : N)               (* a character *)
| LitI (c : N)              (* a character under the [i] flag *)
| Cls (p : N -> bool)       (* one character of a class *)
| Star (p : N -> bool)      (* class*, greedy *)
| StarLazy (p : N -> bool)  (* class*?, lazy *)
| Plus (p : N -> bool)      (* class+, greedy *)
| Group (p : N -> bool).    (* (class+), greedy and capturing *)

Definition regex := list atom.

Definition lit (s : string) : regex := map Lit (js s).
Definition lit_i (s : string) : regex := map LitI (js s).

Section Backtrack.
Context {X : Type}.

(** Longest run of [p] first, then shorter ones. *)
Fixpoint greedy (p : N -> bool) (k : jsstring -> option X) (s : jsstring)
  : option X :=
  match s with
  | c :: s' =>
      if p c then
        match greedy p k s' with
        | Some r => Some r
        | None => k s
        end
      else k s
  | [] => k []
  end.

(** Shortest run of [p] first, then longer ones. *)
Fixpoint reluctant (p : N -> bool) (k : jsstring -> option X) (s : jsstring)
  : option X :=
  match k s with
  | Some r => Some r
  | None =>
      match s with
      | c :: s' => if p c then reluctant p k s' else None
      | [] => None
      end
  end.

(** [greedy] that also hands the consumed characters to [k]. *)
Fixpoint greedy_cap (p : N -> bool) (k : jsstring -> jsstring -> option X)
    (acc s : jsstring) : option X :=
  match s with
  | c :: s' =>
      if p c then
        match greedy_cap p k (acc ++ [c]) s' with
        | Some r => Some r
        | None => k acc s
        end
      else k acc s
  | [] => k acc []
  end.

End Backtrack.

(** A match attempt anchored at the start of [s]: the text of group 1 and
    the input left after the match. *)
Fixpoint exec_at (r : regex) (cap : option jsstring) (s : jsstring)
    {struct r} : option (option jsstring * jsstring) :=
  match r with
  | [] => Some (cap, s)
  | Lit c :: r' =>
      match s with
      | x :: s' => if x =? c then exec_at r' cap s' else None
      | [] => None
      end
  | LitI c :: r' =>
      match s with
      | x :: s' =>
          if ascii_upper x =? ascii_upper c then exec_at r' cap s' else None
      | [] => None
      end
  | Cls p :: r' =>
      match s with
      | x :: s' => if p x then exec_at r' cap s' else None
      | [] => None
      end
  | Star p :: r' => greedy p (exec_at r' cap) s
  | StarLazy p :: r' => reluctant p (exec_at r' cap) s
  | Plus p :: r' =>
      match s with
      | x :: s' => if p x then greedy p (exec_at r' cap) s' else None
      | [] => None
      end
  | Group p :: r' =>
      match s with
      | x :: s' =>
          if p x
          then greedy_cap p (fun g rest => exec_at r' (Some g) rest) [x] s'
          else None
      | [] => None
      end
  end.

(** Number of characters of [s] consumed when [rest] is left. *)
Definition consumed (s rest : jsstring) : nat :=
  (List.length s - List.length rest)%nat.

(** [s.replace(r, by)] with the [g] flag: matches are taken left to
    right and do not overlap; [skip] counts the characters of the current
    match still to be dropped.  The patterns of this file never match the
    empty string. *)
Fixpoint replace_from (r : regex) (by_ : jsstring) (skip : nat) (s : jsstring)
  : jsstring :=
  match s with
  | [] => []
  | c :: s' =>
      match skip with
      | S n => replace_from r by_ n s'
      | O =>
          match exec_at r None s with
          | Some (_, rest) =>
              match consumed s rest with
              | S n => by_ ++ replace_from r by_ n s'
              | O => by_ ++ c :: replace_from r by_ O s'
              end
          | None => c :: replace_from r by_ O s'
          end
      end
  end.

Definition replace (r : regex) (by_ : jsstring) (s : jsstring) : jsstring :=
  replace_from r by_ O s.

(** The loop [while ((match = r.exec(s)) !== null)] of a [g] pattern:
    the texts of group 1 ([match[1]]) of the successive matches. *)
Fixpoint exec_from (r : regex) (skip : nat) (s : jsstring) : list jsstring :=
  match s with
  | [] => []
  | _ :: s' =>
      match skip with
      | S n => exec_from r n s'
      | O =>
          match exec_at r None s with
          | Some (cap, rest) =>
              match cap with Some g => g | None => [] end
              :: exec_from r (Nat.pred (consumed s rest)) s'
          | None => exec_from r O s'
          end
      end
  end.

Definition exec_all (r : regex) (s : jsstring) : list jsstring :=
  exec_from r O s.

(** Character classes. *)
Definition any (c : N) : bool := true.
Definition not_gt (c : N) : bool := negb (c =? 62).
Definition quote (c : N) : bool := (c =? 34) || (c =? 39).
Definition not_quote (c : N) : bool := negb (quote c).

(** [\s], which is also what [trim] removes. *)
Definition space (c : N) : bool :=
  Buffer.in_range 9 13 c || (c =? 0x20) || (c =? 0xA0) || (c =? 0x1680)
  || Buffer.in_range 0x2000 0x200A c || (c =? 0x2028) || (c =? 0x2029)
  || (c =? 0x202F) || (c =? 0x205F) || (c =? 0x3000) || (c =? 0xFEFF).

End Regex.

Fixpoint trimStart (s : jsstring) : jsstring :=
  match s with
  | c :: s' => if Regex.space c then trimStart s' else s
  | [] => []
  end.

(** [String.prototype.trim]. *)
Definition trim (s : jsstring) : jsstring :=
  rev (trimStart (rev (trimStart s))).

(** ** Message extractor: plain text *)

Import Regex.

(** [/<script[^>]*>[\s\S]*?<\/script>/gi] *)
Definition scriptRegex : regex :=
  lit_i "<script" ++ [Star not_gt; Lit 62; StarLazy any] ++ lit_i "</script>".

(** [/<style[^>]*>[\s\S]*?<\/style>/gi] *)
Definition styleRegex : regex :=
  lit_i "<style" ++ [Star not_gt; Lit 62; StarLazy any] ++ lit_i "</style>".

(** [/<[^>]+>/g] *)
Definition tagRegex : regex := [Lit 60; Plus not_gt; Lit 62].

(** [/\s+/g] *)
Definition spacesRegex : regex := [Plus space].

(** The chain of [replace] calls and the final [trim] that turn HTML into
    text. *)
Definition htmlToText (html : jsstring) : jsstring :=
  trim
    (replace spacesRegex (js " ")
    (replace (lit "&#39;") (js "'")
    (replace (lit "&quot;") [34]
    (replace (lit "&gt;") (js ">")
    (replace (lit "&lt;") (js "<")
    (replace (lit "&amp;") (js "&")
    (replace (lit "&nbsp;") (js " ")
    (replace tagRegex (js " ")
    (replace styleRegex []
    (replace scriptRegex [] html)))))))))).

(** The provider's [MessagePart]: every field may be absent. *)
Record MessagePartBody := { data : option jsstring }.

Record Header := { name : jsstring; value : option jsstring }.

#[local] Unset Elimination Schemes.
Inductive MimeNode := mkMimeNode {
  mimeType : option jsstring;
  headers : option (list Header);
  body : option MessagePartBody;
  parts : option (list MimeNode)
}.
#[local] Set Elimination Schemes.

(** [x.mimeType === m] *)
Definition mimeType_is (m : jsstring) (x : MimeNode) : bool :=
  match mimeType x with
  | Some t => jseqb t m
  | None => false
  end.

(** [x.mimeType?.startsWith('multipart/')] *)
Definition is_multipart (x : MimeNode) : bool :=
  match mimeType x with
  | Some t => startsWith t (js "multipart/")
  | None => false
  end.

(** [x.body?.data] *)
Definition body_data (x : MimeNode) : option jsstring :=
  match body x with
  | Some b => data b
  | None => None
  end.

(** [x.mimeType === m && x.body?.data] *)
Definition leaf_of (m : jsstring) (x : MimeNode) : bool :=
  mimeType_is m x && truthy_opt (body_data x).

(** [Buffer.from(x.body.data, 'base64').toString('utf-8')] *)
Definition decoded (x : MimeNode) : jsstring :=
  match body_data x with
  | Some d => Buffer.toString_utf8 (Buffer.from_base64 d)
  | None => []
  end.

Definition text_plain : jsstring := js "text/plain".
Definition text_html : jsstring := js "text/html".

(** The second [for] loop of [extractPlainTextBody]: the conversion of
    the first [text/html] child with data, [None] when the loop ends
    without a [return]. *)
Fixpoint html_pass (ps : list MimeNode) : option jsstring :=
  match ps with
  | [] => None
  | part :: ps' =>
      if leaf_of text_html part then Some (htmlToText (decoded part))
      else html_pass ps'
  end.

(** [extractPlainTextBody] on a payload that is not null; [plain_pass]
    is the first [for] loop, [Some r] when it returns [r]. *)
Fixpoint extractPlainTextBody_node (payload : MimeNode) : jsstring :=
  if leaf_of text_plain payload then decoded payload
  else
    match parts payload with
    | Some ps =>
        let plain_pass :=
          (fix plain_pass (l : list MimeNode) : option jsstring :=
             match l with
             | [] => None
             | part :: l' =>
                 if leaf_of text_plain part then Some (decoded part)
                 else if is_multipart part then
                   let nested := extractPlainTextBody_node part in
                   if truthy nested then Some nested else plain_pass l'
                 else plain_pass l'
             end) in
        match plain_pass ps with
        | Some r => r
        | None =>
            match html_pass ps with
            | Some r => r
            | None => []
            end
        end
    | None => []
    end.

Definition extractPlainTextBody (payload : option MimeNode) : jsstring :=
  match payload with
  | None => []
  | Some p => extractPlainTextBody_node p
  end.

(** ** Exceptions

    [Throw] is an exception travelling up the call stack.  On a payload
    of the provider's type only [new URL] and [decodeURIComponent] raise
    on the extraction path; on payloads of other shapes and on headers
    without a name, reading a property of [null] or [undefined] and
    calling what is not a function raise a [TypeError]. *)

Inductive Error := TypeError | URIError.

Inductive Completion (A : Type) :=
| Normal (a : A)
| Throw (e : Error).
Arguments Normal {A} a.
Arguments Throw {A} e.

Definition bind {A B : Type} (c : Completion A) (k : A -> Completion B)
  : Completion B :=
  match c with
  | Normal a => k a
  | Throw e => Throw e
  end.

Notation "x <- c ;; k" := (bind c (fun x => k))
  (at level 61, c at next level, right associativity).

(** [try { c } catch { h }] *)
Definition try_catch {A : Type} (c : Completion A) (h : Completion A)
  : Completion A :=
  match c with
  | Normal a => Normal a
  | Throw _ => h
  end.

Fixpoint foldM {A B : Type} (f : A -> B -> Completion A) (l : list B) (a : A)
  : Completion A :=
  match l with
  | [] => Normal a
  | x :: l' => a' <- f a x ;; foldM f l' a'
  end.

(** ** The platform: URL parsing and case mapping

    The [URL] constructor and [toLowerCase] belong to the runtime; the
    functions below take them from an instance of [Runtime].  Of a parsed
    URL the source reads the host name, the path name and the query
    parameters (name and value already percent-decoded, in order). *)

Record URL := {
  hostname : jsstring;
  pathname : jsstring;
  searchParams : list (jsstring * jsstring)
}.

Class Runtime := {
  new_URL : jsstring -> Completion URL;
  toLowerCase : jsstring -> jsstring
}.

(** [parsed.searchParams.get(param)]: the value of the first pair of
    that name, [null] when there is none. *)
Fixpoint searchParams_get (l : list (jsstring * jsstring)) (param : jsstring)
  : option jsstring :=
  match l with
  | [] => None
  | (n, v) :: l' => if jseqb n param then Some v else searchParams_get l' param
  end.

(** ** [decodeURIComponent]

    Every [%XX] must be two hexadecimal digits and the escaped bytes
    above 0x7F must form well-formed UTF-8; anything else is a
    [URIError]. *)

Definition hex_value (c : N) : option N :=
  if Buffer.in_range 48 57 c then Some (c - 48)
  else if Buffer.in_range 65 70 c then Some (c - 55)
  else if Buffer.in_range 97 102 c then Some (c - 87)
  else None.

Inductive uri_item :=
| Raw (c : N)   (* a character standing for itself *)
| Esc (b : N).  (* the byte of an escape [%XX] *)

Fixpoint unescape (s : jsstring) : Completion (list uri_item) :=
  match s with
  | [] => Normal []
  | c :: rest =>
      if c =? 37 then
        match rest with
        | h1 :: h2 :: rest2 =>
            match hex_value h1, hex_value h2 with
            | Some a, Some b =>
                r <- unescape rest2 ;; Normal (Esc (a * 16 + b) :: r)
            | _, _ => Throw URIError
            end
        | _ => Throw URIError
        end
      else r <- unescape rest ;; Normal (Raw c :: r)
  end.

Fixpoint decode_items (l : list uri_item) : Completion jsstring :=
  match l with
  | [] => Normal []
  | Raw c :: r => s <- decode_items r ;; Normal (c :: s)
  | Esc b1 :: r1 =>
      if b1 <? 0x80 then s <- decode_items r1 ;; Normal (b1 :: s)
      else if Buffer.in_range 0xC2 0xDF b1 then
        match r1 with
        | Esc b2 :: r2 =>
            if Buffer.is_cont b2 then
              s <- decode_items r2 ;;
              Normal (((b1 - 0xC0) * 64 + (b2 - 0x80)) :: s)
            else Throw URIError
        | _ => Throw URIError
        end
      else if Buffer.in_range 0xE0 0xEF b1 then
        match r1 with
        | Esc b2 :: Esc b3 :: r3 =>
            if Buffer.in_range (Buffer.second_lo b1) (Buffer.second_hi b1) b2
               && Buffer.is_cont b3 then
              s <- decode_items r3 ;;
              Normal (((b1 - 0xE0) * 4096 + (b2 - 0x80) * 64 + (b3 - 0x80))
                      :: s)
            else Throw URIError
        | _ => Throw URIError
        end
      else if Buffer.in_range 0xF0 0xF4 b1 then
        match r1 with
        | Esc b2 :: Esc b3 :: Esc b4 :: r4 =>
            if Buffer.in_range (Buffer.second_lo b1) (Buffer.second_hi b1) b2
               && Buffer.is_cont b3 && Buffer.is_cont b4 then
              s <- decode_items r4 ;;
              Normal (Buffer.utf16_of_code_point
                        ((b1 - 0xF0) * 262144 + (b2 - 0x80) * 4096
                         + (b3 - 0x80) * 64 + (b4 - 0x80)) ++ s)
            else Throw URIError
        | _ => Throw URIError
        end
      else Throw URIError
  end.

Definition decodeURIComponent (s : jsstring) : Completion jsstring :=
  items <- unescape s ;; decode_items items.

(** ** Message extractor: links *)

Definition destination_params : list jsstring :=
  [js "url"; js "u"; js "redirect"; js "destination"; js "target"; js "link"].

Definition trackingDomains : list jsstring :=
  [js "click."; js "track."; js "trk."; js "email."; js "links.";
   js "list-manage.com"; js "mailchimp.com"; js "beehiiv.com/clicks";
   js "convertkit.com"; js "substack.com/redirect"].

Definition is_http (s : jsstring) : bool :=
  startsWith s (js "http://") || startsWith s (js "https://").

(** The [for] loop over the parameter names: the [destUrl] at which it
    returns, [None] when it runs to its end. *)
Fixpoint find_destination (parsed : URL) (params : list jsstring)
  : option jsstring :=
  match params with
  | [] => None
  | param :: params' =>
      match searchParams_get (searchParams parsed) param with
      | Some destUrl =>
          if truthy destUrl && is_http destUrl then Some destUrl
          else find_destination parsed params'
      | None => find_destination parsed params'
      end
  end.

(** [null] is [None]. *)
Definition cleanTrackingUrl {rt : Runtime} (url : jsstring)
  : Completion (option jsstring) :=
  try_catch
    (parsed <- new_URL url ;;
     match find_destination parsed destination_params with
     | Some destUrl =>
         dest <- decodeURIComponent destUrl ;; Normal (Some dest)
     | None =>
         let isTrackingOnly :=
           existsb (fun domain =>
                      includes (hostname parsed) domain
                      || includes (pathname parsed) domain)
                   trackingDomains in
         Normal (Some url)
     end)
    (Normal None).

(** The pattern of [extractFromHtml], with flags [gi]: the text [href=],
    a single or double quote, as group 1 one or more characters that are
    not quotes, and again a single or double quote. *)
Definition hrefRegex : regex :=
  lit_i "href=" ++ [Cls quote; Group not_quote; Cls quote].

(** [links.add(x)] on a [Set] kept in insertion order. *)
Definition set_add (links : list jsstring) (x : jsstring) : list jsstring :=
  if existsb (jseqb x) links then links else links ++ [x].

(** The test guarding the body of the [while] loop. *)
Definition href_kept (url : jsstring) : bool :=
  truthy url
  && negb (startsWith url (js "mailto:"))
  && negb (startsWith url (js "javascript:"))
  && negb (startsWith url (js "#"))
  && is_http url.

(** One iteration of the [while] loop of [extractFromHtml], [url] being
    [match[1]]. *)
Definition add_href {rt : Runtime} (links : list jsstring) (url : jsstring)
  : Completion (list jsstring) :=
  if href_kept url then
    cleanUrl <- cleanTrackingUrl url ;;
    match cleanUrl with
    | Some c => if truthy c then Normal (set_add links c) else Normal links
    | None => Normal links
    end
  else Normal links.

(** The closure [extractFromHtml]; the set [links] it updates is passed
    in and returned. *)
Definition extractFromHtml {rt : Runtime} (links : list jsstring)
    (html : jsstring) : Completion (list jsstring) :=
  foldM add_href (exec_all hrefRegex html) links.

(** [extractLinksFromPayload] on a payload that is not null; the result
    is [Array.from(links)]. *)
Fixpoint extractLinksFromPayload_node {rt : Runtime} (payload : MimeNode)
    {struct payload} : Completion (list jsstring) :=
  links0 <- (if leaf_of text_html payload
             then extractFromHtml [] (decoded payload)
             else Normal []) ;;
  match parts payload with
  | Some ps =>
      (fix loop (l : list MimeNode) (links : list jsstring)
         : Completion (list jsstring) :=
         match l with
         | [] => Normal links
         | part :: l' =>
             links1 <- (if leaf_of text_html part
                        then extractFromHtml links (decoded part)
                        else Normal links) ;;
             links2 <- (if is_multipart part then
                          nestedLinks <- extractLinksFromPayload_node part ;;
                          Normal (fold_left set_add nestedLinks links1)
                        else Normal links1) ;;
             loop l' links2
         end) ps links0
  | None => Normal links0
  end.

Definition extractLinksFromPayload {rt : Runtime} (payload : option MimeNode)
  : Completion (list jsstring) :=
  match payload with
  | None => Normal []
  | Some p => extractLinksFromPayload_node p
  end.

(** ** [getMessageLight]

    [Message.t] is the answer of the transport to [messages.get]
    ([res.data]); the function below is what [getMessageLight] computes
    from it. *)

Module Message.
Record t := {
  id : option jsstring;
  threadId : option jsstring;
  snippet : option jsstring;
  labelIds : option (list jsstring);
  payload : option MimeNode
}.
End Message.

Module Light.
Record t := {
  id : option jsstring;
  threadId : option jsstring;
  from : jsstring;
  to : jsstring;
  subject : jsstring;
  date : jsstring;
  snippet : jsstring;
  body : jsstring;
  labels : list jsstring;
  links : list jsstring
}.
End Light.

(** [x || ''] and [x || []] *)
Definition or_empty (o : option jsstring) : jsstring :=
  match o with Some s => s | None => [] end.

Definition or_nil (o : option (list jsstring)) : list jsstring :=
  match o with Some l => l | None => [] end.

(** [message.payload?.headers || []] *)
Definition payload_headers (m : Message.t) : list Header :=
  match Message.payload m with
  | Some p => match headers p with Some hs => hs | None => [] end
  | None => []
  end.

(** The closure [getHeader]:
    [headers.find(h => h.name.toLowerCase() === name.toLowerCase())?.value || ''] *)
Definition getHeader {rt : Runtime} (hs : list Header) (n : jsstring)
  : jsstring :=
  match find (fun h => jseqb (toLowerCase (name h)) (toLowerCase n)) hs with
  | Some h => or_empty (value h)
  | None => []
  end.

Definition getMessageLight {rt : Runtime} (message : Message.t)
  : Completion Light.t :=
  let hs := payload_headers message in
  links <- extractLinksFromPayload (Message.payload message) ;;
  let body := extractPlainTextBody (Message.payload message) in
  Normal {|
    Light.id := Message.id message;
    Light.threadId := Message.threadId message;
    Light.from := getHeader hs (js "From");
    Light.to := getHeader hs (js "To");
    Light.subject := getHeader hs (js "Subject");
    Light.date := getHeader hs (js "Date");
    Light.snippet := or_empty (Message.snippet message);
    Light.body := body;
    Light.labels := or_nil (Message.labelIds message);
    Light.links := links
  |}.

(** ** Payloads of any shape

    The two extractors take a [payload: any].  [Loose] holds the values
    on which they are followed here beyond the provider's type: a payload
    or a part is a primitive value or an object; of an object the
    extractors read [mimeType], [body] and [parts]; [mimeType] is a
    primitive value, [body] is a primitive value or an object whose
    [data] is a primitive value, [parts] is a primitive value or an array
    of such parts.  An absent property is [undefined].  Left out are an
    array or an object in the place of a [mimeType] or of a [data]. *)

(** Numbers reach this code from JSON and from literals of the source
    and are only passed on or tested for zero: they are finite, hence
    rational. *)
Definition number : Type := Q.

Inductive Prim :=
| PUndefined
| PNull
| PBool (b : bool)
| PNum (x : number)
| PStr (s : jsstring).

Inductive LooseBody :=
| BodyPrim (p : Prim)
| BodyObject (data : Prim).

#[local] Unset Elimination Schemes.
Inductive Loose :=
| NotAnObject (p : Prim)
| PartObject (mimeType : Prim) (body : LooseBody) (parts : Prim + list Loose).
#[local] Set Elimination Schemes.

Definition nullish (p : Prim) : bool :=
  match p with
  | PUndefined | PNull => true
  | _ => false
  end.

(** Truthiness: [undefined], [null], [false], zero and the empty string
    are falsy. *)
Definition truthy_prim (p : Prim) : bool :=
  match p with
  | PUndefined | PNull => false
  | PBool b => b
  | PNum x => negb (Qeq_bool x 0)
  | PStr s => truthy s
  end.

(** [v === m] for a string [m] *)
Definition prim_is (m : jsstring) (v : Prim) : bool :=
  match v with
  | PStr s => jseqb s m
  | _ => false
  end.

(** [v?.startsWith(prefix)]: [undefined], which is falsy, when [v] is
    [undefined] or [null]; a boolean and a number have no [startsWith]
    to call. *)
Definition startsWith_opt (v : Prim) (prefix : jsstring) : Completion bool :=
  match v with
  | PUndefined | PNull => Normal false
  | PStr s => Normal (startsWith s prefix)
  | PBool _ | PNum _ => Throw TypeError
  end.

(** [x.mimeType]: reading a property of [undefined] or [null] is a
    [TypeError]; the other primitive values have no such property. *)
Definition get_mimeType (x : Loose) : Completion Prim :=
  match x with
  | NotAnObject p => if nullish p then Throw TypeError else Normal PUndefined
  | PartObject mt _ _ => Normal mt
  end.

(** [x.body?.data] for an [x] that is neither [undefined] nor [null]. *)
Definition data_of (x : Loose) : Prim :=
  match x with
  | PartObject _ (BodyObject d) _ => d
  | _ => PUndefined
  end.

(** [Buffer.from(d, 'base64').toString('utf-8')]: the first argument
    must be a string. *)
Definition decode_data (d : Prim) : Completion jsstring :=
  match d with
  | PStr s => Normal (Buffer.toString_utf8 (Buffer.from_base64 s))
  | _ => Throw TypeError
  end.

Section LoosePlainPass.
Variable self : Loose -> Completion jsstring.

(** The first [for] loop; [Some r] when it returns [r]. *)
Fixpoint plain_pass_any (l : list Loose) : Completion (option jsstring) :=
  match l with
  | [] => Normal None
  | part :: l' =>
      mt <- get_mimeType part ;;
      if prim_is text_plain mt && truthy_prim (data_of part) then
        text <- decode_data (data_of part) ;; Normal (Some text)
      else
        multi <- startsWith_opt mt (js "multipart/") ;;
        if multi then
          nested <- self part ;;
          if truthy nested then Normal (Some nested) else plain_pass_any l'
        else plain_pass_any l'
  end.

End LoosePlainPass.

(** The second [for] loop. *)
Fixpoint html_pass_any (l : list Loose) : Completion (option jsstring) :=
  match l with
  | [] => Normal None
  | part :: l' =>
      mt <- get_mimeType part ;;
      if prim_is text_html mt && truthy_prim (data_of part) then
        html <- decode_data (data_of part) ;; Normal (Some (htmlToText html))
      else html_pass_any l'
  end.

(** [for (const part of parts)] when [parts] is a truthy primitive value:
    a string is iterated character by character, and a character has no
    [mimeType], so both loops pass over it; a boolean and a number are
    not iterable. *)
Definition over_primitive_parts {A : Type} (p : Prim) (unchanged : A)
  : Completion A :=
  if truthy_prim p then
    match p with
    | PStr _ => Normal unchanged
    | _ => Throw TypeError
    end
  else Normal unchanged.

(** [extractPlainTextBody] on any payload: a falsy payload gives [''] at
    once, another primitive value has neither [mimeType] nor [parts]. *)
Fixpoint extractPlainTextBody_any (payload : Loose) : Completion jsstring :=
  match payload with
  | NotAnObject _ => Normal []
  | PartObject mt _ parts =>
      if prim_is text_plain mt && truthy_prim (data_of payload) then
        decode_data (data_of payload)
      else
        match parts with
        | inr l =>
            r <- plain_pass_any extractPlainTextBody_any l ;;
            match r with
            | Some text => Normal text
            | None =>
                h <- html_pass_any l ;;
                Normal (match h with Some text => text | None => [] end)
            end
        | inl p => over_primitive_parts p []
        end
  end.

Section LooseLinksLoop.
Context {rt : Runtime}.
Variable self : Loose -> Completion (list jsstring).

Fixpoint links_loop_any (l : list Loose) (links : list jsstring)
  : Completion (list jsstring) :=
  match l with
  | [] => Normal links
  | part :: l' =>
      mt <- get_mimeType part ;;
      links1 <- (if prim_is text_html mt && truthy_prim (data_of part)
                 then html <- decode_data (data_of part) ;;
                      extractFromHtml links html
                 else Normal links) ;;
      multi <- startsWith_opt mt (js "multipart/") ;;
      links2 <- (if multi then
                   nestedLinks <- self part ;;
                   Normal (fold_left set_add nestedLinks links1)
                 else Normal links1) ;;
      links_loop_any l' links2
  end.

End LooseLinksLoop.

(** [extractLinksFromPayload] on any payload. *)
Fixpoint extractLinksFromPayload_any {rt : Runtime} (payload : Loose)
    {struct payload} : Completion (list jsstring) :=
  match payload with
  | NotAnObject _ => Normal []
  | PartObject mt _ parts =>
      links0 <- (if prim_is text_html mt && truthy_prim (data_of payload)
                 then html <- decode_data (data_of payload) ;;
                      extractFromHtml [] html
                 else Normal []) ;;
      match parts with
      | inr l => links_loop_any extractLinksFromPayload_any l links0
      | inl p => over_primitive_parts p links0
      end
  end.

(** A payload of the provider's type among the payloads of any shape. *)
Definition loosen_string (o : option jsstring) : Prim :=
  match o with
  | Some s => PStr s
  | None => PUndefined
  end.

Fixpoint loosen (x : MimeNode) : Loose :=
  PartObject (loosen_string (mimeType x))
    (match body x with
     | Some b => BodyObject (loosen_string (data b))
     | None => BodyPrim PUndefined
     end)
    (match parts x with
     | Some ps => inr (map loosen ps)
     | None => inl PUndefined
     end).

Definition loosen_payload (payload : option MimeNode) : Loose :=
  match payload with
  | Some x => loosen x
  | None => NotAnObject PNull
  end.

(** Shapes on which no operation of the extractors throws: every
    [mimeType] is a string, [undefined] or [null]; every [data] is a
    string or falsy; [parts] is an array, a string or falsy; no entry of
    a [parts] array is [undefined] or [null]. *)
Definition mimeType_ok (mt : Prim) : bool :=
  match mt with
  | PBool _ | PNum _ => false
  | _ => true
  end.

Definition string_or_falsy (d : Prim) : bool :=
  match d with
  | PStr _ => true
  | _ => negb (truthy_prim d)
  end.

Definition entry_ok (part : Loose) : bool :=
  match part with
  | NotAnObject p => negb (nullish p)
  | PartObject _ _ _ => true
  end.

Fixpoint tolerated (x : Loose) : bool :=
  match x with
  | NotAnObject _ => true
  | PartObject mt _ parts =>
      mimeType_ok mt && string_or_falsy (data_of x)
      && match parts with
         | inr l => forallb (fun part => entry_ok part && tolerated part) l
         | inl p => string_or_falsy p
         end
  end.

(** The payload [{ parts: [null] }]. *)
Definition null_part : Loose :=
  PartObject PUndefined (BodyPrim PUndefined) (inr [NotAnObject PNull]).

(** A part whose [mimeType] is the number 7. *)
Definition numeric_mimeType : Loose :=
  PartObject PUndefined (BodyPrim PUndefined)
    (inr [PartObject (PNum 7%Q) (BodyPrim PUndefined) (inl PUndefined)]).

(** ** Headers as the provider types them

    In the provider's type of a header both [name] and [value] may be
    absent.  The lookup below is the closure [getHeader] of
    [getMessageLight] and the body of [extractHeader] on such a list:
    [find] calls [h.name.toLowerCase()] on the headers in order until
    one matches, and reading [toLowerCase] of an absent name is a
    [TypeError]. *)
Module Provider.
Record Header := { name : option jsstring; value : option jsstring }.
End Provider.

Fixpoint find_header {rt : Runtime} (hs : list Provider.Header) (n : jsstring)
  : Completion (option Provider.Header) :=
  match hs with
  | [] => Normal None
  | h :: hs' =>
      match Provider.name h with
      | Some hn =>
          if jseqb (toLowerCase hn) (toLowerCase n) then Normal (Some h)
          else find_header hs' n
      | None => Throw TypeError
      end
  end.

Definition header_lookup {rt : Runtime} (hs : list Provider.Header)
    (n : jsstring) : Completion jsstring :=
  found <- find_header hs n ;;
  Normal (match found with
          | Some h => or_empty (Provider.value h)
          | None => []
          end).

(** The four lookups of [getMessageLight], in the order of the object
    literal: [from], [to], [subject], [date]. *)
Definition light_headers {rt : Runtime} (hs : list Provider.Header)
  : Completion (jsstring * jsstring * jsstring * jsstring) :=
  from <- header_lookup hs (js "From") ;;
  to <- header_lookup hs (js "To") ;;
  subject <- header_lookup hs (js "Subject") ;;
  date <- header_lookup hs (js "Date") ;;
  Normal (from, to, subject, date).

(** A header of the model with mandatory names, as the provider types
    it. *)
Definition named (h : Header) : Provider.Header :=
  {| Provider.name := Some (name h); Provider.value := value h |}.

(** ** A reference runtime

    An executable [Runtime] for evaluating examples.  Its [new_URL]
    follows the URL standard on the URLs
    [http(s)://host/path?query#fragment] whose host is made of labels of
    lower-case letters separated by single dots, whose path uses letters,
    digits, [/], [_] and [-], and whose query uses the ASCII characters
    0x21 to 0x7E; every other input is reported as a failure, although the
    standard accepts more of them.  Its [toLowerCase] maps the ASCII
    letters, which is what the standard does on ASCII strings. *)

Module Reference.

(** The prefix of [s] before the first character satisfying [p], and the
    rest from that character on. *)
Fixpoint break (p : N -> bool) (s : jsstring) : jsstring * jsstring :=
  match s with
  | [] => ([], [])
  | c :: s' =>
      if p c then ([], s)
      else let (a, b) := break p s' in (c :: a, b)
  end.

Fixpoint split_on (sep : N) (s : jsstring) : list jsstring :=
  match s with
  | [] => [[]]
  | c :: s' =>
      let l := split_on sep s' in
      if c =? sep then [] :: l
      else match l with
           | h :: t => (c :: h) :: t
           | [] => [[c]]
           end
  end.

Fixpoint host_ok (after_letter : bool) (s : jsstring) : bool :=
  match s with
  | [] => after_letter
  | c :: s' =>
      if Buffer.in_range 97 122 c then host_ok true s'
      else if (c =? 46) && after_letter then host_ok false s'
      else false
  end.

Definition path_char (c : N) : bool :=
  Buffer.in_range 97 122 c || Buffer.in_range 65 90 c
  || Buffer.in_range 48 57 c || (c =? 47) || (c =? 95) || (c =? 45).

Definition query_char (c : N) : bool := Buffer.in_range 0x21 0x7E c.

(** Percent-decoding to bytes: a [%] not followed by two hexadecimal
    digits stands for itself. *)
Fixpoint percent_decode (s : jsstring) : list N :=
  match s with
  | [] => []
  | c :: rest =>
      if c =? 37 then
        match rest with
        | h1 :: h2 :: rest2 =>
            match hex_value h1, hex_value h2 with
            | Some a, Some b => (a * 16 + b) :: percent_decode rest2
            | _, _ => c :: percent_decode rest
            end
        | _ => c :: percent_decode rest
        end
      else c :: percent_decode rest
  end.

(** A name or value of the [application/x-www-form-urlencoded] parser. *)
Definition form_decode (s : jsstring) : jsstring :=
  Buffer.toString_utf8
    (percent_decode (map (fun c => if c =? 43 then 32 else c) s)).

Definition form_pair (s : jsstring) : jsstring * jsstring :=
  let (n, r) := break (fun c => c =? 61) s in
  (form_decode n, form_decode (tl r)).

Definition form_parse (query : jsstring) : list (jsstring * jsstring) :=
  map form_pair (filter truthy (split_on 38 query)).

Definition strip_scheme (url : jsstring) : option jsstring :=
  if startsWith url (js "https://") then Some (skipn 8 url)
  else if startsWith url (js "http://") then Some (skipn 7 url)
  else None.

Definition parse (url : jsstring) : Completion URL :=
  match strip_scheme url with
  | None => Throw TypeError
  | Some rest =>
      let (host, r1) :=
        break (fun c => (c =? 47) || (c =? 63) || (c =? 35)) rest in
      let (path, r2) := break (fun c => (c =? 63) || (c =? 35)) r1 in
      let (query, _) := break (fun c => c =? 35) r2 in
      if host_ok false host && forallb path_char path
         && forallb query_char query
      then Normal {| hostname := host;
                     pathname := if truthy path then path else js "/";
                     searchParams := form_parse (tl query) |}
      else Throw TypeError
  end.

#[export] Instance runtime : Runtime := {
  new_URL := parse;
  toLowerCase := map ascii_lower
}.

End Reference.

(** ** Account store and the [add_account] tool *)

Module Accounts.

Record Credential := {
  accessToken : jsstring;
  refreshToken : jsstring;
  expiry : N;
  scopes : list jsstring
}.

Record AccountRecord := {
  address : jsstring;
  credential : Credential;
  addedAt : N;
  lastUsed : N
}.

Record AccountStore := {
  accounts : list AccountRecord;
  defaultAccount : option jsstring
}.

(** An exception of the account manager, with its [message]. *)
Inductive ErrorKind := ConflictError | NotFoundError | AuthorizationError.

Record JsError := { kind : ErrorKind; message : jsstring }.

(** What the account manager needs from outside: the consent flow, which
    yields a credential or fails, the clock, and the wording of the
    conflict error, which the spec leaves open. *)
Class Env := {
  authorize : jsstring -> JsError + Credential;
  now : N;
  conflictMessage : jsstring -> jsstring
}.

(** Modelled from the spec: [AccountManager.accountExists], which lives
    in account-manager.ts; the server entry point only imports it.  The
    spec (4.1): true iff a record with that normalized address is
    present, addresses being compared case-insensitively. *)
Definition accountExists (s : AccountStore) (email : jsstring) : bool :=
  existsb (fun r => jseqb (map ascii_lower (address r)) (map ascii_lower email))
          (accounts s).

(** Modelled from the spec: [AccountManager.addAccount], which lives in
    account-manager.ts; the server entry point only imports it.  The
    spec (4.1): fails with a conflict if a record already exists;
    otherwise obtains an initial credential from the consent flow,
    creates the record with the current timestamps and persists; the
    default pointer is left alone. *)
Definition addAccount {env : Env} (s : AccountStore) (email : jsstring)
  : (JsError + unit) * AccountStore :=
  if accountExists s email then
    (inl {| kind := ConflictError; message := conflictMessage email |}, s)
  else
    match authorize email with
    | inl e => (inl e, s)
    | inr c =>
        (inr tt,
         {| accounts := accounts s ++ [{| address := email; credential := c;
                                          addedAt := now; lastUsed := now |}];
            defaultAccount := defaultAccount s |})
    end.

(** The result of a tool call: one text item, and [isError], which is
    false when the field is absent. *)
Record ToolResult := {
  content : list jsstring;
  isError : bool
}.

(** The handler registered for [add_account]; the store is threaded
    through. *)
Definition add_account {env : Env} (s : AccountStore) (email : jsstring)
  : ToolResult * AccountStore :=
  if accountExists s email then
    ({| content := [js "Account " ++ email ++ js " already exists."];
        isError := false |}, s)
  else
    match addAccount s email with
    | (inr _, s') =>
        ({| content :=
              [js "Account " ++ email
               ++ js " added successfully. You may need to authenticate in your browser."];
            isError := false |}, s')
    | (inl error, s') =>
        ({| content := [js "Error: " ++ message error]; isError := true |}, s')
    end.

End Accounts.

(** ** Notions used in the statements *)

(** The nodes of a tree in document order: a node, then the nodes of its
    children from first to last. *)
Fixpoint nodes (x : MimeNode) : list MimeNode :=
  x :: match parts x with
       | Some ps => flat_map nodes ps
       | None => []
       end.

(** The data model's shape: child parts sit on [multipart/*] nodes only. *)
Definition parts_on_multipart (n : MimeNode) : bool :=
  match parts n with
  | Some _ => is_multipart n
  | None => true
  end.

Definition well_formed (root : MimeNode) : bool :=
  forallb parts_on_multipart (nodes root).

(** The leaves of a media type that carry payload data, in document
    order. *)
Definition leaves (m : jsstring) (root : MimeNode) : list MimeNode :=
  filter (leaf_of m) (nodes root).

Definition plain_leaves : MimeNode -> list MimeNode := leaves text_plain.
Definition html_leaves : MimeNode -> list MimeNode := leaves text_html.

(** What one [href] value contributes to the link list. *)
Definition link_of_href {rt : Runtime} (url : jsstring) : list jsstring :=
  if href_kept url then
    match cleanTrackingUrl url with
    | Normal (Some c) => if truthy c then [c] else []
    | _ => []
    end
  else [].

(** The links of an HTML text, one per surviving [href], in order. *)
Definition links_of_html {rt : Runtime} (html : jsstring) : list jsstring :=
  flat_map link_of_href (exec_all hrefRegex html).

(** The links of all HTML leaves of a tree, in document order. *)
Definition all_links {rt : Runtime} (root : MimeNode) : list jsstring :=
  flat_map (fun x => links_of_html (decoded x)) (html_leaves root).

(** Removal of duplicates that keeps first occurrences in their order:
    an element is kept when it is not among those [seen] before it. *)
Fixpoint unseen (seen l : list jsstring) : list jsstring :=
  match l with
  | [] => []
  | x :: l' =>
      if existsb (jseqb x) seen then unseen seen l'
      else x :: unseen (seen ++ [x]) l'
  end.

Definition first_occurrences (l : list jsstring) : list jsstring :=
  unseen [] l.

(** A string of 16-bit code units in which every surrogate is paired. *)
Fixpoint well_formed_utf16 (s : jsstring) : bool :=
  match s with
  | [] => true
  | c :: s' =>
      if Buffer.is_high_surrogate c then
        match s' with
        | d :: s'' => Buffer.is_low_surrogate d && well_formed_utf16 s''
        | [] => false
        end
      else negb (Buffer.is_low_surrogate c) && (c <? 0x10000)
           && well_formed_utf16 s'
  end.

Definition strip_prefix (p s : jsstring) : option jsstring :=
  if startsWith s p then Some (skipn (List.length p) s) else None.

Definition strip_suffix (p s : jsstring) : option jsstring :=
  option_map (@rev N) (strip_prefix (rev p) (rev s)).

(** The base64 alphabet of RFC 4648, section 4. *)
Definition standard_char (c : N) : bool :=
  Buffer.in_range 65 90 c || Buffer.in_range 97 122 c
  || Buffer.in_range 48 57 c || (c =? 43) || (c =? 47).

(** Base64 text as RFC 4648 requires it: groups of four characters of the
    alphabet, the last group possibly ending in one or two [=]. *)
Fixpoint standard_base64 (s : jsstring) : bool :=
  match s with
  | [] => true
  | [a; b; c; d] =>
      standard_char a && standard_char b
      && ((standard_char c && (standard_char d || (d =? 61)))
          || ((c =? 61) && (d =? 61)))
  | a :: b :: c :: d :: rest =>
      standard_char a && standard_char b && standard_char c
      && standard_char d && standard_base64 rest
  | _ => false
  end.

(** Decoding of one encoded word [=?UTF-8?B?text?=] by the rule of RFC
    2047: the text is decoded as base64 and the bytes as UTF-8.  The
    limit of 75 characters that the RFC puts on an encoded word is not
    part of this decoder, as the source does not split long subjects. *)
Definition rfc2047_decode (w : jsstring) : option jsstring :=
  match strip_prefix (js "=?UTF-8?B?") w with
  | Some r =>
      match strip_suffix (js "?=") r with
      | Some text =>
          if standard_base64 text
          then Some (Buffer.toString_utf8 (Buffer.from_base64 text))
          else None
      | None => None
      end
  | None => None
  end.

(** The composed message as the spec words it, written without the
    functions of the composer: the [To] line, the [Subject] line, the
    [Cc] line and the [Bcc] line when their list is given and not empty,
    the content type line, each ended by CR LF (13, 10), then an empty
    line and the body.  The addresses of a line are separated by a comma
    and a space (44, 32).  What the [Subject] line holds after its label
    is the matter of C3. *)
Definition comma_separated (l : list jsstring) : jsstring :=
  match l with
  | [] => []
  | first :: others => first ++ flat_map (fun a => [44; 32] ++ a) others
  end.

Definition optional_line (label : jsstring) (l : option (list jsstring))
  : jsstring :=
  match l with
  | Some (a :: others) => label ++ comma_separated (a :: others) ++ [13; 10]
  | Some [] => []
  | None => []
  end.

Definition composed_text (p : SendParams.t) : jsstring :=
  js "To: " ++ comma_separated (SendParams.to p) ++ [13; 10]
  ++ js "Subject: " ++ encodeSubject (SendParams.subject p) ++ [13; 10]
  ++ optional_line (js "Cc: ") (SendParams.cc p)
  ++ optional_line (js "Bcc: ") (SendParams.bcc p)
  ++ js "Content-Type: text/plain; charset=utf-8" ++ [13; 10]
  ++ [13; 10]
  ++ SendParams.body p.

(** URL-safe base64 without padding as RFC 4648 words it, written
    without the encoder of [Buffer]: the bytes are read as one sequence
    of bits, each byte from its most significant bit; the sequence is
    cut into groups of six bits, the last group being completed with
    zero bits; each group is written as the character standing at its
    value in the alphabet. *)
Definition url_safe_alphabet : jsstring :=
  js "ABCDEFGHIJKLMNOPQRSTUVWXYZabcdefghijklmnopqrstuvwxyz0123456789-_".

Definition bits_of_byte (b : N) : list bool :=
  map (N.testbit b) [7; 6; 5; 4; 3; 2; 1; 0].

Definition value_of_bits (bits : list bool) : N :=
  fold_left (fun v (b : bool) => 2 * v + N.b2n b) bits 0.

Fixpoint six_bit_groups (bits : list bool) : list (list bool) :=
  match bits with
  | [] => []
  | b1 :: b2 :: b3 :: b4 :: b5 :: b6 :: rest =>
      [b1; b2; b3; b4; b5; b6] :: six_bit_groups rest
  | last_bits => [firstn 6 (last_bits ++ repeat false 6)]
  end.

Definition base64url_spec (bytes : list N) : jsstring :=
  map (fun group => nth (N.to_nat (value_of_bits group)) url_safe_alphabet 0)
      (six_bit_groups (flat_map bits_of_byte bytes)).

(** The characters of base64url: letters, digits, [-] and [_]. *)
Definition url_safe_char (c : N) : bool :=
  Buffer.in_range 65 90 c || Buffer.in_range 97 122 c
  || Buffer.in_range 48 57 c || (c =? 45) || (c =? 95).

Definition is_byte (b : N) : bool := b <? 256.

(** A string of 16-bit code units. *)
Definition code_units (s : jsstring) : bool := forallb (fun c => c <? 0x10000) s.

(** The strings of a send request. *)
Definition request_strings (p : SendParams.t) : list jsstring :=
  SendParams.subject p :: SendParams.body p
  :: SendParams.to p ++ or_nil (SendParams.cc p) ++ or_nil (SendParams.bcc p).

(** A request with every header line, a subject that needs encoding and
    a body outside ASCII. *)
Definition full_request : SendParams.t := {|
  SendParams.to := [js "a@example.com"; js "b@example.com"];
  SendParams.subject := [0x48; 0xE9];
  SendParams.body := [0x4F; 0x4B; 0x20; 0x263A];
  SendParams.cc := Some [js "c@example.com"];
  SendParams.bcc := Some [js "d@example.com"; js "e@example.com"]
|}.

(** The first [for] loop of [extractPlainTextBody], stated over the
    recursive call [self]; [extractPlainTextBody_node_eq] unfolds the
    function with it. *)
Section PlainPass.
Variable self : MimeNode -> jsstring.

Fixpoint plain_pass (l : list MimeNode) : option jsstring :=
  match l with
  | [] => None
  | part :: l' =>
      if leaf_of text_plain part then Some (decoded part)
      else if is_multipart part then
        let nested := self part in
        if truthy nested then Some nested else plain_pass l'
      else plain_pass l'
  end.

End PlainPass.

(** The loop of [extractLinksFromPayload] over the child parts, stated
    over the recursive call [self]; [extractLinksFromPayload_node_eq]
    unfolds the function with it. *)
Section LinksLoop.
Context {rt : Runtime}.
Variable self : MimeNode -> Completion (list jsstring).

Fixpoint links_loop (l : list MimeNode) (links : list jsstring)
  : Completion (list jsstring) :=
  match l with
  | [] => Normal links
  | part :: l' =>
      links1 <- (if leaf_of text_html part
                 then extractFromHtml links (decoded part)
                 else Normal links) ;;
      links2 <- (if is_multipart part then
                   nestedLinks <- self part ;;
                   Normal (fold_left set_add nestedLinks links1)
                 else Normal links1) ;;
      links_loop l' links2
  end.

End LinksLoop.

(** The HTML leaves that [extractLinksFromPayload] reads, in the order
    in which it reads them: the payload itself, then for each child part
    the part itself and, when it is multipart, what the recursive call
    reads. *)
Fixpoint visited_html (x : MimeNode) : list MimeNode :=
  (if leaf_of text_html x then [x] else [])
  ++ match parts x with
     | Some ps =>
         flat_map (fun part =>
                     (if leaf_of text_html part then [part] else [])
                     ++ (if is_multipart part then visited_html part else []))
                  ps
     | None => []
     end.

Definition links_of_leaves {rt : Runtime} (l : list MimeNode) : list jsstring :=
  flat_map (fun x => links_of_html (decoded x)) l.

(** The value of [cleanTrackingUrl], [null] being [None]. *)
Definition clean_value {rt : Runtime} (url : jsstring) : option jsstring :=
  match cleanTrackingUrl url with
  | Normal r => r
  | Throw _ => None
  end.

(** ** Example messages *)

(** The provider's encoding of a text: base64url of its UTF-8 bytes. *)
Definition base64url_of (text : jsstring) : jsstring :=
  Buffer.toString_base64url (Buffer.from_utf8 text).

Definition leaf (m text : jsstring) : MimeNode :=
  mkMimeNode (Some m) None (Some {| data := Some (base64url_of text) |}) None.

Definition multipart (subtype : string) (ps : list MimeNode) : MimeNode :=
  mkMimeNode (Some (js "multipart/" ++ js subtype)) None None (Some ps).

(** An HTML part inside a nested multipart, followed by a plain-text
    part. *)
Definition html_nested_before_plain : MimeNode :=
  multipart "mixed"
    [multipart "related" [leaf text_html (js "<b>hi</b>")];
     leaf text_plain (js "plain")].

(** A plain-text leaf two multipart levels below a child of the root,
    next to an HTML leaf. *)
Definition plain_two_levels_down : MimeNode :=
  multipart "mixed"
    [multipart "alternative" [multipart "related" [leaf text_plain (js "plain")]];
     leaf text_html (js "<b>hi</b>")].

Definition html_then_plain_two_levels_down : MimeNode :=
  multipart "mixed"
    [leaf text_html (js "<b>hi</b>");
     multipart "alternative" [multipart "related" [leaf text_plain (js "plain")]]].

(** A message that is one HTML leaf. *)
Definition html_only : MimeNode := leaf text_html (js "<b>hi</b>").

(** An HTML part whose conversion leaves no text. *)
Definition html_without_text : MimeNode :=
  multipart "alternative" [leaf text_html (js "<br>")].

(** An anchor around the text [go] whose [href] value is [url], written
    between double quotes. *)
Definition anchor (url : jsstring) : jsstring :=
  js "<a href=" ++ [34] ++ url ++ [34] ++ js ">go</a>".

Definition tracking_href : jsstring :=
  js "https://clicks.example.com/x?u=https%3A%2F%2Freal.example.com%2Fpage".

(** A tracking link whose destination ends in a percent sign, which is
    [%25] in the query and a lone [%] once the query is parsed. *)
Definition malformed_destination_href : jsstring :=
  js "https://t.example/c?url=https%3A%2F%2Fshop.example%2Fsale%3Foff%3D50%25".

Definition same_href_twice : MimeNode :=
  multipart "mixed"
    [leaf text_plain (js "see the links");
     leaf text_html (anchor (js "https://a.example/page"));
     multipart "related" [leaf text_html (anchor (js "https://a.example/page"))]].

(** A message attached to a message: a part that is not multipart and
    has child parts, outside the shape of the data model. *)
Definition html_in_attached_message : MimeNode :=
  multipart "mixed"
    [leaf text_plain (js "see attached");
     mkMimeNode (Some (js "message/rfc822")) None None
       (Some [leaf text_html (anchor (js "https://a.example/page"))])].

(** A URL on a host that the tracking list names, without destination
    parameter, and a text that is no URL. *)
Definition tracking_host_href : jsstring := js "https://click.example.com/x?id=42".
Definition unparsable_href : jsstring := js "https://".

(** The answer of the transport for a message that is one HTML leaf. *)
Definition html_only_message : Message.t := {|
  Message.id := Some (js "m1");
  Message.threadId := Some (js "t1");
  Message.snippet := Some (js "go");
  Message.labelIds := Some [js "INBOX"];
  Message.payload := Some (leaf text_html (anchor tracking_href))
|}.

Module AccountExamples.
Import Accounts.

(** An environment in which the consent flow is refused. *)
#[export] Instance env : Env := {
  authorize := fun _ =>
    inl {| kind := AuthorizationError; message := js "consent refused" |};
  now := 1700000000000;
  conflictMessage := fun email => js "Account already exists: " ++ email
}.

Definition alice : AccountRecord := {|
  address := js "alice@example.com";
  credential := {| accessToken := js "at"; refreshToken := js "rt";
                   expiry := 1700000003600; scopes := [js "gmail.modify"] |};
  addedAt := 1690000000000;
  lastUsed := 1690000000000
|}.

Definition store : AccountStore :=
  {| accounts := [alice]; defaultAccount := Some (js "alice@example.com") |}.

End AccountExamples.

(** ** Further notions *)

(** What replacing the matches of [spacesRegex] by one space amounts to:
    every maximal run of white space becomes one space; [in_run] tells
    that the preceding character was white space. *)
Fixpoint collapse (in_run : bool) (s : jsstring) : jsstring :=
  match s with
  | [] => []
  | c :: s' =>
      if space c then (if in_run then collapse true s' else 32 :: collapse true s')
      else c :: collapse false s'
  end.

(** Length of the white space at the start of a string. *)
Fixpoint run (s : jsstring) : nat :=
  match s with
  | c :: s' => if space c then S (run s') else O
  | [] => O
  end.

(** ** [extractHeader]

    [message.payload?.headers?.find(...)], then [header?.value || '']. *)
Definition extractHeader {rt : Runtime} (message : Message.t)
    (headerName : jsstring) : jsstring :=
  match Message.payload message with
  | Some p =>
      match headers p with
      | Some hs =>
          match find (fun h => jseqb (toLowerCase (name h))
                                     (toLowerCase headerName)) hs with
          | Some header => or_empty (value header)
          | None => []
          end
      | None => []
      end
  | None => []
  end.

(** A message with two [Subject] headers, the first without value. *)
Definition two_subjects_payload : MimeNode :=
  mkMimeNode (Some text_plain)
    (Some [{| name := js "From"; value := Some (js "a@example.com") |};
           {| name := js "SUBJECT"; value := None |};
           {| name := js "Subject"; value := Some (js "second") |}])
    None None.

Definition two_subjects_message : Message.t := {|
  Message.id := None; Message.threadId := None; Message.snippet := None;
  Message.labelIds := None;
  Message.payload := Some two_subjects_payload
|}.

(** ** Calls to the outside: transport and account manager

    A value thrown or used to reject a promise, and the text the tool
    handlers make of it:
    [error instanceof Error ? error.message : String(error)]. *)
Inductive Thrown :=
| ErrorObject (message : jsstring)
| OtherValue (text : jsstring).

Definition describe (error : Thrown) : jsstring :=
  match error with
  | ErrorObject message => message
  | OtherValue text => text
  end.

(** A settled promise: rejected or fulfilled. *)
Definition Promise (A : Type) : Type := Thrown + A.

(** [Promise.all]: fulfilled with all the values in the order of the
    list when every promise is fulfilled, rejected otherwise.  When
    several promises reject, the one that is reported depends on time;
    the first of the list stands for it here. *)
Fixpoint promise_all {A : Type} (l : list (Promise A)) : Promise (list A) :=
  match l with
  | [] => inr []
  | inl e :: _ => inl e
  | inr a :: l' =>
      match promise_all l' with
      | inl e => inl e
      | inr r => inr (a :: r)
      end
  end.

Module Listing.
(** An entry of [res.data.messages] and the answer of [messages.list]. *)
Record MessageRef := { id : option jsstring; threadId : option jsstring }.

Record t (number : Type) := {
  messages : option (list MessageRef);
  resultSizeEstimate : option number;
  nextPageToken : option jsstring
}.
Arguments messages {number} _.
Arguments resultSizeEstimate {number} _.
Arguments nextPageToken {number} _.
End Listing.

(** The services the server calls: the account manager
    ([account-manager.js]) and [gmail.users.messages].  [world] is the
    state of the account store and of the mailboxes; the two reading
    calls of the transport answer from it and leave it as it is, the
    other calls return the next state as well. *)
Class Services := {
  world : Type;
  auth : Type;
  getDefaultAccount : world -> Promise (option jsstring) * world;
  getAccountAuth : jsstring -> world -> Promise auth * world;
  messages_send : auth -> jsstring -> world -> Promise (option jsstring) * world;
  messages_list : auth -> jsstring -> number -> world
                  -> Promise (Listing.t number);
  messages_get : auth -> option jsstring -> world -> Promise Message.t
}.

Module Client.
(** The fields of a [GmailClient]. *)
Record t {sv : Services} := { auth_ : auth; accountEmail : jsstring }.
End Client.

Module Summary.
(** An element of the [messages] array built by [searchEmails]. *)
Record t := {
  id : option jsstring;
  threadId : option jsstring;
  snippet : option jsstring;
  subject : jsstring;
  from : jsstring;
  date : jsstring
}.
End Summary.

Module Found.
(** The object returned by [searchEmails]. *)
Record t (number : Type) := {
  messages : list Summary.t;
  resultSizeEstimate : option number;
  nextPageToken : option jsstring
}.
Arguments messages {number} _.
Arguments resultSizeEstimate {number} _.
Arguments nextPageToken {number} _.
End Found.

(** [getMessage]: [messages.get] without a format. *)
Definition getMessage {sv : Services} (client : Client.t)
    (messageId : option jsstring) (w : world) : Promise Message.t :=
  messages_get (Client.auth_ client) messageId w.

(** The callback mapped over the listed messages. *)
Definition summarize {sv : Services} {rt : Runtime} (client : Client.t)
    (w : world) (msg : Listing.MessageRef) : Promise Summary.t :=
  match getMessage client (Listing.id msg) w with
  | inl e => inl e
  | inr details =>
      inr {| Summary.id := Listing.id msg;
             Summary.threadId := Listing.threadId msg;
             Summary.snippet := Message.snippet details;
             Summary.subject := extractHeader details (js "Subject");
             Summary.from := extractHeader details (js "From");
             Summary.date := extractHeader details (js "Date") |}
  end.

(** [searchEmails]; [maxResults] is [None] when the argument is left
    out, in which case the default [10] of the parameter is used. *)
Definition searchEmails {sv : Services} {rt : Runtime} (client : Client.t)
    (query : jsstring) (maxResults : option number) (w : world)
  : Promise (Found.t number) :=
  match messages_list (Client.auth_ client) query
          (match maxResults with Some m => m | None => 10%Q end) w with
  | inl e => inl e
  | inr res =>
      match promise_all
              (map (summarize client w)
                   (match Listing.messages res with
                    | Some l => l
                    | None => []
                    end)) with
      | inl e => inl e
      | inr messages =>
          inr {| Found.messages := messages;
                 Found.resultSizeEstimate := Listing.resultSizeEstimate res;
                 Found.nextPageToken := Listing.nextPageToken res |}
      end
  end.

(** [getGmailClient] of the server entry point. *)
Definition no_account_message : jsstring :=
  js "No account specified and no default account set. Please add an account first.".

Definition client_for {sv : Services} (email : jsstring) (w : world)
  : Promise Client.t * world :=
  match getAccountAuth email w with
  | (inl e, w') => (inl e, w')
  | (inr a, w') => (inr {| Client.auth_ := a; Client.accountEmail := email |}, w')
  end.

Definition getGmailClient {sv : Services} (account : option jsstring)
    (w : world) : Promise Client.t * world :=
  if truthy_opt account then client_for (or_empty account) w
  else
    match getDefaultAccount w with
    | (inl e, w') => (inl e, w')
    | (inr defaultAccount, w') =>
        if truthy_opt defaultAccount
        then client_for (or_empty defaultAccount) w'
        else (inl (ErrorObject no_account_message), w')
    end.

(** A template literal prints an absent value as [undefined]. *)
Definition in_template (o : option jsstring) : jsstring :=
  match o with Some s => s | None => js "undefined" end.

(** The handler registered for [send_email]. *)
Definition send_email {sv : Services} (account : option jsstring)
    (p : SendParams.t) (w : world) : Accounts.ToolResult * world :=
  match getGmailClient account w with
  | (inl error, w') =>
      ({| Accounts.content := [js "Error: " ++ describe error];
          Accounts.isError := true |}, w')
  | (inr gmailClient, w') =>
      match sendEmail (messages_send (Client.auth_ gmailClient)) p w' with
      | (inl error, w'') =>
          ({| Accounts.content := [js "Error: " ++ describe error];
              Accounts.isError := true |}, w'')
      | (inr messageId, w'') =>
          ({| Accounts.content :=
                [js "Email sent successfully from "
                 ++ Client.accountEmail gmailClient
                 ++ js ". Message ID: " ++ in_template messageId];
              Accounts.isError := false |}, w'')
      end
  end.

(** A small instance of the services: the world holds the default
    pointer and the raw messages sent so far; every address is
    authorized, the mailbox lists two messages and has lost the
    message [gone]. *)
Module ServiceExamples.

Record state := { default : option jsstring; outbox : list jsstring }.

Definition listed : list Listing.MessageRef :=
  [{| Listing.id := Some (js "m1"); Listing.threadId := Some (js "t1") |};
   {| Listing.id := Some (js "m2"); Listing.threadId := Some (js "t1") |}].

Definition fetch (messageId : option jsstring) : Promise Message.t :=
  match messageId with
  | Some i =>
      if jseqb i (js "gone") then inl (ErrorObject (js "Not Found"))
      else if jseqb i (js "m1") then inr html_only_message
      else inr two_subjects_message
  | None => inl (ErrorObject (js "Missing required parameters: id"))
  end.

#[export] Instance services : Services := {
  world := state;
  auth := jsstring;
  getDefaultAccount := fun w => (inr (default w), w);
  getAccountAuth := fun email w => (inr email, w);
  messages_send := fun a raw w =>
    (inr (Some (js "sent-1")),
     {| default := default w; outbox := outbox w ++ [raw] |});
  messages_list := fun a query n w =>
    if jseqb query (js "in:trash")
    then inr {| Listing.messages :=
                  Some (listed ++ [{| Listing.id := Some (js "gone");
                                     Listing.threadId := None |}]);
                Listing.resultSizeEstimate := Some 3%Q;
                Listing.nextPageToken := None |}
    else inr {| Listing.messages := Some listed;
                Listing.resultSizeEstimate := Some 2%Q;
                Listing.nextPageToken := Some (js "next") |};
  messages_get := fun a i w => fetch i
}.

Definition me : Client.t :=
  {| Client.auth_ := js "me@example.com";
     Client.accountEmail := js "me@example.com" |}.

Definition hello : SendParams.t := {|
  SendParams.to := [js "you@example.com"];
  SendParams.subject := js "Hello";
  SendParams.body := js "Hi there";
  SendParams.cc := None;
  SendParams.bcc := None
|}.

End ServiceExamples.

(** A text whose white space is tidy: plain single spaces, none at the
    start and none at the end; [after_space] tells that the preceding
    character was a space (or that the text starts here). *)
Fixpoint tidy_from (after_space : bool) (s : jsstring) : bool :=
  match s with
  | [] => negb after_space
  | c :: s' =>
      if space c then (c =? 32) && negb after_space && tidy_from true s'
      else tidy_from false s'
  end.

Definition tidy (s : jsstring) : bool :=
  match s with
  | [] => true
  | _ :: _ => tidy_from true s
  end.

(** The characters that start markup: [<] and [&]. *)
Definition markup_free (s : jsstring) : bool :=
  forallb (fun c => negb (c =? 60) && negb (c =? 38)) s.

(** ** Example payloads of any shape and example headers *)

(** A payload outside the provider's type on which nothing throws: a
    [null] media type and body, a string among the parts, a part whose
    [data] is [false] and whose [parts] is a string. *)
Definition odd_payload : Loose :=
  PartObject PNull (BodyPrim PNull)
    (inr [NotAnObject (PStr (js "junk"));
          PartObject (PStr (js "multipart/mixed")) (BodyObject (PBool false))
            (inl (PStr (js "abc")));
          PartObject (PStr text_html) (BodyObject (PStr (js "PGI+aGk8L2I+")))
            (inl PNull)]).

(** Headers of which the second has no name. *)
Definition from_header : Provider.Header :=
  {| Provider.name := Some (js "From");
     Provider.value := Some (js "a@example.com") |}.

Definition nameless_header : Provider.Header :=
  {| Provider.name := None; Provider.value := Some (js "x") |}.

Definition subject_header : Provider.Header :=
  {| Provider.name := Some (js "Subject");
     Provider.value := Some (js "hello") |}.

Definition nameless_second : list Provider.Header :=
  [from_header; nameless_header; subject_header].

(* ================================================================= *)
(** * Part II: properties *)
(* ================================================================= *)

(** ** The model on known values *)

Example base64_hi :
  Buffer.toString_base64 (Buffer.from_utf8 (js "hi")) = js "aGk="
  /\ Buffer.toString_base64url (Buffer.from_utf8 (js "hi")) = js "aGk"
  /\ Buffer.toString_utf8 (Buffer.from_base64 (js "aGk=")) = js "hi"
  /\ Buffer.toString_utf8 (Buffer.from_base64 (js "aGk")) = js "hi".
Proof. vm_compute. repeat split. Qed.

(** U+00E9, U+20AC and U+1F600 (a surrogate pair) in UTF-8. *)
Example utf8_known_bytes :
  Buffer.from_utf8 [0xE9; 0x20AC; 0xD83D; 0xDE00]
  = [0xC3; 0xA9; 0xE2; 0x82; 0xAC; 0xF0; 0x9F; 0x98; 0x80]
  /\ Buffer.toString_utf8 [0xC3; 0xA9; 0xE2; 0x82; 0xAC; 0xF0; 0x9F; 0x98; 0x80]
     = [0xE9; 0x20AC; 0xD83D; 0xDE00].
Proof. vm_compute. split; reflexivity. Qed.

(** An overlong form, a truncated sequence and a stray continuation byte
    each decode to one U+FFFD. *)
Example utf8_ill_formed :
  Buffer.toString_utf8 [0xC0; 0xAF; 0x41; 0xE2; 0x82; 0x42; 0x80]
  = [0xFFFD; 0xFFFD; 0x41; 0xFFFD; 0x42; 0xFFFD].
Proof. vm_compute. reflexivity. Qed.

Example encodeSubject_known :
  encodeSubject (js "Hello, world") = js "Hello, world"
  /\ encodeSubject [0x43; 0x61; 0x66; 0xE9] = js "=?UTF-8?B?Q2Fmw6k=?=".
Proof. vm_compute. split; reflexivity. Qed.

Example htmlToText_known :
  htmlToText
    (js "<p>Tom &amp; Jerry</p><script type='x'>if (a > b) {}</script>"
     ++ js "<STYLE>p {}</STYLE>  <br/>&lt;done&gt;&nbsp;")
  = js "Tom & Jerry <done>".
Proof. vm_compute. reflexivity. Qed.

(** Quotes need not match, an empty value is no match, the attribute
    name is matched without regard to case. *)
Example href_matches_known :
  exec_all hrefRegex
    (js "<a HREF='https://a.example/' href='' href='b" ++ [34] ++ js ">")
  = [js "https://a.example/"; js "b"].
Proof. vm_compute. reflexivity. Qed.

Example decodeURIComponent_known :
  decodeURIComponent (js "a%20b%E2%82%AC") = Normal [0x61; 0x20; 0x62; 0x20AC]
  /\ decodeURIComponent (js "100%") = Throw URIError
  /\ decodeURIComponent (js "%C0%AF") = Throw URIError.
Proof. vm_compute. repeat split. Qed.

Example reference_parse_known :
  Reference.parse (js "https://example.com/a/b?x=1&y=a+b%21#top")
  = Normal {| hostname := js "example.com"; pathname := js "/a/b";
              searchParams := [(js "x", js "1"); (js "y", js "a b!")] |}
  /\ Reference.parse (js "https://") = Throw TypeError.
Proof. vm_compute. split; reflexivity. Qed.

(** [lia] is to reason about division and remainder by constants. *)
Ltac Zify.zify_post_hook ::= Z.to_euclidean_division_equations.

(** ** Strings and sets of strings *)

Lemma jseqb_eq (a b : jsstring) : jseqb a b = true <-> a = b.
Proof.
  revert b; induction a as [|x a IH]; intros [|y b]; simpl;
    try (split; [discriminate | discriminate]); try tauto.
  rewrite andb_true_iff, N.eqb_eq, IH.
  split; [intros [-> ->]; reflexivity | intros H; inversion H; auto].
Qed.

Lemma jseqb_refl (a : jsstring) : jseqb a a = true.
Proof. apply jseqb_eq; reflexivity. Qed.

Lemma jseqb_neq (a b : jsstring) : jseqb a b = false <-> a <> b.
Proof.
  rewrite <- jseqb_eq. destruct (jseqb a b); split; congruence.
Qed.

Lemma mem_In (x : jsstring) (l : list jsstring) :
  existsb (jseqb x) l = true <-> In x l.
Proof.
  rewrite existsb_exists. split.
  - intros (y & Hy & E). apply jseqb_eq in E. subst; assumption.
  - intros H. exists x. split; [assumption | apply jseqb_refl].
Qed.

Lemma set_add_old (l : list jsstring) (x : jsstring) :
  existsb (jseqb x) l = true -> set_add l x = l.
Proof. intros E. unfold set_add. rewrite E. reflexivity. Qed.

Lemma set_add_new (l : list jsstring) (x : jsstring) :
  existsb (jseqb x) l = false -> set_add l x = l ++ [x].
Proof. intros E. unfold set_add. rewrite E. reflexivity. Qed.

Lemma set_add_In (l : list jsstring) (x y : jsstring) :
  In y (set_add l x) <-> In y l \/ y = x.
Proof.
  unfold set_add. destruct (existsb (jseqb x) l) eqn:E.
  - apply mem_In in E. split; [auto | intros [H | ->]; assumption].
  - rewrite in_app_iff. simpl. intuition.
Qed.

Lemma set_add_NoDup (l : list jsstring) (x : jsstring) :
  NoDup l -> NoDup (set_add l x).
Proof.
  intros H. unfold set_add. destruct (existsb (jseqb x) l) eqn:E; [assumption|].
  assert (~ In x l) by (rewrite <- mem_In; congruence).
  apply NoDup_app; [assumption | repeat constructor; simpl; tauto |].
  intros a Ha [<- | []]. contradiction.
Qed.

Lemma fold_set_add_In (l acc : list jsstring) (y : jsstring) :
  In y (fold_left set_add l acc) <-> In y acc \/ In y l.
Proof.
  revert acc; induction l as [|x l IH]; intros acc; simpl; [tauto|].
  rewrite IH, set_add_In. intuition (subst; auto).
Qed.

Lemma fold_set_add_NoDup (l acc : list jsstring) :
  NoDup acc -> NoDup (fold_left set_add l acc).
Proof.
  revert acc; induction l as [|x l IH]; intros acc H; simpl; [assumption|].
  apply IH, set_add_NoDup, H.
Qed.

(** Adding the elements of a set built from [l] on top of [a] is adding
    those of [a] and then those of [l]. *)
Lemma fold_set_add_fold (l a acc : list jsstring) :
  fold_left set_add (fold_left set_add l a) acc
  = fold_left set_add l (fold_left set_add a acc).
Proof.
  revert a; induction l as [|x l IH]; intros a; simpl; [reflexivity|].
  rewrite IH. f_equal.
  destruct (existsb (jseqb x) a) eqn:E.
  - assert (H : In x (fold_left set_add a acc))
      by (apply fold_set_add_In; right; apply mem_In; assumption).
    apply mem_In in H.
    rewrite (set_add_old a x E), (set_add_old _ x H). reflexivity.
  - rewrite (set_add_new a x E), fold_left_app. reflexivity.
Qed.

Lemma fold_set_add_dedup (l acc : list jsstring) :
  fold_left set_add (fold_left set_add l []) acc = fold_left set_add l acc.
Proof. rewrite fold_set_add_fold. reflexivity. Qed.

(** ** Base64 *)

Lemma below_cases (P : N -> bool) (k : nat) :
  forallb P (map N.of_nat (seq 0 k)) = true ->
  forall n, n < N.of_nat k -> P n = true.
Proof.
  intros H n Hn. rewrite forallb_forall in H. apply H.
  apply in_map_iff. exists (N.to_nat n). split; [apply N2Nat.id|].
  apply in_seq. lia.
Qed.

Lemma b64_char_inv (url : bool) (n : N) :
  n < 64 ->
  Buffer.unbase64 (Buffer.b64_char url n) = Some n
  /\ (Buffer.b64_char url n =? Buffer.pad_char) = false.
Proof.
  intros H.
  pose (P := fun n =>
    match Buffer.unbase64 (Buffer.b64_char url n) with
    | Some m => m =? n
    | None => false
    end && negb (Buffer.b64_char url n =? Buffer.pad_char)).
  assert (E : P n = true).
  { apply (below_cases P 64); [|exact H]. destruct url; vm_compute; reflexivity. }
  unfold P in E. apply andb_true_iff in E. destruct E as [E1 E2].
  destruct (Buffer.unbase64 _) as [m|]; [|discriminate].
  apply N.eqb_eq in E1. apply negb_true_iff in E2. subst. auto.
Qed.

Lemma sextets_char (url : bool) (n : N) (s : jsstring) :
  n < 64 -> Buffer.sextets (Buffer.b64_char url n :: s) = n :: Buffer.sextets s.
Proof.
  intros H. destruct (b64_char_inv url n H) as [E1 E2].
  cbn [Buffer.sextets]. rewrite E2, E1. reflexivity.
Qed.

Lemma list_ind3 {A : Type} (P : list A -> Prop) :
  P [] -> (forall a, P [a]) -> (forall a b, P [a; b]) ->
  (forall a b c l, P l -> P (a :: b :: c :: l)) ->
  forall l, P l.
Proof.
  intros H0 H1 H2 H3.
  fix IH 1. intros [|a [|b [|c l]]].
  - exact H0.
  - apply H1.
  - apply H2.
  - apply H3, IH.
Qed.

Lemma sextet1 a : a < 256 -> a / 4 < 64.
Proof. lia. Qed.
Lemma sextet2 a b : b < 256 -> (a mod 4) * 16 + b / 16 < 64.
Proof. lia. Qed.
Lemma sextet3 b c : c < 256 -> (b mod 16) * 4 + c / 64 < 64.
Proof. lia. Qed.
Lemma sextet4 c : c mod 64 < 64.
Proof. lia. Qed.
Lemma sextet2_last a : (a mod 4) * 16 < 64.
Proof. lia. Qed.
Lemma sextet3_last b : (b mod 16) * 4 < 64.
Proof. lia. Qed.

Lemma byte1 a b :
  a < 256 -> b < 256 -> a / 4 * 4 + ((a mod 4) * 16 + b / 16) / 16 = a.
Proof. lia. Qed.
Lemma byte2 a b c :
  b < 256 -> c < 256 ->
  (((a mod 4) * 16 + b / 16) mod 16) * 16 + ((b mod 16) * 4 + c / 64) / 4 = b.
Proof. lia. Qed.
Lemma byte3 b c :
  c < 256 -> (((b mod 16) * 4 + c / 64) mod 4) * 64 + c mod 64 = c.
Proof. lia. Qed.
Lemma byte1_last a : a < 256 -> a / 4 * 4 + ((a mod 4) * 16) / 16 = a.
Proof. lia. Qed.
Lemma byte2_last a b :
  b < 256 ->
  (((a mod 4) * 16 + b / 16) mod 16) * 16 + ((b mod 16) * 4) / 4 = b.
Proof. lia. Qed.

Lemma sextets_pad (pad : bool) (l : jsstring) :
  Buffer.sextets (if pad then Buffer.pad_char :: l else []) = [].
Proof. destruct pad; reflexivity. Qed.

Lemma from_base64_encode64 (url pad : bool) (bs : list N) :
  forallb is_byte bs = true ->
  Buffer.from_base64 (Buffer.encode64 url pad bs) = bs.
Proof.
  unfold Buffer.from_base64, is_byte.
  induction bs as [|a|a b|a b c l IH] using list_ind3; intros H.
  - reflexivity.
  - cbn [forallb] in H. rewrite !andb_true_iff, !N.ltb_lt in H.
    destruct H as (Ha & _).
    cbn [Buffer.encode64 app].
    rewrite (sextets_char _ _ _ (sextet1 a Ha)),
            (sextets_char _ _ _ (sextet2_last a)).
    replace (if pad then _ else _)
      with (if pad then Buffer.pad_char :: [Buffer.pad_char] else [])
      by (destruct pad; reflexivity).
    rewrite sextets_pad. cbn [Buffer.bytes_of_sextets].
    rewrite (byte1_last a Ha). reflexivity.
  - cbn [forallb] in H. rewrite !andb_true_iff, !N.ltb_lt in H.
    destruct H as (Ha & Hb & _).
    cbn [Buffer.encode64 app].
    rewrite (sextets_char _ _ _ (sextet1 a Ha)),
            (sextets_char _ _ _ (sextet2 a b Hb)),
            (sextets_char _ _ _ (sextet3_last b)).
    replace (if pad then _ else _)
      with (if pad then Buffer.pad_char :: [] else [])
      by (destruct pad; reflexivity).
    rewrite sextets_pad. cbn [Buffer.bytes_of_sextets].
    rewrite (byte1 a b Ha Hb), (byte2_last a b Hb). reflexivity.
  - cbn [forallb] in H. rewrite !andb_true_iff, !N.ltb_lt in H.
    destruct H as (Ha & Hb & Hc & Hl).
    cbn [Buffer.encode64].
    rewrite (sextets_char _ _ _ (sextet1 a Ha)),
            (sextets_char _ _ _ (sextet2 a b Hb)),
            (sextets_char _ _ _ (sextet3 b c Hc)),
            (sextets_char _ _ _ (sextet4 c)).
    cbn [Buffer.bytes_of_sextets].
    rewrite IH by (rewrite <- Hl; reflexivity).
    rewrite (byte1 a b Ha Hb), (byte2 a b c Hb Hc), (byte3 b c Hc).
    reflexivity.
Qed.

Lemma b64_char_alphabet (url : bool) (n : N) :
  (if url then url_safe_char else standard_char) (Buffer.b64_char url n) = true.
Proof.
  destruct (N.ltb_spec n 64) as [H|H].
  - apply (below_cases
             (fun n => (if url then url_safe_char else standard_char)
                         (Buffer.b64_char url n)) 64); [|exact H].
    destruct url; vm_compute; reflexivity.
  - unfold Buffer.b64_char.
    destruct (N.ltb_spec n 26); [lia|].
    destruct (N.ltb_spec n 52); [lia|].
    destruct (N.ltb_spec n 62); [lia|].
    destruct (N.eqb_spec n 62); [lia|].
    destruct url; reflexivity.
Qed.

Lemma base64url_alphabet (bs : list N) :
  forallb url_safe_char (Buffer.toString_base64url bs) = true.
Proof.
  unfold Buffer.toString_base64url.
  induction bs as [|a|a b|a b c l IH] using list_ind3;
    cbn [Buffer.encode64 app forallb];
    rewrite ?(b64_char_alphabet true), ?IH; reflexivity.
Qed.

Lemma standard_base64_group (a b c d : N) (rest : jsstring) :
  standard_char a = true -> standard_char b = true ->
  standard_char c = true -> standard_char d = true ->
  standard_base64 rest = true ->
  standard_base64 (a :: b :: c :: d :: rest) = true.
Proof.
  intros Ha Hb Hc Hd Hr. destruct rest; cbn [standard_base64];
    rewrite Ha, Hb, Hc, Hd; [reflexivity | exact Hr].
Qed.

Lemma base64_standard (bs : list N) :
  standard_base64 (Buffer.toString_base64 bs) = true.
Proof.
  unfold Buffer.toString_base64.
  induction bs as [|a|a b|a b c l IH] using list_ind3.
  - reflexivity.
  - cbn [Buffer.encode64 app standard_base64].
    rewrite !(b64_char_alphabet false). reflexivity.
  - cbn [Buffer.encode64 app standard_base64].
    rewrite !(b64_char_alphabet false). reflexivity.
  - cbn [Buffer.encode64].
    apply standard_base64_group; try apply (b64_char_alphabet false). exact IH.
Qed.

(** ** UTF-8 *)

Import Buffer.

Lemma in_range_true lo hi b : lo <= b -> b <= hi -> in_range lo hi b = true.
Proof.
  intros. unfold in_range. apply andb_true_iff. split; apply N.leb_le; assumption.
Qed.

Lemma in_range_false lo hi b : b < lo \/ hi < b -> in_range lo hi b = false.
Proof.
  intros H. unfold in_range. apply andb_false_iff.
  destruct H; [left | right]; apply N.leb_gt; assumption.
Qed.

Lemma ltb_true a b : a < b -> (a <? b) = true.
Proof. apply N.ltb_lt. Qed.

Lemma ltb_false a b : b <= a -> (a <? b) = false.
Proof. apply N.ltb_ge. Qed.

Lemma decode1 (b1 : N) (r : list N) :
  b1 < 0x80 -> toString_utf8 (b1 :: r) = b1 :: toString_utf8 r.
Proof. intros H. cbn [toString_utf8]. rewrite (ltb_true _ _ H). reflexivity. Qed.

Lemma decode2 (b1 b2 : N) (r : list N) :
  0xC2 <= b1 -> b1 <= 0xDF -> 0x80 <= b2 -> b2 <= 0xBF ->
  toString_utf8 (b1 :: b2 :: r)
  = ((b1 - 0xC0) * 64 + (b2 - 0x80)) :: toString_utf8 r.
Proof.
  intros. cbn [toString_utf8]. unfold is_cont.
  rewrite ltb_false, !in_range_true by lia. reflexivity.
Qed.

Lemma decode3 (b1 b2 b3 : N) (r : list N) :
  0xE0 <= b1 -> b1 <= 0xEF ->
  second_lo b1 <= b2 -> b2 <= second_hi b1 ->
  0x80 <= b3 -> b3 <= 0xBF ->
  toString_utf8 (b1 :: b2 :: b3 :: r)
  = ((b1 - 0xE0) * 4096 + (b2 - 0x80) * 64 + (b3 - 0x80)) :: toString_utf8 r.
Proof.
  intros. cbn [toString_utf8]. unfold is_cont.
  rewrite ltb_false by lia.
  rewrite (in_range_false 0xC2 0xDF) by lia.
  rewrite !in_range_true by lia. reflexivity.
Qed.

Lemma decode4 (b1 b2 b3 b4 : N) (r : list N) :
  0xF0 <= b1 -> b1 <= 0xF4 ->
  second_lo b1 <= b2 -> b2 <= second_hi b1 ->
  0x80 <= b3 -> b3 <= 0xBF -> 0x80 <= b4 -> b4 <= 0xBF ->
  toString_utf8 (b1 :: b2 :: b3 :: b4 :: r)
  = utf16_of_code_point
      ((b1 - 0xF0) * 262144 + (b2 - 0x80) * 4096 + (b3 - 0x80) * 64
       + (b4 - 0x80))
    ++ toString_utf8 r.
Proof.
  intros. cbn [toString_utf8]. unfold is_cont.
  rewrite ltb_false by lia.
  rewrite (in_range_false 0xC2 0xDF) by lia.
  rewrite (in_range_false 0xE0 0xEF) by lia.
  rewrite !in_range_true by lia. reflexivity.
Qed.

Lemma second_lo_cases (b1 : N) :
  (b1 = 0xE0 /\ second_lo b1 = 0xA0) \/ (b1 = 0xF0 /\ second_lo b1 = 0x90)
  \/ (b1 <> 0xE0 /\ b1 <> 0xF0 /\ second_lo b1 = 0x80).
Proof.
  unfold second_lo.
  destruct (N.eqb_spec b1 0xE0); [left; auto|].
  destruct (N.eqb_spec b1 0xF0); [right; left; auto|].
  right; right; auto.
Qed.

Lemma second_hi_cases (b1 : N) :
  (b1 = 0xED /\ second_hi b1 = 0x9F) \/ (b1 = 0xF4 /\ second_hi b1 = 0x8F)
  \/ (b1 <> 0xED /\ b1 <> 0xF4 /\ second_hi b1 = 0xBF).
Proof.
  unfold second_hi.
  destruct (N.eqb_spec b1 0xED); [left; auto|].
  destruct (N.eqb_spec b1 0xF4); [right; left; auto|].
  right; right; auto.
Qed.

Lemma roundtrip_scalar (c : N) (r : list N) :
  c < 0x10000 -> is_high_surrogate c = false -> is_low_surrogate c = false ->
  toString_utf8 (utf8_of_code_point c ++ r) = c :: toString_utf8 r.
Proof.
  intros Hc Hh Hl.
  assert (Hs : c < 0xD800 \/ 0xDFFF < c).
  { unfold is_high_surrogate, is_low_surrogate in *.
    apply andb_false_iff in Hh, Hl.
    rewrite !N.leb_gt in Hh, Hl. lia. }
  clear Hh Hl.
  unfold utf8_of_code_point.
  destruct (N.ltb_spec c 0x80) as [H1|H1].
  - apply decode1. exact H1.
  - destruct (N.ltb_spec c 0x800) as [H2|H2].
    + cbn [app]. rewrite decode2 by lia. f_equal. lia.
    + rewrite (ltb_true _ _ Hc). cbn [app].
      rewrite decode3.
      * f_equal. lia.
      * lia.
      * lia.
      * destruct (second_lo_cases (0xE0 + c / 4096)) as [[E ->]|[[E ->]|(_ & _ & ->)]]; lia.
      * destruct (second_hi_cases (0xE0 + c / 4096)) as [[E ->]|[[E ->]|(_ & _ & ->)]]; lia.
      * lia.
      * lia.
Qed.

Lemma roundtrip_pair (c d : N) (r : list N) :
  is_high_surrogate c = true -> is_low_surrogate d = true ->
  toString_utf8
    (utf8_of_code_point (0x10000 + (c - 0xD800) * 0x400 + (d - 0xDC00)) ++ r)
  = c :: d :: toString_utf8 r.
Proof.
  intros Hh Hl.
  unfold is_high_surrogate, is_low_surrogate in *.
  apply andb_true_iff in Hh, Hl. rewrite !N.leb_le in Hh, Hl.
  remember (0x10000 + (c - 0xD800) * 0x400 + (d - 0xDC00)) as cp eqn:Ecp.
  assert (Hlo : 0x10000 <= cp) by lia.
  assert (Hhi : cp <= 0x10FFFF) by lia.
  unfold utf8_of_code_point.
  rewrite !ltb_false by lia. cbn [app].
  rewrite decode4.
  - replace ((0xF0 + cp / 262144 - 0xF0) * 262144
             + (0x80 + (cp / 4096) mod 64 - 0x80) * 4096
             + (0x80 + (cp / 64) mod 64 - 0x80) * 64
             + (0x80 + cp mod 64 - 0x80)) with cp by lia.
    unfold utf16_of_code_point. rewrite ltb_false by lia. cbn [app].
    f_equal; [lia|]. f_equal. lia.
  - lia.
  - lia.
  - destruct (second_lo_cases (0xF0 + cp / 262144)) as [[E ->]|[[E ->]|(_ & _ & ->)]]; lia.
  - destruct (second_hi_cases (0xF0 + cp / 262144)) as [[E ->]|[[E ->]|(_ & _ & ->)]]; lia.
  - lia.
  - lia.
  - lia.
  - lia.
Qed.

Lemma list_ind2 {A : Type} (P : list A -> Prop) :
  P [] -> (forall a, P [a]) ->
  (forall a b l, P l -> P (b :: l) -> P (a :: b :: l)) ->
  forall l, P l.
Proof.
  intros H0 H1 H2.
  assert (H : forall l, P l /\ forall a, P (a :: l)).
  { induction l as [|b l [IH1 IH2]].
    - split; [exact H0 | exact H1].
    - split; [apply IH2 | intros a; apply H2; [exact IH1 | apply IH2]]. }
  intros l. apply H.
Qed.

(** Decoding the UTF-8 of a well-formed string gives the string back. *)
Lemma toString_from_utf8 (s : jsstring) :
  well_formed_utf16 s = true -> toString_utf8 (from_utf8 s) = s.
Proof.
  induction s as [|c|c d s IH1 IH2] using list_ind2; intros H.
  - reflexivity.
  - cbn [well_formed_utf16] in H. cbn [from_utf8].
    destruct (is_high_surrogate c) eqn:Hh; [discriminate|].
    rewrite !andb_true_iff in H. destruct H as [[Hl Hc] _].
    apply negb_true_iff in Hl. apply N.ltb_lt in Hc. rewrite Hl.
    rewrite roundtrip_scalar by assumption. reflexivity.
  - cbn [well_formed_utf16] in H. cbn [from_utf8].
    destruct (is_high_surrogate c) eqn:Hh.
    + apply andb_true_iff in H. destruct H as [Hl Hs]. rewrite Hl.
      rewrite roundtrip_pair by assumption. rewrite IH1 by exact Hs.
      reflexivity.
    + rewrite !andb_true_iff in H. destruct H as [[Hl Hc] Hs].
      apply negb_true_iff in Hl. apply N.ltb_lt in Hc. rewrite Hl.
      rewrite roundtrip_scalar by assumption.
      f_equal. apply IH2. exact Hs.
Qed.

Lemma utf8_of_code_point_bytes (cp : N) :
  cp < 0x110000 -> forallb is_byte (utf8_of_code_point cp) = true.
Proof.
  intros H. unfold utf8_of_code_point, is_byte.
  destruct (N.ltb_spec cp 0x80); [|destruct (N.ltb_spec cp 0x800);
    [|destruct (N.ltb_spec cp 0x10000)]];
    cbn [forallb]; rewrite ?andb_true_iff, ?N.ltb_lt; repeat split; lia.
Qed.

Lemma from_utf8_cons (c : N) (s : jsstring) :
  from_utf8 (c :: s)
  = if is_high_surrogate c then
      match s with
      | d :: s'' =>
          if is_low_surrogate d then
            utf8_of_code_point (0x10000 + (c - 0xD800) * 0x400 + (d - 0xDC00))
            ++ from_utf8 s''
          else utf8_of_code_point replacement ++ from_utf8 s
      | [] => utf8_of_code_point replacement
      end
    else if is_low_surrogate c then utf8_of_code_point replacement ++ from_utf8 s
    else utf8_of_code_point c ++ from_utf8 s.
Proof. reflexivity. Qed.

Lemma from_utf8_bytes (s : jsstring) :
  code_units s = true -> forallb is_byte (from_utf8 s) = true.
Proof.
  unfold code_units.
  induction s as [|c|c d s IH1 IH2] using list_ind2; intros H.
  - reflexivity.
  - cbn [forallb] in H. rewrite !andb_true_iff, !N.ltb_lt in H.
    cbn [from_utf8].
    destruct (is_high_surrogate c); [|destruct (is_low_surrogate c)];
      rewrite ?app_nil_r; apply utf8_of_code_point_bytes;
      unfold replacement; lia.
  - cbn [forallb] in H. rewrite !andb_true_iff, !N.ltb_lt in H.
    destruct H as (Hc & Hd & Hs).
    assert (Hds : forallb (fun c => c <? 0x10000) (d :: s) = true).
    { cbn [forallb]. rewrite Hs, andb_true_r. apply N.ltb_lt. exact Hd. }
    rewrite from_utf8_cons.
    destruct (is_high_surrogate c) eqn:Hh.
    + destruct (is_low_surrogate d) eqn:Hl; rewrite forallb_app.
      * rewrite (IH1 Hs), andb_true_r. apply utf8_of_code_point_bytes.
        unfold is_high_surrogate, is_low_surrogate in *.
        apply andb_true_iff in Hh, Hl. rewrite !N.leb_le in Hh, Hl. lia.
      * rewrite (IH2 Hds), andb_true_r. apply utf8_of_code_point_bytes.
        unfold replacement; lia.
    + destruct (is_low_surrogate c); rewrite forallb_app, (IH2 Hds), andb_true_r;
        apply utf8_of_code_point_bytes; unfold replacement; lia.
Qed.

Lemma well_formed_code_units (s : jsstring) :
  well_formed_utf16 s = true -> code_units s = true.
Proof.
  unfold code_units.
  induction s as [|c|c d s IH1 IH2] using list_ind2; intros H.
  - reflexivity.
  - cbn [well_formed_utf16] in H. cbn [forallb].
    destruct (is_high_surrogate c); [discriminate|].
    rewrite !andb_true_iff in H. destruct H as [[_ Hc] _]. rewrite Hc. reflexivity.
  - cbn [well_formed_utf16] in H.
    destruct (is_high_surrogate c) eqn:Hh.
    + apply andb_true_iff in H. destruct H as [Hl Hs].
      cbn [forallb]. rewrite (IH1 Hs), andb_true_r.
      unfold is_high_surrogate, is_low_surrogate in *.
      apply andb_true_iff in Hh, Hl. rewrite !N.leb_le in Hh, Hl.
      apply andb_true_iff. split; apply N.ltb_lt; lia.
    + rewrite !andb_true_iff in H. destruct H as [[_ Hc] Hs].
      change (forallb (fun c => c <? 0x10000) (c :: d :: s))
        with ((c <? 0x10000) && forallb (fun c => c <? 0x10000) (d :: s)).
      rewrite Hc, (IH2 Hs). reflexivity.
Qed.

Lemma startsWith_app (p r : jsstring) : startsWith (p ++ r) p = true.
Proof.
  induction p as [|c p IH]; [destruct r; reflexivity|].
  cbn [app startsWith]. rewrite N.eqb_refl, IH. reflexivity.
Qed.

Lemma strip_prefix_app (p r : jsstring) : strip_prefix p (p ++ r) = Some r.
Proof.
  unfold strip_prefix. rewrite startsWith_app. f_equal.
  induction p as [|c p IH]; [reflexivity | exact IH].
Qed.

Lemma strip_suffix_app (p r : jsstring) : strip_suffix p (r ++ p) = Some r.
Proof.
  unfold strip_suffix. rewrite rev_app_distr, strip_prefix_app.
  cbn [option_map]. rewrite rev_involutive. reflexivity.
Qed.

Lemma rfc2047_decode_encoded (s : jsstring) :
  well_formed_utf16 s = true ->
  rfc2047_decode (js "=?UTF-8?B?" ++ toString_base64 (from_utf8 s) ++ js "?=")
  = Some s.
Proof.
  intros H. unfold rfc2047_decode.
  rewrite strip_prefix_app, strip_suffix_app, base64_standard.
  unfold toString_base64.
  rewrite from_base64_encode64
    by (apply from_utf8_bytes, well_formed_code_units, H).
  rewrite toString_from_utf8 by exact H. reflexivity.
Qed.

(** ** The composer *)

(** C3 (amended).  The second header line is [Subject: ] followed by the
    encoded subject.  A subject made of printable ASCII (0x20 to 0x7E) is
    left as it is.  Any other subject becomes the single encoded word
    [=?UTF-8?B?] base64 of its UTF-8 bytes [?=], and decoding that word by
    the rule of RFC 2047 gives the subject back when the subject is
    well-formed UTF-16, that is when it has no unpaired surrogate. *)
Theorem encodeSubject_header (p : SendParams.t) :
  let subject := SendParams.subject p in
  nth_error (messageParts p) 1 = Some (js "Subject: " ++ encodeSubject subject)
  /\ (test_printable subject = true -> encodeSubject subject = subject)
  /\ (test_printable subject = false ->
      encodeSubject subject
      = js "=?UTF-8?B?" ++ toString_base64 (from_utf8 subject) ++ js "?="
      /\ (well_formed_utf16 subject = true ->
          rfc2047_decode (encodeSubject subject) = Some subject)).
Proof.
  intros subject. split; [|split].
  - unfold messageParts.
    destruct (has_length (SendParams.cc p)), (has_length (SendParams.bcc p));
      reflexivity.
  - intros H. unfold encodeSubject. rewrite H. reflexivity.
  - intros H. unfold encodeSubject. rewrite H. split; [reflexivity|].
    apply rfc2047_decode_encoded.
Qed.

(** C3, as stated, fails on a subject with an unpaired surrogate: its
    UTF-8 bytes are those of U+FFFD, which is what decoding returns. *)
Lemma lone_surrogate_subject :
  test_printable [0xD800] = false
  /\ rfc2047_decode (encodeSubject [0xD800]) = Some [0xFFFD]
  /\ rfc2047_decode (encodeSubject [0xD800]) <> Some [0xD800].
Proof.
  split; [reflexivity|]. split; [vm_compute; reflexivity|].
  vm_compute. discriminate.
Qed.

Lemma join_cons (sep x y : jsstring) (l : list jsstring) :
  join sep (x :: y :: l) = x ++ sep ++ join sep (y :: l).
Proof. reflexivity. Qed.

(** What the transport receives decodes to the UTF-8 bytes of the text. *)
Lemma raw_decodes_to_utf8 (text : jsstring) :
  code_units text = true ->
  from_base64 (toString_base64url (from_utf8 text)) = from_utf8 text.
Proof.
  intros H. apply from_base64_encode64, from_utf8_bytes, H.
Qed.

Lemma join_comma_separated (l : list jsstring) :
  join (js ", ") l = comma_separated l.
Proof.
  destruct l as [|x l]; [reflexivity|]. cbn [comma_separated].
  revert x. induction l as [|y l IH]; intros x.
  - cbn [join flat_map]. rewrite app_nil_r. reflexivity.
  - rewrite join_cons, IH. cbn [flat_map].
    rewrite <- !app_assoc. reflexivity.
Qed.

Lemma join_messageParts (p : SendParams.t) :
  join CRLF (messageParts p) = composed_text p.
Proof.
  unfold messageParts, composed_text, optional_line.
  rewrite <- !join_comma_separated.
  destruct (SendParams.cc p) as [[|a l]|], (SendParams.bcc p) as [[|b m]|];
    cbn [has_length join_opt app]; rewrite !join_cons; cbn [join];
    rewrite <- ?join_comma_separated, <- ?app_assoc; reflexivity.
Qed.

(** *** The encoder of [Buffer] against the wording of RFC 4648 *)

Lemma alphabet_char (v : N) :
  v < 64 -> nth (N.to_nat v) url_safe_alphabet 0 = b64_char true v.
Proof.
  intros H.
  apply N.eqb_eq.
  apply (below_cases
           (fun v => nth (N.to_nat v) url_safe_alphabet 0 =? b64_char true v)
           64); [vm_compute; reflexivity | exact H].
Qed.

(** The six ways in which the encoder cuts a byte. *)
Lemma byte_bits (a : N) :
  a < 256 ->
  value_of_bits (map (N.testbit a) [7; 6; 5; 4; 3; 2]) = a / 4
  /\ value_of_bits (map (N.testbit a) [1; 0]) = a mod 4
  /\ value_of_bits (map (N.testbit a) [7; 6; 5; 4]) = a / 16
  /\ value_of_bits (map (N.testbit a) [3; 2; 1; 0]) = a mod 16
  /\ value_of_bits (map (N.testbit a) [7; 6]) = a / 64
  /\ value_of_bits (map (N.testbit a) [5; 4; 3; 2; 1; 0]) = a mod 64.
Proof.
  intros H.
  pose (P := fun a =>
    (value_of_bits (map (N.testbit a) [7; 6; 5; 4; 3; 2]) =? a / 4)
    && (value_of_bits (map (N.testbit a) [1; 0]) =? a mod 4)
    && (value_of_bits (map (N.testbit a) [7; 6; 5; 4]) =? a / 16)
    && (value_of_bits (map (N.testbit a) [3; 2; 1; 0]) =? a mod 16)
    && (value_of_bits (map (N.testbit a) [7; 6]) =? a / 64)
    && (value_of_bits (map (N.testbit a) [5; 4; 3; 2; 1; 0]) =? a mod 64)).
  assert (E : P a = true)
    by (apply (below_cases P 256); [vm_compute; reflexivity | exact H]).
  unfold P in E. rewrite !andb_true_iff, !N.eqb_eq in E. tauto.
Qed.

Lemma value_of_bits_app (l1 l2 : list bool) :
  value_of_bits (l1 ++ l2)
  = value_of_bits l1 * 2 ^ N.of_nat (List.length l2) + value_of_bits l2.
Proof.
  unfold value_of_bits. rewrite fold_left_app.
  generalize (fold_left (fun v (b : bool) => 2 * v + N.b2n b) l1 0).
  induction l2 as [|b l2 IH]; intros v.
  - cbn [fold_left List.length N.of_nat]. rewrite N.pow_0_r. lia.
  - cbn [fold_left List.length]. rewrite Nat2N.inj_succ, N.pow_succ_r'.
    rewrite (IH (2 * v + N.b2n b)), (IH (2 * 0 + N.b2n b)). lia.
Qed.

Lemma base64url_spec_encode64 (bs : list N) :
  forallb is_byte bs = true -> toString_base64url bs = base64url_spec bs.
Proof.
  unfold toString_base64url, base64url_spec, is_byte.
  induction bs as [|a|a b|a b c l IH] using list_ind3; intros H.
  - reflexivity.
  - cbn [forallb] in H. rewrite !andb_true_iff, !N.ltb_lt in H.
    destruct H as [Ha _].
    destruct (byte_bits a Ha) as (A1 & A2 & _).
    cbn [encode64 app flat_map bits_of_byte map six_bit_groups firstn repeat].
    change [N.testbit a 1; N.testbit a 0; false; false; false; false]
      with (map (N.testbit a) [1; 0] ++ [false; false; false; false]).
    cbn [map] in A1. rewrite A1, value_of_bits_app, A2.
    change (value_of_bits [false; false; false; false]) with 0.
    change (2 ^ N.of_nat (List.length [false; false; false; false])) with 16.
    rewrite N.add_0_r, !alphabet_char by lia. reflexivity.
  - cbn [forallb] in H. rewrite !andb_true_iff, !N.ltb_lt in H.
    destruct H as (Ha & Hb & _).
    destruct (byte_bits a Ha) as (A1 & A2 & _).
    destruct (byte_bits b Hb) as (_ & _ & B3 & B4 & _).
    cbn [encode64 app flat_map bits_of_byte map six_bit_groups firstn repeat].
    change [N.testbit a 1; N.testbit a 0; N.testbit b 7; N.testbit b 6;
            N.testbit b 5; N.testbit b 4]
      with (map (N.testbit a) [1; 0] ++ map (N.testbit b) [7; 6; 5; 4]).
    change [N.testbit b 3; N.testbit b 2; N.testbit b 1; N.testbit b 0;
            false; false]
      with (map (N.testbit b) [3; 2; 1; 0] ++ [false; false]).
    cbn [map] in A1. rewrite A1, !value_of_bits_app, A2, B3, B4.
    change (value_of_bits [false; false]) with 0.
    change (2 ^ N.of_nat (List.length [false; false])) with 4.
    change (2 ^ N.of_nat (List.length (map (N.testbit b) [7; 6; 5; 4]))) with 16.
    rewrite N.add_0_r, !alphabet_char by lia. reflexivity.
  - cbn [forallb] in H. rewrite !andb_true_iff, !N.ltb_lt in H.
    destruct H as (Ha & Hb & Hc & Hl).
    destruct (byte_bits a Ha) as (A1 & A2 & _).
    destruct (byte_bits b Hb) as (_ & _ & B3 & B4 & _).
    destruct (byte_bits c Hc) as (_ & _ & _ & _ & C5 & C6).
    cbn [encode64 app flat_map bits_of_byte map six_bit_groups].
    change [N.testbit a 1; N.testbit a 0; N.testbit b 7; N.testbit b 6;
            N.testbit b 5; N.testbit b 4]
      with (map (N.testbit a) [1; 0] ++ map (N.testbit b) [7; 6; 5; 4]).
    change [N.testbit b 3; N.testbit b 2; N.testbit b 1; N.testbit b 0;
            N.testbit c 7; N.testbit c 6]
      with (map (N.testbit b) [3; 2; 1; 0] ++ map (N.testbit c) [7; 6]).
    cbn [map] in A1, C6. rewrite A1, C6, !value_of_bits_app, A2, B3, B4, C5.
    change (2 ^ N.of_nat (List.length (map (N.testbit b) [7; 6; 5; 4]))) with 16.
    change (2 ^ N.of_nat (List.length (map (N.testbit c) [7; 6]))) with 4.
    rewrite !alphabet_char by lia.
    rewrite IH by (rewrite forallb_forall in Hl |- *; exact Hl).
    reflexivity.
Qed.

Lemma code_units_app (a b : jsstring) :
  code_units (a ++ b) = code_units a && code_units b.
Proof. apply forallb_app. Qed.

Lemma comma_separated_code_units (l : list jsstring) :
  forallb code_units l = true -> code_units (comma_separated l) = true.
Proof.
  destruct l as [|x l]; [reflexivity|]. cbn [forallb comma_separated].
  intros H. apply andb_true_iff in H. destruct H as [Hx Hl].
  rewrite code_units_app, Hx. cbn [andb].
  induction l as [|y l IH]; [reflexivity|].
  cbn [forallb] in Hl. apply andb_true_iff in Hl. destruct Hl as [Hy Hl].
  cbn [flat_map]. rewrite !code_units_app, Hy, (IH Hl). reflexivity.
Qed.

Lemma b64_char_code_unit (url : bool) (n : N) :
  (b64_char url n <? 0x10000) = true.
Proof.
  apply N.ltb_lt. unfold b64_char.
  destruct (n <? 26) eqn:E1; [apply N.ltb_lt in E1; lia|].
  destruct (n <? 52) eqn:E2; [apply N.ltb_lt in E2; lia|].
  destruct (n <? 62) eqn:E3; [apply N.ltb_lt in E3; lia|].
  destruct (n =? 62), url; lia.
Qed.

Lemma encode64_code_units (url pad : bool) (bs : list N) :
  code_units (encode64 url pad bs) = true.
Proof.
  unfold code_units.
  induction bs as [|a|a b|a b c l IH] using list_ind3;
    cbn [encode64 app forallb]; rewrite ?b64_char_code_unit, ?IH;
    try reflexivity; destruct pad; reflexivity.
Qed.

Lemma encodeSubject_code_units (subject : jsstring) :
  code_units subject = true -> code_units (encodeSubject subject) = true.
Proof.
  intros H. unfold encodeSubject.
  destruct (test_printable subject); [exact H|].
  unfold toString_base64.
  rewrite !code_units_app, encode64_code_units. reflexivity.
Qed.

Lemma composed_text_code_units (p : SendParams.t) :
  forallb code_units (request_strings p) = true ->
  code_units (composed_text p) = true.
Proof.
  unfold request_strings. cbn [forallb].
  rewrite !forallb_app, !andb_true_iff.
  intros (Hs & Hb & Hto & Hcc & Hbcc).
  assert (Hopt : forall label l,
            code_units label = true -> forallb code_units (or_nil l) = true ->
            code_units (optional_line label l) = true).
  { intros label [[|a l]|] Hlabel Hl; try reflexivity.
    unfold optional_line. cbn [or_nil] in Hl.
    rewrite !code_units_app, Hlabel, (comma_separated_code_units _ Hl).
    reflexivity. }
  unfold composed_text.
  rewrite !code_units_app, (comma_separated_code_units _ Hto),
    (encodeSubject_code_units _ Hs), (Hopt (js "Cc: ") _ eq_refl Hcc),
    (Hopt (js "Bcc: ") _ eq_refl Hbcc), Hb.
  reflexivity.
Qed.

(** C4.  For a request whose strings are sequences of 16-bit code units,
    the lines joined by CRLF are the layout of the spec: the line [To],
    the line [Subject], the line [Cc] when [cc] is given and not empty,
    the line [Bcc] when [bcc] is given and not empty, the line
    [Content-Type: text/plain; charset=utf-8], an empty line and the
    body as given.  The blob handed to the transport is the URL-safe
    base64 of RFC 4648, without padding, of the bytes of that text: it
    is made of letters, digits, [-] and [_] only and decodes to those
    bytes.  The bytes are UTF-8: a text without unpaired surrogate is
    recovered from them. *)
Theorem sendEmail_composition {R : Type} (messages_send : jsstring -> R)
    (p : SendParams.t) :
  forallb code_units (request_strings p) = true ->
  join CRLF (messageParts p) = composed_text p
  /\ sendEmail messages_send p
     = messages_send (base64url_spec (from_utf8 (composed_text p)))
  /\ forallb url_safe_char (base64url_spec (from_utf8 (composed_text p)))
     = true
  /\ from_base64 (base64url_spec (from_utf8 (composed_text p)))
     = from_utf8 (composed_text p)
  /\ (well_formed_utf16 (composed_text p) = true ->
      toString_utf8 (from_utf8 (composed_text p)) = composed_text p).
Proof.
  intros H.
  pose proof (composed_text_code_units p H) as Hu.
  pose proof (base64url_spec_encode64 _ (from_utf8_bytes _ Hu)) as E.
  split; [apply join_messageParts|]. split; [|split; [|split]].
  - unfold sendEmail. rewrite join_messageParts, E. reflexivity.
  - rewrite <- E. apply base64url_alphabet.
  - rewrite <- E. apply raw_decodes_to_utf8, Hu.
  - apply toString_from_utf8.
Qed.

Lemma sendEmail_composition_witness :
  sendEmail (fun raw => raw) full_request
  = js "VG86IGFAZXhhbXBsZS5jb20sIGJAZXhhbXBsZS5jb20NClN1YmplY3Q6ID0_"
     ++ js "VVRGLTg_Qj9TTU9wPz0NCkNjOiBjQGV4YW1wbGUuY29tDQpCY2M6IGRAZXhh"
     ++ js "bXBsZS5jb20sIGVAZXhhbXBsZS5jb20NCkNvbnRlbnQtVHlwZTogdGV4dC9w"
     ++ js "bGFpbjsgY2hhcnNldD11dGYtOA0KDQpPSyDimLo"
  /\ toString_utf8 (from_utf8 (composed_text full_request))
     = composed_text full_request.
Proof.
  destruct (sendEmail_composition (fun raw => raw) full_request eq_refl)
    as (_ & E & _ & _ & U).
  split.
  - rewrite E. vm_compute. reflexivity.
  - apply U. vm_compute. reflexivity.
Defined.

(** ** Trees *)

Lemma MimeNode_ind (P : MimeNode -> Prop) :
  (forall mt hs b, P (mkMimeNode mt hs b None)) ->
  (forall mt hs b ps, Forall P ps -> P (mkMimeNode mt hs b (Some ps))) ->
  forall x, P x.
Proof.
  intros Hleaf Hnode. fix IH 1. intros [mt hs b [ps|]]; [|apply Hleaf].
  apply Hnode.
  exact ((fix all (l : list MimeNode) : Forall P l :=
            match l with
            | [] => Forall_nil P
            | x :: l' => Forall_cons x (IH x) (all l')
            end) ps).
Qed.

Lemma extractPlainTextBody_node_eq (x : MimeNode) :
  extractPlainTextBody_node x
  = if leaf_of text_plain x then decoded x
    else match parts x with
         | Some ps =>
             match plain_pass extractPlainTextBody_node ps with
             | Some r => r
             | None => match html_pass ps with Some r => r | None => [] end
             end
         | None => []
         end.
Proof. destruct x as [mt hs b [ps|]]; reflexivity. Qed.

Lemma nodes_eq (x : MimeNode) :
  nodes x = x :: match parts x with
                 | Some ps => flat_map nodes ps
                 | None => []
                 end.
Proof. destruct x; reflexivity. Qed.

Lemma filter_flat_map {A B : Type} (f : A -> list B) (p : B -> bool)
    (l : list A) :
  filter p (flat_map f l) = flat_map (fun a => filter p (f a)) l.
Proof.
  induction l as [|a l IH]; [reflexivity|].
  cbn [flat_map]. rewrite filter_app, IH. reflexivity.
Qed.

Lemma leaves_eq (m : jsstring) (x : MimeNode) :
  leaves m x
  = (if leaf_of m x then [x] else [])
    ++ match parts x with
       | Some ps => flat_map (leaves m) ps
       | None => []
       end.
Proof.
  unfold leaves. rewrite nodes_eq. cbn [filter].
  destruct (parts x) as [ps|].
  - rewrite filter_flat_map. destruct (leaf_of m x); reflexivity.
  - destruct (leaf_of m x); reflexivity.
Qed.

Lemma well_formed_eq (x : MimeNode) :
  well_formed x
  = parts_on_multipart x
    && match parts x with
       | Some ps => forallb well_formed ps
       | None => true
       end.
Proof.
  unfold well_formed. rewrite nodes_eq. cbn [forallb]. f_equal.
  destruct (parts x) as [ps|]; [|reflexivity].
  induction ps as [|p ps IH]; [reflexivity|].
  cbn [flat_map forallb]. rewrite forallb_app, IH. reflexivity.
Qed.

Lemma startsWith_eq (s p : jsstring) :
  startsWith s p = true -> exists r, s = p ++ r.
Proof.
  revert s; induction p as [|c p IH]; intros s H.
  - exists s. reflexivity.
  - destruct s as [|d s]; [discriminate|]. cbn [startsWith] in H.
    apply andb_true_iff in H. destruct H as [E H]. apply N.eqb_eq in E.
    destruct (IH s H) as [r ->]. exists r. subst. reflexivity.
Qed.

(** A multipart node is neither a plain-text nor an HTML leaf. *)
Lemma multipart_not_leaf (x : MimeNode) :
  is_multipart x = true ->
  leaf_of text_plain x = false /\ leaf_of text_html x = false.
Proof.
  unfold is_multipart, leaf_of, mimeType_is.
  destruct (mimeType x) as [t|]; [|discriminate].
  intros H. apply startsWith_eq in H. destruct H as [r ->].
  split; reflexivity.
Qed.

(** The result of the extraction is empty or comes from a leaf. *)
Lemma extract_provenance (x : MimeNode) :
  extractPlainTextBody_node x = []
  \/ (exists n, In n (plain_leaves x) /\ extractPlainTextBody_node x = decoded n)
  \/ (exists n, In n (html_leaves x)
                /\ extractPlainTextBody_node x = htmlToText (decoded n)).
Proof.
  induction x as [mt hs b|mt hs b ps IH] using MimeNode_ind;
    rewrite extractPlainTextBody_node_eq; unfold plain_leaves, html_leaves;
    rewrite !leaves_eq; cbn [parts].
  - destruct (leaf_of text_plain _) eqn:E; [|left; reflexivity].
    right; left. eexists. split; [left; reflexivity | reflexivity].
  - set (x := mkMimeNode mt hs b (Some ps)).
    destruct (leaf_of text_plain x) eqn:E.
    { right; left. exists x. split; [left; reflexivity | reflexivity]. }
    cbn [app].
    assert (Hp : forall r, plain_pass extractPlainTextBody_node ps = Some r ->
                 (exists n, In n (flat_map (leaves text_plain) ps) /\ r = decoded n)
                 \/ (exists n, In n (flat_map (leaves text_html) ps)
                               /\ r = htmlToText (decoded n))).
    { clear E x. induction ps as [|p ps IHps]; intros r Hr; [discriminate|].
      inversion IH as [|? ? IHp IHrest]; subst.
      cbn [plain_pass] in Hr. cbn [flat_map].
      destruct (leaf_of text_plain p) eqn:Ep.
      - inversion Hr; subst. left. exists p. split; [|reflexivity].
        apply in_or_app. left. rewrite leaves_eq, Ep. left. reflexivity.
      - destruct (is_multipart p) eqn:Em.
        + destruct (truthy (extractPlainTextBody_node p)) eqn:Et.
          * inversion Hr; subst.
            destruct IHp as [E0|[(n & Hn & En)|(n & Hn & En)]].
            -- rewrite E0 in Et. discriminate.
            -- left. exists n. split; [apply in_or_app; left; exact Hn | exact En].
            -- right. exists n. split; [apply in_or_app; left; exact Hn | exact En].
          * destruct (IHps IHrest r Hr) as [(n & Hn & En)|(n & Hn & En)].
            -- left. exists n. split; [apply in_or_app; right; exact Hn | exact En].
            -- right. exists n. split; [apply in_or_app; right; exact Hn | exact En].
        + destruct (IHps IHrest r Hr) as [(n & Hn & En)|(n & Hn & En)].
          -- left. exists n. split; [apply in_or_app; right; exact Hn | exact En].
          -- right. exists n. split; [apply in_or_app; right; exact Hn | exact En]. }
    assert (Hh : forall r, html_pass ps = Some r ->
                 exists n, In n (flat_map (leaves text_html) ps)
                           /\ r = htmlToText (decoded n)).
    { clear. induction ps as [|p ps IHps]; intros r Hr; [discriminate|].
      cbn [html_pass] in Hr. cbn [flat_map].
      destruct (leaf_of text_html p) eqn:Ep.
      - inversion Hr; subst. exists p. split; [|reflexivity].
        apply in_or_app. left. rewrite leaves_eq, Ep. left. reflexivity.
      - destruct (IHps r Hr) as (n & Hn & En).
        exists n. split; [apply in_or_app; right; exact Hn | exact En]. }
    destruct (plain_pass extractPlainTextBody_node ps) as [r|].
    + destruct (Hp r eq_refl) as [(n & Hn & En)|(n & Hn & En)].
      * right; left. exists n. split; [exact Hn | exact En].
      * right; right. exists n. split; [apply in_or_app; right; exact Hn | exact En].
    + destruct (html_pass ps) as [r|]; [|left; reflexivity].
      destruct (Hh r eq_refl) as (n & Hn & En).
      right; right. exists n. split; [apply in_or_app; right; exact Hn | exact En].
Qed.

Lemma truthy_false (s : jsstring) : truthy s = false <-> s = [].
Proof. destruct s; split; intros H; try reflexivity; discriminate. Qed.

Lemma truthy_true (s : jsstring) : truthy s = true <-> s <> [].
Proof.
  destruct s; split; intros H; try reflexivity; try discriminate.
  exfalso. apply H. reflexivity.
Qed.

Lemma leaf_in_leaves (m : jsstring) (x : MimeNode) :
  leaf_of m x = true -> In x (leaves m x).
Proof. intros H. rewrite leaves_eq, H. left. reflexivity. Qed.

(** In a tree of the data model's shape whose leaves all carry text, the
    extraction is empty only when there is no leaf; the root must not be
    an HTML leaf itself. *)
Lemma extract_empty_no_leaf (x : MimeNode) :
  well_formed x = true ->
  leaf_of text_html x = false ->
  (forall n, In n (plain_leaves x) -> decoded n <> []) ->
  (forall n, In n (html_leaves x) -> htmlToText (decoded n) <> []) ->
  extractPlainTextBody_node x = [] ->
  plain_leaves x = [] /\ html_leaves x = [].
Proof.
  unfold plain_leaves, html_leaves.
  induction x as [mt hs b|mt hs b ps IH] using MimeNode_ind;
    intros Hwf Hroot Hplain Hhtml; rewrite extractPlainTextBody_node_eq;
    rewrite !leaves_eq; rewrite !leaves_eq in Hplain, Hhtml;
    rewrite well_formed_eq in Hwf; cbn [parts] in *; rewrite Hroot in *.
  - destruct (leaf_of text_plain _) eqn:E; [|auto].
    intros H. exfalso. apply (Hplain _ (or_introl eq_refl)). exact H.
  - set (x := mkMimeNode mt hs b (Some ps)) in *.
    apply andb_true_iff in Hwf. destruct Hwf as [_ Hwf].
    destruct (leaf_of text_plain x) eqn:E.
    { intros H. exfalso. apply (Hplain _ (or_introl eq_refl)). exact H. }
    cbn [app] in *. clear E Hroot x.
    (* a returning plain loop returns text *)
    assert (Hp : forall r, plain_pass extractPlainTextBody_node ps = Some r -> r <> []).
    { clear IH Hwf Hhtml.
      induction ps as [|p ps IHps]; intros r Hr; [discriminate|].
      cbn [plain_pass] in Hr. cbn [flat_map] in Hplain.
      destruct (leaf_of text_plain p) eqn:Ep.
      - inversion Hr; subst. apply Hplain, in_or_app. left.
        apply leaf_in_leaves, Ep.
      - assert (Hrest : forall n, In n (flat_map (leaves text_plain) ps) ->
                                  decoded n <> [])
          by (intros n Hn; apply Hplain, in_or_app; right; exact Hn).
        destruct (is_multipart p); [|apply (IHps Hrest r Hr)].
        destruct (truthy (extractPlainTextBody_node p)) eqn:Et;
          [|apply (IHps Hrest r Hr)].
        inversion Hr; subst. apply truthy_true, Et. }
    assert (Hh : forall r, html_pass ps = Some r -> r <> []).
    { clear IH Hwf Hplain Hp.
      induction ps as [|p ps IHps]; intros r Hr; [discriminate|].
      cbn [html_pass] in Hr. cbn [flat_map] in Hhtml.
      destruct (leaf_of text_html p) eqn:Ep.
      - inversion Hr; subst. apply Hhtml, in_or_app. left.
        apply leaf_in_leaves, Ep.
      - apply IHps; [|exact Hr].
        intros n Hn; apply Hhtml, in_or_app; right; exact Hn. }
    destruct (plain_pass extractPlainTextBody_node ps) as [r|] eqn:Epp.
    { intros H. exfalso. apply (Hp r eq_refl H). }
    destruct (html_pass ps) as [r|] eqn:Ehp.
    { intros H. exfalso. apply (Hh r eq_refl H). }
    intros _. clear Hp Hh.
    induction ps as [|p ps IHps]; [auto|].
    inversion IH as [|? ? IHp IHrest]; subst.
    cbn [forallb] in Hwf. apply andb_true_iff in Hwf. destruct Hwf as [Hwp Hwps].
    cbn [plain_pass] in Epp. cbn [html_pass] in Ehp. cbn [flat_map] in *.
    destruct (leaf_of text_plain p) eqn:Ep; [discriminate|].
    destruct (leaf_of text_html p) eqn:Eh; [discriminate|].
    assert (Hplain' : forall n, In n (flat_map (leaves text_plain) ps) ->
                                decoded n <> [])
      by (intros n Hn; apply Hplain, in_or_app; right; exact Hn).
    assert (Hhtml' : forall n, In n (flat_map (leaves text_html) ps) ->
                               htmlToText (decoded n) <> [])
      by (intros n Hn; apply Hhtml, in_or_app; right; exact Hn).
    assert (Hpp : plain_pass extractPlainTextBody_node ps = None
                  /\ (is_multipart p = true -> extractPlainTextBody_node p = [])).
    { destruct (is_multipart p); [|split; [exact Epp | discriminate]].
      destruct (truthy (extractPlainTextBody_node p)) eqn:Et; [discriminate|].
      split; [exact Epp | intros _; apply truthy_false, Et]. }
    destruct Hpp as [Epp' Hnested].
    destruct (IHps IHrest Hwps Hplain' Hhtml' Epp' Ehp) as [E1 E2].
    rewrite E1, E2, !app_nil_r.
    destruct (is_multipart p) eqn:Em.
    + apply IHp; auto.
      * intros n Hn. apply Hplain, in_or_app. left. exact Hn.
      * intros n Hn. apply Hhtml, in_or_app. left. exact Hn.
    + (* neither a leaf nor multipart: no child parts *)
      rewrite well_formed_eq in Hwp. apply andb_true_iff in Hwp.
      destruct Hwp as [Hshape _]. unfold parts_on_multipart in Hshape.
      rewrite !leaves_eq, Ep, Eh.
      destruct (parts p); [congruence | auto].
Qed.

Lemma extract_no_leaf (x : MimeNode) :
  plain_leaves x = [] -> html_leaves x = [] -> extractPlainTextBody_node x = [].
Proof.
  intros Hp Hh.
  destruct (extract_provenance x) as [E|[(n & Hn & _)|(n & Hn & _)]].
  - exact E.
  - rewrite Hp in Hn. destruct Hn.
  - rewrite Hh in Hn. destruct Hn.
Qed.

(** ** Links *)

Section LinkProperties.
Context {rt : Runtime}.

(** No exception leaves [cleanTrackingUrl]. *)
Lemma cleanTrackingUrl_normal (url : jsstring) :
  cleanTrackingUrl url = Normal (clean_value url).
Proof.
  unfold clean_value, cleanTrackingUrl, try_catch, bind.
  destruct (new_URL url) as [parsed|e]; [|reflexivity].
  destruct (find_destination parsed destination_params) as [d|]; [|reflexivity].
  destruct (decodeURIComponent d); reflexivity.
Qed.

Lemma add_href_eq (links : list jsstring) (url : jsstring) :
  add_href links url = Normal (fold_left set_add (link_of_href url) links).
Proof.
  unfold add_href, link_of_href. destruct (href_kept url); [|reflexivity].
  rewrite cleanTrackingUrl_normal. cbn [bind].
  destruct (clean_value url) as [c|]; [|reflexivity].
  destruct (truthy c); reflexivity.
Qed.

Lemma extractFromHtml_eq (links : list jsstring) (html : jsstring) :
  extractFromHtml links html
  = Normal (fold_left set_add (links_of_html html) links).
Proof.
  unfold extractFromHtml, links_of_html.
  generalize (exec_all hrefRegex html) as l. intros l. revert links.
  induction l as [|u l IH]; intros links; [reflexivity|].
  cbn [foldM flat_map]. rewrite add_href_eq. cbn [bind].
  rewrite IH, fold_left_app. reflexivity.
Qed.

Lemma extractLinksFromPayload_node_eq (x : MimeNode) :
  extractLinksFromPayload_node x
  = (links0 <- (if leaf_of text_html x
                then extractFromHtml [] (decoded x)
                else Normal []) ;;
     match parts x with
     | Some ps => links_loop extractLinksFromPayload_node ps links0
     | None => Normal links0
     end).
Proof. destruct x as [mt hs b [ps|]]; reflexivity. Qed.

Lemma links_of_leaves_app (a b : list MimeNode) :
  links_of_leaves (a ++ b) = links_of_leaves a ++ links_of_leaves b.
Proof. apply flat_map_app. Qed.

(** The links returned are those of the leaves read, first occurrences
    only. *)
Lemma extractLinks_visited (x : MimeNode) :
  extractLinksFromPayload_node x
  = Normal (fold_left set_add (links_of_leaves (visited_html x)) []).
Proof.
  induction x as [mt hs b|mt hs b ps IH] using MimeNode_ind;
    rewrite extractLinksFromPayload_node_eq; cbn [parts visited_html].
  - destruct (leaf_of text_html _); [|reflexivity].
    rewrite extractFromHtml_eq. cbn [bind app links_of_leaves flat_map].
    rewrite !app_nil_r. reflexivity.
  - set (x := mkMimeNode mt hs b (Some ps)).
    set (step := fun part =>
           (if leaf_of text_html part then [part] else [])
           ++ (if is_multipart part then visited_html part else [])).
    assert (Hloop : forall links,
      links_loop extractLinksFromPayload_node ps links
      = Normal (fold_left set_add (links_of_leaves (flat_map step ps)) links)).
    { clear x. induction ps as [|p ps IHps]; intros links; [reflexivity|].
      inversion IH as [|? ? IHp IHrest]; subst.
      cbn [links_loop flat_map].
      rewrite (links_of_leaves_app (step p) (flat_map step ps)), fold_left_app.
      change (step p)
        with ((if leaf_of text_html p then [p] else [])
              ++ (if is_multipart p then visited_html p else [])).
      rewrite (links_of_leaves_app (if leaf_of text_html p then [p] else [])),
        fold_left_app.
      destruct (leaf_of text_html p).
      - rewrite extractFromHtml_eq. cbn [bind].
        replace (links_of_leaves [p]) with (links_of_html (decoded p))
          by (cbn [links_of_leaves flat_map]; rewrite app_nil_r; reflexivity).
        destruct (is_multipart p).
        + rewrite IHp. cbn [bind]. rewrite fold_set_add_dedup.
          apply IHps, IHrest.
        + cbn [bind links_of_leaves flat_map fold_left]. apply IHps, IHrest.
      - cbn [bind links_of_leaves flat_map fold_left].
        destruct (is_multipart p).
        + rewrite IHp. cbn [bind]. rewrite fold_set_add_dedup.
          apply IHps, IHrest.
        + cbn [bind links_of_leaves flat_map fold_left]. apply IHps, IHrest. }
    rewrite (links_of_leaves_app (if leaf_of text_html x then [x] else [])),
      fold_left_app.
    destruct (leaf_of text_html x).
    + rewrite extractFromHtml_eq. cbn [bind]. rewrite Hloop.
      cbn [links_of_leaves flat_map]. rewrite app_nil_r. reflexivity.
    + cbn [bind]. rewrite Hloop. reflexivity.
Qed.

(** In a tree of the data model's shape every HTML leaf is read, in
    document order. *)
Lemma visited_html_all (x : MimeNode) :
  well_formed x = true -> visited_html x = html_leaves x.
Proof.
  unfold html_leaves.
  induction x as [mt hs b|mt hs b ps IH] using MimeNode_ind;
    intros Hwf; rewrite leaves_eq; cbn [parts visited_html]; [reflexivity|].
  f_equal. rewrite well_formed_eq in Hwf. cbn [parts] in Hwf.
  apply andb_true_iff in Hwf. destruct Hwf as [_ Hwf].
  induction ps as [|p ps IHps]; [reflexivity|].
  inversion IH as [|? ? IHp IHrest]; subst.
  cbn [forallb] in Hwf. apply andb_true_iff in Hwf. destruct Hwf as [Hp Hps].
  cbn [flat_map]. rewrite (IHps IHrest Hps). f_equal.
  destruct (is_multipart p) eqn:Em.
  - rewrite (IHp Hp). destruct (multipart_not_leaf p Em) as [_ ->]. reflexivity.
  - rewrite well_formed_eq in Hp. apply andb_true_iff in Hp.
    destruct Hp as [Hshape _]. unfold parts_on_multipart in Hshape.
    rewrite leaves_eq. destruct (parts p); [congruence | reflexivity].
Qed.

(** In any tree the leaves read are HTML leaves of the tree. *)
Lemma visited_html_leaves (x n : MimeNode) :
  In n (visited_html x) -> In n (html_leaves x).
Proof.
  unfold html_leaves. revert n.
  induction x as [mt hs b|mt hs b ps IH] using MimeNode_ind;
    intros n; rewrite leaves_eq; cbn [parts visited_html]; [auto|].
  rewrite !in_app_iff. intros [H|H]; [left; exact H|]. right.
  induction ps as [|p ps IHps]; [destruct H|].
  inversion IH as [|? ? IHp IHrest]; subst.
  cbn [flat_map] in *. rewrite !in_app_iff in *.
  destruct H as [[H|H]|H].
  - left. destruct (leaf_of text_html p) eqn:E; [|destruct H].
    destruct H as [<-|[]]. apply leaf_in_leaves, E.
  - left. destruct (is_multipart p); [apply IHp, H | destruct H].
  - right. apply IHps; assumption.
Qed.

End LinkProperties.

(** ** Plain-text extraction *)

(** C1.  On a payload whose first child is a multipart part holding only
    an HTML leaf and whose second child is a plain-text leaf, the
    extraction returns the conversion of the HTML, although the tree has
    a plain-text leaf with payload data: the HTML pass of the recursive
    call on the nested part runs before the plain-text sibling is
    looked at. *)
Theorem nested_html_preempts_plain :
  well_formed html_nested_before_plain = true
  /\ map decoded (plain_leaves html_nested_before_plain) = [js "plain"]
  /\ map (fun x => htmlToText (decoded x)) (html_leaves html_nested_before_plain)
     = [js "hi"]
  /\ extractPlainTextBody (Some html_nested_before_plain) = js "hi".
Proof. vm_compute. repeat split. Qed.

(** The tree named in the spec: a plain-text leaf two levels down, an
    HTML leaf as a sibling at the top, in either order. *)
Lemma plain_two_levels_down_wins :
  extractPlainTextBody (Some plain_two_levels_down) = js "plain"
  /\ extractPlainTextBody (Some html_then_plain_two_levels_down) = js "plain".
Proof. vm_compute. split; reflexivity. Qed.

(** C2, as stated, fails: a root that is an HTML leaf yields the empty
    string, and so does an HTML part that converts to no text, although
    both trees have an HTML leaf with payload data. *)
Lemma html_leaf_yet_empty :
  ~ (extractPlainTextBody (Some html_only) = []
     <-> plain_leaves html_only = [] /\ html_leaves html_only = [])
  /\ ~ (extractPlainTextBody (Some html_without_text) = []
        <-> plain_leaves html_without_text = []
            /\ html_leaves html_without_text = []).
Proof.
  split; intros [H _].
  - assert (E : extractPlainTextBody (Some html_only) = [])
      by (vm_compute; reflexivity).
    destruct (H E) as [_ E']. vm_compute in E'. discriminate.
  - assert (E : extractPlainTextBody (Some html_without_text) = [])
      by (vm_compute; reflexivity).
    destruct (H E) as [_ E']. vm_compute in E'. discriminate.
Qed.

(** C2 (amended).  Without a plain-text or HTML leaf with payload data
    the extraction returns the empty string.  Conversely, in a tree whose
    child parts sit on multipart nodes only, whose root is not itself an
    HTML leaf and whose plain-text and HTML leaves all yield non-empty
    text, the extraction returns the empty string only if there is no
    such leaf. *)
Theorem extract_empty_iff (root : MimeNode) :
  (plain_leaves root = [] -> html_leaves root = [] ->
   extractPlainTextBody (Some root) = [])
  /\ (well_formed root = true ->
      leaf_of text_html root = false ->
      (forall n, In n (plain_leaves root) -> decoded n <> []) ->
      (forall n, In n (html_leaves root) -> htmlToText (decoded n) <> []) ->
      (extractPlainTextBody (Some root) = []
       <-> plain_leaves root = [] /\ html_leaves root = [])).
Proof.
  split.
  - apply extract_no_leaf.
  - intros Hwf Hroot Hp Hh. split.
    + apply extract_empty_no_leaf; assumption.
    + intros [E1 E2]. apply extract_no_leaf; assumption.
Qed.

Lemma extract_empty_iff_witness :
  extractPlainTextBody (Some html_nested_before_plain) = []
  <-> plain_leaves html_nested_before_plain = []
      /\ html_leaves html_nested_before_plain = [].
Proof.
  apply (extract_empty_iff html_nested_before_plain).
  - reflexivity.
  - reflexivity.
  - intros n [<-|[]]. vm_compute. discriminate.
  - intros n [<-|[]]. vm_compute. discriminate.
Defined.

(** ** First occurrences *)

Lemma fold_set_add_unseen (l acc : list jsstring) :
  fold_left set_add l acc = acc ++ unseen acc l.
Proof.
  revert acc; induction l as [|x l IH]; intros acc; cbn [fold_left unseen].
  - rewrite app_nil_r. reflexivity.
  - destruct (existsb (jseqb x) acc) eqn:E.
    + rewrite (set_add_old _ _ E). apply IH.
    + rewrite (set_add_new _ _ E), IH, <- app_assoc. reflexivity.
Qed.

Lemma fold_set_add_first (l : list jsstring) :
  fold_left set_add l [] = first_occurrences l.
Proof. apply fold_set_add_unseen. Qed.

Lemma unseen_ext (s1 s2 l : list jsstring) :
  (forall z, existsb (jseqb z) s1 = existsb (jseqb z) s2) ->
  unseen s1 l = unseen s2 l.
Proof.
  revert s1 s2; induction l as [|y l IH]; intros s1 s2 H; [reflexivity|].
  cbn [unseen]. rewrite (H y). destruct (existsb (jseqb y) s2).
  - apply IH, H.
  - f_equal. apply IH. intros z. rewrite !existsb_app, H. reflexivity.
Qed.

Lemma unseen_filter (seen extra l : list jsstring) :
  unseen (seen ++ extra) l
  = unseen seen (filter (fun y => negb (existsb (jseqb y) extra)) l).
Proof.
  revert seen; induction l as [|y l IH]; intros seen; [reflexivity|].
  cbn [unseen filter]. rewrite existsb_app.
  destruct (existsb (jseqb y) extra) eqn:E; cbn [negb].
  - rewrite orb_true_r. apply IH.
  - rewrite orb_false_r. cbn [unseen].
    destruct (existsb (jseqb y) seen); [apply IH|].
    f_equal. rewrite <- IH. apply unseen_ext. intros z.
    rewrite !existsb_app. cbn [existsb]. rewrite !orb_false_r.
    rewrite <- !orb_assoc. f_equal. apply orb_comm.
Qed.

(** The first element is kept and removed from the rest. *)
Lemma first_occurrences_cons (x : jsstring) (l : list jsstring) :
  first_occurrences (x :: l)
  = x :: first_occurrences (filter (fun y => negb (jseqb y x)) l).
Proof.
  unfold first_occurrences. cbn [unseen existsb].
  rewrite (unseen_filter [] [x]). f_equal. f_equal. apply filter_ext.
  intros z. cbn [existsb]. rewrite orb_false_r. reflexivity.
Qed.

Lemma first_occurrences_NoDup (l : list jsstring) : NoDup (first_occurrences l).
Proof. rewrite <- fold_set_add_first. apply fold_set_add_NoDup. constructor. Qed.

Lemma first_occurrences_In (l : list jsstring) (x : jsstring) :
  In x (first_occurrences l) <-> In x l.
Proof.
  rewrite <- fold_set_add_first, fold_set_add_In. simpl. tauto.
Qed.

(** ** Link extraction *)

Lemma is_http_truthy (s : jsstring) : is_http s = true -> truthy s = true.
Proof. destruct s; [discriminate | reflexivity]. Qed.

Lemma find_destination_skip (parsed : URL) (before rest : list jsstring) :
  (forall q w, In q before ->
               searchParams_get (searchParams parsed) q = Some w ->
               is_http w = false) ->
  find_destination parsed (before ++ rest) = find_destination parsed rest.
Proof.
  induction before as [|q before IH]; intros H; [reflexivity|].
  cbn [app find_destination].
  destruct (searchParams_get (searchParams parsed) q) as [w|] eqn:E.
  - rewrite (H q w (or_introl eq_refl) E), andb_false_r.
    apply IH. intros q' w' Hq. apply H. right. exact Hq.
  - apply IH. intros q' w' Hq. apply H. right. exact Hq.
Qed.

Lemma find_destination_none (parsed : URL) (params : list jsstring) :
  (forall q w, In q params ->
               searchParams_get (searchParams parsed) q = Some w ->
               is_http w = false) ->
  find_destination parsed params = None.
Proof.
  intros H. rewrite <- (app_nil_r params). rewrite find_destination_skip; auto.
Qed.

Section LinkClaims.
Context {rt : Runtime}.

Lemma link_of_href_In (url link : jsstring) :
  In link (link_of_href url)
  <-> href_kept url = true /\ cleanTrackingUrl url = Normal (Some link)
      /\ truthy link = true.
Proof.
  unfold link_of_href. rewrite cleanTrackingUrl_normal.
  destruct (href_kept url); [|split; [intros [] | intros [H _]; discriminate]].
  destruct (clean_value url) as [c|].
  - destruct (truthy c) eqn:E; simpl.
    + split.
      * intros [<-|[]]. auto.
      * intros (_ & H & _). inversion H. auto.
    + split; [intros [] | intros (_ & H & Ht)]. inversion H; subst. congruence.
  - split; [intros [] | intros (_ & H & _); discriminate].
Qed.

Lemma href_kept_http (url : jsstring) : href_kept url = true -> is_http url = true.
Proof. unfold href_kept. rewrite !andb_true_iff. tauto. Qed.

Lemma cleanTrackingUrl_destination (url : jsstring) (parsed : URL)
    (before after : list jsstring) (param v : jsstring) :
  new_URL url = Normal parsed ->
  destination_params = before ++ param :: after ->
  (forall q w, In q before ->
               searchParams_get (searchParams parsed) q = Some w ->
               is_http w = false) ->
  searchParams_get (searchParams parsed) param = Some v ->
  is_http v = true ->
  cleanTrackingUrl url
  = match decodeURIComponent v with
    | Normal dest => Normal (Some dest)
    | Throw _ => Normal None
    end.
Proof.
  intros Hp Hparams Hbefore Hv Hhttp.
  unfold cleanTrackingUrl. rewrite Hp. cbn [bind].
  rewrite Hparams, find_destination_skip by exact Hbefore.
  cbn [find_destination]. rewrite Hv, Hhttp, (is_http_truthy _ Hhttp).
  cbn [andb]. destruct (decodeURIComponent v); reflexivity.
Qed.

Lemma cleanTrackingUrl_original (url : jsstring) (parsed : URL) :
  new_URL url = Normal parsed ->
  (forall param w, In param destination_params ->
                   searchParams_get (searchParams parsed) param = Some w ->
                   is_http w = false) ->
  cleanTrackingUrl url = Normal (Some url).
Proof.
  intros Hp Hnone. unfold cleanTrackingUrl. rewrite Hp. cbn [bind].
  rewrite find_destination_none by exact Hnone. reflexivity.
Qed.

Lemma cleanTrackingUrl_unparsed (url : jsstring) (e : Error) :
  new_URL url = Throw e -> cleanTrackingUrl url = Normal None.
Proof. intros Hp. unfold cleanTrackingUrl. rewrite Hp. reflexivity. Qed.

End LinkClaims.

(** C5, as stated, fails: the first destination parameter with an
    http(s) value is not emitted when [decodeURIComponent] rejects it;
    the link is dropped. *)
Lemma malformed_destination_dropped :
  href_kept malformed_destination_href = true
  /\ (exists parsed,
        new_URL (Runtime := Reference.runtime) malformed_destination_href
        = Normal parsed
        /\ searchParams_get (searchParams parsed) (js "url")
           = Some (js "https://shop.example/sale?off=50%"))
  /\ is_http (js "https://shop.example/sale?off=50%") = true
  /\ decodeURIComponent (js "https://shop.example/sale?off=50%")
     = Throw URIError
  /\ extractLinksFromPayload (rt := Reference.runtime)
       (Some (leaf text_html (anchor malformed_destination_href)))
     = Normal [].
Proof.
  split; [reflexivity|]. split.
  - eexists. split; [vm_compute; reflexivity | reflexivity].
  - repeat split; vm_compute; reflexivity.
Qed.

(** C5 (amended).  A link is added by [extractFromHtml] exactly when it
    is the result of [cleanTrackingUrl] on an [href] value that starts
    with [http://] or [https://] (and so not with [mailto:],
    [javascript:] or [#]).  For a URL that parses, the parameters [url],
    [u], [redirect], [destination], [target], [link] are looked up in
    this order and the value of the first one that starts with [http://]
    or [https://] goes through [decodeURIComponent]: the decoded value is
    the link when decoding succeeds, and there is no link when it fails.
    The anchor of the spec yields the single link
    [https://real.example.com/page]. *)
Theorem links_http_and_destination :
  (forall (rt : Runtime) (links links' : list jsstring) (html link : jsstring),
     extractFromHtml links html = Normal links' ->
     (In link links' <->
      In link links
      \/ exists url, In url (exec_all hrefRegex html)
                     /\ is_http url = true
                     /\ startsWith url (js "mailto:") = false
                     /\ startsWith url (js "javascript:") = false
                     /\ startsWith url (js "#") = false
                     /\ cleanTrackingUrl url = Normal (Some link)
                     /\ link <> []))
  /\ (forall (rt : Runtime) (url : jsstring) (parsed : URL)
             (before after : list jsstring) (param v : jsstring),
        new_URL url = Normal parsed ->
        destination_params = before ++ param :: after ->
        (forall q w, In q before ->
                     searchParams_get (searchParams parsed) q = Some w ->
                     is_http w = false) ->
        searchParams_get (searchParams parsed) param = Some v ->
        is_http v = true ->
        cleanTrackingUrl url
        = match decodeURIComponent v with
          | Normal dest => Normal (Some dest)
          | Throw _ => Normal None
          end)
  /\ extractLinksFromPayload (rt := Reference.runtime)
       (Some (leaf text_html (anchor tracking_href)))
     = Normal [js "https://real.example.com/page"].
Proof.
  split; [|split].
  - intros rt links links' html link H.
    rewrite extractFromHtml_eq in H. inversion H; subst; clear H.
    rewrite fold_set_add_In. unfold links_of_html. rewrite in_flat_map.
    split.
    + intros [H|(url & Hu & Hl)]; [left; exact H|]. right.
      apply link_of_href_In in Hl. destruct Hl as (Hk & Hc & Ht).
      exists url. unfold href_kept in Hk. rewrite !andb_true_iff in Hk.
      rewrite !negb_true_iff in Hk. apply truthy_true in Ht. tauto.
    + intros [H|(url & Hu & Hh & H1 & H2 & H3 & Hc & Ht)]; [left; exact H|].
      right. exists url. split; [exact Hu|]. apply link_of_href_In.
      split; [|split; [exact Hc | apply truthy_true, Ht]].
      unfold href_kept. rewrite H1, H2, H3, Hh, (is_http_truthy _ Hh).
      reflexivity.
  - intros rt. apply @cleanTrackingUrl_destination.
  - vm_compute. reflexivity.
Qed.

Lemma links_http_and_destination_witness :
  cleanTrackingUrl (rt := Reference.runtime) tracking_href
  = Normal (Some (js "https://real.example.com/page")).
Proof.
  destruct links_http_and_destination as (_ & H & _).
  refine (H Reference.runtime tracking_href
            {| hostname := js "clicks.example.com"; pathname := js "/x";
               searchParams := [(js "u", js "https://real.example.com/page")] |}
            [js "url"] [js "redirect"; js "destination"; js "target"; js "link"]
            (js "u") (js "https://real.example.com/page") _ _ _ _ _).
  - vm_compute. reflexivity.
  - reflexivity.
  - intros q w [<-|[]]. vm_compute. discriminate.
  - reflexivity.
  - reflexivity.
Defined.

(** C6 (amended).  The links returned are the links of the HTML leaves
    read, in the order in which they are read and reduced to their first
    occurrences, so the list has no duplicates on any tree.  In a tree
    of the data model, where child parts sit on multipart nodes only,
    the leaves read are all the HTML leaves in document order (a node
    before its children, children in order), whether or not there is a
    plain-text part, and every link found in some HTML leaf is returned
    exactly once.  A link found in two HTML leaves is returned once. *)
Theorem extractLinks_all_html_leaves :
  (forall (rt : Runtime) (root : MimeNode),
     extractLinksFromPayload (Some root)
     = Normal (first_occurrences (links_of_leaves (visited_html root)))
     /\ NoDup (first_occurrences (links_of_leaves (visited_html root)))
     /\ (well_formed root = true ->
         visited_html root = html_leaves root
         /\ extractLinksFromPayload (Some root)
            = Normal (first_occurrences (all_links root))
         /\ forall link,
              In link (all_links root) ->
              count_occ (list_eq_dec N.eq_dec)
                        (first_occurrences (all_links root)) link = 1%nat))
  /\ extractLinksFromPayload (rt := Reference.runtime) (Some same_href_twice)
     = Normal [js "https://a.example/page"].
Proof.
  split.
  - intros rt root.
    assert (E : extractLinksFromPayload (Some root)
                = Normal (first_occurrences (links_of_leaves (visited_html root)))).
    { cbn [extractLinksFromPayload].
      rewrite extractLinks_visited, fold_set_add_first. reflexivity. }
    split; [exact E|]. split; [apply first_occurrences_NoDup|].
    intros Hwf. split; [apply visited_html_all, Hwf|]. split.
    + rewrite E, (visited_html_all root Hwf). reflexivity.
    + intros link H.
      apply NoDup_count_occ'; [apply first_occurrences_NoDup|].
      apply first_occurrences_In, H.
  - vm_compute. reflexivity.
Qed.

Lemma extractLinks_all_html_leaves_witness :
  extractLinksFromPayload (rt := Reference.runtime) (Some same_href_twice)
  = Normal (first_occurrences (all_links (rt := Reference.runtime)
                                 same_href_twice)).
Proof.
  destruct (proj1 extractLinks_all_html_leaves Reference.runtime same_href_twice)
    as (_ & _ & H).
  destruct (H eq_refl) as (_ & E & _). exact E.
Defined.

(** C6, as stated, fails: the loop enters multipart parts only, so in
    a message attached to a message (a [message/rfc822] part with child
    parts) the HTML leaf is not visited and its link is not returned. *)
Lemma html_in_attached_message_not_read :
  well_formed html_in_attached_message = false
  /\ ~ (forall n, In n (html_leaves html_in_attached_message) ->
                  In n (visited_html html_in_attached_message))
  /\ ~ (forall link,
          In link (all_links (rt := Reference.runtime)
                     html_in_attached_message) ->
          exists links,
            extractLinksFromPayload (rt := Reference.runtime)
              (Some html_in_attached_message) = Normal links
            /\ In link links)
  /\ all_links (rt := Reference.runtime) html_in_attached_message
     = [js "https://a.example/page"]
  /\ visited_html html_in_attached_message = []
  /\ extractLinksFromPayload (rt := Reference.runtime)
       (Some html_in_attached_message) = Normal [].
Proof.
  split; [vm_compute; reflexivity|]. split; [|split].
  - intros H.
    specialize (H (leaf text_html (anchor (js "https://a.example/page")))).
    assert (Hin : In (leaf text_html (anchor (js "https://a.example/page")))
                     (html_leaves html_in_attached_message))
      by (vm_compute; left; reflexivity).
    apply H in Hin. vm_compute in Hin. exact Hin.
  - intros H.
    destruct (H (js "https://a.example/page")) as (links & E & Hin).
    + vm_compute. left. reflexivity.
    + vm_compute in E. inversion E; subst. destruct Hin.
  - vm_compute. repeat split.
Qed.

(** ** Payloads of any shape *)

Lemma Loose_ind (P : Loose -> Prop) :
  (forall p, P (NotAnObject p)) ->
  (forall mt b p, P (PartObject mt b (inl p))) ->
  (forall mt b l, Forall P l -> P (PartObject mt b (inr l))) ->
  forall x, P x.
Proof.
  intros Hprim Hleaf Hnode. fix IH 1. intros [p|mt b [p|l]].
  - apply Hprim.
  - apply Hleaf.
  - apply Hnode.
    exact ((fix all (l : list Loose) : Forall P l :=
              match l with
              | [] => Forall_nil P
              | x :: l' => Forall_cons x (IH x) (all l')
              end) l).
Qed.

Lemma extractPlainTextBody_any_eq (mt : Prim) (b : LooseBody)
    (parts : Prim + list Loose) :
  extractPlainTextBody_any (PartObject mt b parts)
  = if prim_is text_plain mt && truthy_prim (data_of (PartObject mt b parts))
    then decode_data (data_of (PartObject mt b parts))
    else
      match parts with
      | inr l =>
          r <- plain_pass_any extractPlainTextBody_any l ;;
          match r with
          | Some text => Normal text
          | None =>
              h <- html_pass_any l ;;
              Normal (match h with Some text => text | None => [] end)
          end
      | inl p => over_primitive_parts p []
      end.
Proof. destruct parts; reflexivity. Qed.

Lemma extractLinksFromPayload_any_eq {rt : Runtime} (mt : Prim)
    (b : LooseBody) (parts : Prim + list Loose) :
  extractLinksFromPayload_any (PartObject mt b parts)
  = (links0 <- (if prim_is text_html mt
                   && truthy_prim (data_of (PartObject mt b parts))
                then html <- decode_data (data_of (PartObject mt b parts)) ;;
                     extractFromHtml [] html
                else Normal []) ;;
     match parts with
     | inr l => links_loop_any extractLinksFromPayload_any l links0
     | inl p => over_primitive_parts p links0
     end).
Proof. destruct parts; reflexivity. Qed.

(** *** Payloads of the provider's type *)

Lemma loosen_eq (x : MimeNode) :
  loosen x
  = PartObject (loosen_string (mimeType x))
      (match body x with
       | Some b => BodyObject (loosen_string (data b))
       | None => BodyPrim PUndefined
       end)
      (match parts x with
       | Some ps => inr (map loosen ps)
       | None => inl PUndefined
       end).
Proof. destruct x as [mt hs b [ps|]]; reflexivity. Qed.

Lemma loosen_mimeType (x : MimeNode) :
  get_mimeType (loosen x) = Normal (loosen_string (mimeType x)).
Proof. rewrite loosen_eq. reflexivity. Qed.

Lemma loosen_data (x : MimeNode) :
  data_of (loosen x) = loosen_string (body_data x).
Proof.
  rewrite loosen_eq. unfold body_data. cbn [data_of].
  destruct (body x); reflexivity.
Qed.

Lemma loosen_leaf (m : jsstring) (x : MimeNode) :
  prim_is m (loosen_string (mimeType x)) && truthy_prim (data_of (loosen x))
  = leaf_of m x.
Proof.
  rewrite loosen_data. unfold leaf_of, mimeType_is, truthy_opt.
  destruct (mimeType x), (body_data x); reflexivity.
Qed.

Lemma loosen_decoded (m : jsstring) (x : MimeNode) :
  leaf_of m x = true ->
  decode_data (data_of (loosen x)) = Normal (decoded x).
Proof.
  rewrite loosen_data. unfold leaf_of, decoded, truthy_opt.
  destruct (body_data x); [reflexivity|].
  rewrite andb_false_r. discriminate.
Qed.

Lemma loosen_multipart (x : MimeNode) :
  startsWith_opt (loosen_string (mimeType x)) (js "multipart/")
  = Normal (is_multipart x).
Proof. unfold is_multipart. destruct (mimeType x); reflexivity. Qed.

Lemma plain_pass_loosen (self' : Loose -> Completion jsstring)
    (self : MimeNode -> jsstring) (ps : list MimeNode) :
  Forall (fun x => self' (loosen x) = Normal (self x)) ps ->
  plain_pass_any self' (map loosen ps) = Normal (plain_pass self ps).
Proof.
  induction 1 as [|x ps Hx _ IH]; [reflexivity|].
  cbn [map plain_pass_any plain_pass].
  rewrite loosen_mimeType. cbn [bind]. rewrite loosen_leaf.
  destruct (leaf_of text_plain x) eqn:E.
  - rewrite (loosen_decoded _ _ E). reflexivity.
  - rewrite loosen_multipart. cbn [bind].
    destruct (is_multipart x); [|exact IH].
    rewrite Hx. cbn [bind]. destruct (truthy (self x)); [reflexivity|exact IH].
Qed.

Lemma html_pass_loosen (ps : list MimeNode) :
  html_pass_any (map loosen ps) = Normal (html_pass ps).
Proof.
  induction ps as [|x ps IH]; [reflexivity|].
  cbn [map html_pass_any html_pass].
  rewrite loosen_mimeType. cbn [bind]. rewrite loosen_leaf.
  destruct (leaf_of text_html x) eqn:E; [|exact IH].
  rewrite (loosen_decoded _ _ E). reflexivity.
Qed.

Lemma extractPlainTextBody_loosen (x : MimeNode) :
  extractPlainTextBody_any (loosen x) = Normal (extractPlainTextBody_node x).
Proof.
  induction x as [mt hs b|mt hs b ps IH] using MimeNode_ind.
  - set (x := mkMimeNode mt hs b None).
    rewrite extractPlainTextBody_node_eq.
    pose proof (loosen_leaf text_plain x) as L.
    pose proof (loosen_decoded text_plain x) as D.
    rewrite loosen_eq in *. rewrite extractPlainTextBody_any_eq, L.
    destruct (leaf_of text_plain x); [exact (D eq_refl)|reflexivity].
  - set (x := mkMimeNode mt hs b (Some ps)).
    rewrite extractPlainTextBody_node_eq.
    pose proof (loosen_leaf text_plain x) as L.
    pose proof (loosen_decoded text_plain x) as D.
    rewrite loosen_eq in *. rewrite extractPlainTextBody_any_eq, L.
    destruct (leaf_of text_plain x); [exact (D eq_refl)|].
    cbn [parts x].
    rewrite (plain_pass_loosen _ extractPlainTextBody_node ps IH).
    cbn [bind]. destruct (plain_pass _ ps); [reflexivity|].
    rewrite html_pass_loosen. reflexivity.
Qed.

Section LooseLinks.
Context {rt : Runtime}.

Lemma links_loop_loosen (self' : Loose -> Completion (list jsstring))
    (self : MimeNode -> Completion (list jsstring)) (ps : list MimeNode) :
  Forall (fun x => self' (loosen x) = self x) ps ->
  forall links,
    links_loop_any self' (map loosen ps) links = links_loop self ps links.
Proof.
  induction 1 as [|x ps Hx _ IH]; intros links; [reflexivity|].
  cbn [map links_loop_any links_loop].
  rewrite loosen_mimeType. cbn [bind]. rewrite loosen_leaf.
  assert (E : (if leaf_of text_html x
               then html <- decode_data (data_of (loosen x)) ;;
                    extractFromHtml links html
               else Normal links)
              = (if leaf_of text_html x
                 then extractFromHtml links (decoded x)
                 else Normal links)).
  { destruct (leaf_of text_html x) eqn:E; [|reflexivity].
    rewrite (loosen_decoded _ _ E). reflexivity. }
  rewrite E. clear E.
  set (c := if leaf_of text_html x
            then extractFromHtml links (decoded x) else Normal links).
  clearbody c. destruct c as [links1|e]; [|reflexivity].
  cbn [bind]. rewrite loosen_multipart. cbn [bind].
  destruct (is_multipart x).
  - rewrite Hx. destruct (self x) as [nested|e]; [|reflexivity].
    cbn [bind]. apply IH.
  - cbn [bind]. apply IH.
Qed.

Lemma extractLinksFromPayload_loosen (x : MimeNode) :
  extractLinksFromPayload_any (loosen x) = extractLinksFromPayload_node x.
Proof.
  induction x as [mt hs b|mt hs b ps IH] using MimeNode_ind.
  - set (x := mkMimeNode mt hs b None).
    rewrite extractLinksFromPayload_node_eq.
    pose proof (loosen_leaf text_html x) as L.
    pose proof (loosen_decoded text_html x) as D.
    rewrite loosen_eq in *. rewrite extractLinksFromPayload_any_eq, L.
    destruct (leaf_of text_html x).
    + rewrite (D eq_refl). cbn [bind parts x].
      destruct (extractFromHtml [] _); reflexivity.
    + reflexivity.
  - set (x := mkMimeNode mt hs b (Some ps)).
    rewrite extractLinksFromPayload_node_eq.
    pose proof (loosen_leaf text_html x) as L.
    pose proof (loosen_decoded text_html x) as D.
    rewrite loosen_eq in *. rewrite extractLinksFromPayload_any_eq, L.
    destruct (leaf_of text_html x).
    + rewrite (D eq_refl). cbn [bind parts x].
      destruct (extractFromHtml [] _) as [links0|e]; [|reflexivity].
      cbn [bind]. apply links_loop_loosen, IH.
    + cbn [bind parts x]. apply links_loop_loosen, IH.
Qed.

(** *** Shapes on which nothing throws *)

Lemma entry_mimeType (part : Loose) :
  entry_ok part = true -> exists mt, get_mimeType part = Normal mt.
Proof.
  destruct part as [p|mt b parts]; cbn [entry_ok get_mimeType].
  - intros H. apply negb_true_iff in H. rewrite H. eexists. reflexivity.
  - intros _. eexists. reflexivity.
Qed.

Lemma tolerated_mimeType (part : Loose) (mt : Prim) :
  tolerated part = true -> get_mimeType part = Normal mt ->
  exists multi, startsWith_opt mt (js "multipart/") = Normal multi.
Proof.
  destruct part as [p|mt' b parts]; cbn [get_mimeType].
  - intros _. destruct (nullish p); [discriminate|].
    intros [= <-]. eexists. reflexivity.
  - cbn [tolerated]. rewrite !andb_true_iff. intros [[Hm _] _] [= <-].
    destruct mt'; try discriminate; eexists; reflexivity.
Qed.

Lemma tolerated_data (part : Loose) :
  tolerated part = true -> truthy_prim (data_of part) = true ->
  exists text, decode_data (data_of part) = Normal text.
Proof.
  destruct part as [p|mt b parts]; [discriminate|].
  cbn [tolerated]. rewrite !andb_true_iff. intros [[_ Hd] _] Ht.
  unfold string_or_falsy in Hd.
  destruct (data_of _); try (rewrite Ht in Hd; discriminate).
  eexists. reflexivity.
Qed.

Lemma over_primitive_parts_ok {A : Type} (p : Prim) (a : A) :
  string_or_falsy p = true -> over_primitive_parts p a = Normal a.
Proof.
  unfold over_primitive_parts, string_or_falsy.
  destruct p as [| |b|x|s]; cbn [truthy_prim]; intros H;
    try reflexivity.
  - apply negb_true_iff in H. rewrite H. reflexivity.
  - apply negb_true_iff in H. rewrite H. reflexivity.
  - destruct (truthy s); reflexivity.
Qed.

Lemma plain_pass_tolerated (self : Loose -> Completion jsstring)
    (l : list Loose) :
  Forall (fun x => tolerated x = true -> exists r, self x = Normal r) l ->
  forallb (fun part => entry_ok part && tolerated part) l = true ->
  exists r, plain_pass_any self l = Normal r.
Proof.
  induction 1 as [|x l Hx _ IH]; cbn [forallb plain_pass_any].
  - intros _. eexists. reflexivity.
  - rewrite !andb_true_iff. intros [[He Ht] Hl].
    destruct (entry_mimeType x He) as [mt Hmt]. rewrite Hmt. cbn [bind].
    destruct (prim_is text_plain mt && truthy_prim (data_of x)) eqn:E.
    + apply andb_true_iff in E. destruct E as [_ E].
      destruct (tolerated_data x Ht E) as [text ->]. eexists. reflexivity.
    + destruct (tolerated_mimeType x mt Ht Hmt) as [multi ->]. cbn [bind].
      destruct multi; [|exact (IH Hl)].
      destruct (Hx Ht) as [nested ->]. cbn [bind].
      destruct (truthy nested); [eexists; reflexivity|exact (IH Hl)].
Qed.

Lemma html_pass_tolerated (l : list Loose) :
  forallb (fun part => entry_ok part && tolerated part) l = true ->
  exists r, html_pass_any l = Normal r.
Proof.
  induction l as [|x l IH]; cbn [forallb html_pass_any].
  - intros _. eexists. reflexivity.
  - rewrite !andb_true_iff. intros [[He Ht] Hl].
    destruct (entry_mimeType x He) as [mt ->]. cbn [bind].
    destruct (prim_is text_html mt && truthy_prim (data_of x)) eqn:E;
      [|exact (IH Hl)].
    apply andb_true_iff in E. destruct E as [_ E].
    destruct (tolerated_data x Ht E) as [text ->]. eexists. reflexivity.
Qed.

Lemma extractPlainTextBody_tolerated (x : Loose) :
  tolerated x = true -> exists r, extractPlainTextBody_any x = Normal r.
Proof.
  induction x as [p|mt b p|mt b l IH] using Loose_ind; intros Ht.
  - eexists. reflexivity.
  - rewrite extractPlainTextBody_any_eq.
    destruct (prim_is text_plain mt && truthy_prim _) eqn:E.
    + apply andb_true_iff in E. destruct E as [_ E].
      exact (tolerated_data _ Ht E).
    + cbn [tolerated] in Ht. rewrite !andb_true_iff in Ht.
      rewrite over_primitive_parts_ok by apply Ht. eexists. reflexivity.
  - rewrite extractPlainTextBody_any_eq.
    destruct (prim_is text_plain mt && truthy_prim _) eqn:E.
    + apply andb_true_iff in E. destruct E as [_ E].
      exact (tolerated_data _ Ht E).
    + cbn [tolerated] in Ht. rewrite !andb_true_iff in Ht.
      destruct Ht as [_ Hl].
      destruct (plain_pass_tolerated _ l IH Hl) as [r ->]. cbn [bind].
      destruct r; [eexists; reflexivity|].
      destruct (html_pass_tolerated l Hl) as [h ->]. eexists. reflexivity.
Qed.

Lemma links_loop_tolerated (self : Loose -> Completion (list jsstring))
    (l : list Loose) :
  Forall (fun x => tolerated x = true -> exists r, self x = Normal r) l ->
  forallb (fun part => entry_ok part && tolerated part) l = true ->
  forall links, exists r, links_loop_any self l links = Normal r.
Proof.
  induction 1 as [|x l Hx _ IH]; cbn [forallb links_loop_any].
  - intros _ links. eexists. reflexivity.
  - rewrite !andb_true_iff. intros [[He Ht] Hl] links.
    destruct (entry_mimeType x He) as [mt Hmt]. rewrite Hmt. cbn [bind].
    assert (H1 : exists links1,
               (if prim_is text_html mt && truthy_prim (data_of x)
                then html <- decode_data (data_of x) ;;
                     extractFromHtml links html
                else Normal links) = Normal links1).
    { destruct (prim_is text_html mt && truthy_prim (data_of x)) eqn:E;
        [|eexists; reflexivity].
      apply andb_true_iff in E. destruct E as [_ E].
      destruct (tolerated_data x Ht E) as [text ->]. cbn [bind].
      rewrite extractFromHtml_eq. eexists. reflexivity. }
    destruct H1 as [links1 ->]. cbn [bind].
    destruct (tolerated_mimeType x mt Ht Hmt) as [multi ->]. cbn [bind].
    destruct multi.
    + destruct (Hx Ht) as [nested ->]. cbn [bind]. apply (IH Hl).
    + cbn [bind]. apply (IH Hl).
Qed.

Lemma extractLinksFromPayload_tolerated (x : Loose) :
  tolerated x = true -> exists r, extractLinksFromPayload_any x = Normal r.
Proof.
  induction x as [p|mt b p|mt b l IH] using Loose_ind; intros Ht.
  - eexists. reflexivity.
  - rewrite extractLinksFromPayload_any_eq.
    assert (H0 : exists links0,
               (if prim_is text_html mt
                   && truthy_prim (data_of (PartObject mt b (inl p)))
                then html <- decode_data (data_of (PartObject mt b (inl p))) ;;
                     extractFromHtml [] html
                else Normal []) = Normal links0).
    { destruct (prim_is text_html mt && truthy_prim _) eqn:E;
        [|eexists; reflexivity].
      apply andb_true_iff in E. destruct E as [_ E].
      destruct (tolerated_data _ Ht E) as [text ->]. cbn [bind].
      rewrite extractFromHtml_eq. eexists. reflexivity. }
    destruct H0 as [links0 ->]. cbn [bind].
    cbn [tolerated] in Ht. rewrite !andb_true_iff in Ht.
    rewrite over_primitive_parts_ok by apply Ht. eexists. reflexivity.
  - rewrite extractLinksFromPayload_any_eq.
    assert (H0 : exists links0,
               (if prim_is text_html mt
                   && truthy_prim (data_of (PartObject mt b (inr l)))
                then html <- decode_data (data_of (PartObject mt b (inr l))) ;;
                     extractFromHtml [] html
                else Normal []) = Normal links0).
    { destruct (prim_is text_html mt && truthy_prim _) eqn:E;
        [|eexists; reflexivity].
      apply andb_true_iff in E. destruct E as [_ E].
      destruct (tolerated_data _ Ht E) as [text ->]. cbn [bind].
      rewrite extractFromHtml_eq. eexists. reflexivity. }
    destruct H0 as [links0 ->]. cbn [bind].
    cbn [tolerated] in Ht. rewrite !andb_true_iff in Ht.
    apply links_loop_tolerated; [exact IH | apply Ht].
Qed.

End LooseLinks.

Lemma loosen_tolerated (x : MimeNode) : tolerated (loosen x) = true.
Proof.
  induction x as [mt hs b|mt hs b ps IH] using MimeNode_ind;
    rewrite loosen_eq; cbn [tolerated mimeType body parts data_of].
  - destruct mt, b as [[[d|]]|]; reflexivity.
  - assert (E : forallb (fun part => entry_ok part && tolerated part)
                  (map loosen ps) = true).
    { induction IH as [|x ps Hx _ IHps]; [reflexivity|].
      cbn [map forallb]. rewrite Hx, IHps, loosen_eq. reflexivity. }
    rewrite E. destruct mt, b as [[[d|]]|]; reflexivity.
Qed.




Lemma encodeSubject_header_witness :
  rfc2047_decode (encodeSubject [0xE9; 0x74; 0xE9]) = Some [0xE9; 0x74; 0xE9].
Proof.
  destruct (encodeSubject_header
              {| SendParams.to := [js "a@example.com"];
                 SendParams.subject := [0xE9; 0x74; 0xE9];
                 SendParams.body := []; SendParams.cc := None;
                 SendParams.bcc := None |}) as (_ & _ & H).
  destruct (H eq_refl) as [_ H'].
  exact (H' eq_refl).
Defined.

Section CleanupClaims.
Context {rt : Runtime}.

Lemma add_href_dropped (links : list jsstring) (url : jsstring) :
  cleanTrackingUrl url = Normal None -> add_href links url = Normal links.
Proof.
  intros H. unfold add_href. rewrite H. destruct (href_kept url); reflexivity.
Qed.

End CleanupClaims.

(** C8.  When the URL parses and none of the six parameters has a value
    starting with [http://] or [https://], [cleanTrackingUrl] returns the
    URL it was given, whatever the host name and the path name are: the
    tracking-domain test has no effect.  When the URL does not parse the
    result is [null] and the link set is left as it was. *)
Theorem cleanTrackingUrl_keeps_original (rt : Runtime) (url : jsstring) :
  (forall parsed,
     new_URL url = Normal parsed ->
     (forall param w, In param destination_params ->
                      searchParams_get (searchParams parsed) param = Some w ->
                      is_http w = false) ->
     cleanTrackingUrl url = Normal (Some url))
  /\ (forall e,
        new_URL url = Throw e ->
        cleanTrackingUrl url = Normal None
        /\ forall links, add_href links url = Normal links).
Proof.
  split.
  - intros parsed. apply cleanTrackingUrl_original.
  - intros e H. pose proof (cleanTrackingUrl_unparsed url e H) as E.
    split; [exact E|]. intros links. apply add_href_dropped, E.
Qed.

Lemma cleanTrackingUrl_keeps_original_witness :
  (includes (js "click.example.com") (js "click.") = true
   /\ cleanTrackingUrl (rt := Reference.runtime) tracking_host_href
      = Normal (Some tracking_host_href))
  /\ cleanTrackingUrl (rt := Reference.runtime) unparsable_href = Normal None.
Proof.
  destruct (cleanTrackingUrl_keeps_original Reference.runtime tracking_host_href)
    as [H1 _].
  destruct (cleanTrackingUrl_keeps_original Reference.runtime unparsable_href)
    as [_ H2].
  split; [split; [reflexivity|]|].
  - apply (H1 {| hostname := js "click.example.com"; pathname := js "/x";
                 searchParams := [(js "id", js "42")] |}).
    + vm_compute. reflexivity.
    + intros param w Hin Hw. vm_compute in Hin.
      repeat (destruct Hin as [<-|Hin]; [vm_compute in Hw; discriminate|]).
      destruct Hin.
  - apply (H2 TypeError). vm_compute. reflexivity.
Defined.



(** ** The [add_account] tool *)

(** C9, as stated, fails: for an address that has a record the tool
    answers with a result that is not flagged as an error. *)
Lemma add_existing_is_no_error :
  Accounts.accountExists AccountExamples.store (js "alice@example.com") = true
  /\ Accounts.isError
       (fst (Accounts.add_account (env := AccountExamples.env)
               AccountExamples.store (js "alice@example.com"))) = false
  /\ Accounts.content
       (fst (Accounts.add_account (env := AccountExamples.env)
               AccountExamples.store (js "alice@example.com")))
     = [js "Account alice@example.com already exists."].
Proof. vm_compute. repeat split. Qed.

(** C9 (amended).  For an address that has a record the tool does not
    call the account manager's add operation: it answers with the text
    saying that the account already exists, not flagged as an error, and
    the store is the one it was given, no record created or modified.
    Called directly, the add operation of the account manager reports
    the conflict and leaves the store alone as well. *)
Theorem add_account_existing (env : Accounts.Env) (s : Accounts.AccountStore)
    (email : jsstring) :
  Accounts.accountExists s email = true ->
  Accounts.add_account s email
  = ({| Accounts.content := [js "Account " ++ email ++ js " already exists."];
        Accounts.isError := false |}, s)
  /\ Accounts.addAccount s email
     = (inl {| Accounts.kind := Accounts.ConflictError;
               Accounts.message := Accounts.conflictMessage email |}, s).
Proof.
  intros H. unfold Accounts.add_account, Accounts.addAccount. rewrite H.
  split; reflexivity.
Qed.

Lemma add_account_existing_witness :
  snd (Accounts.add_account (env := AccountExamples.env)
         AccountExamples.store (js "Alice@Example.com"))
  = AccountExamples.store.
Proof.
  rewrite (proj1 (add_account_existing AccountExamples.env
                    AccountExamples.store (js "Alice@Example.com") eq_refl)).
  reflexivity.
Defined.

(* ================================================================= *)
(** * Part III: further properties *)
(* ================================================================= *)

(** ** More on the composer *)

Lemma standard_char_printable (c : N) :
  standard_char c = true -> printable_ascii c = true.
Proof.
  unfold standard_char, printable_ascii, in_range.
  rewrite !orb_true_iff, !andb_true_iff, !N.leb_le, !N.eqb_eq. lia.
Qed.

Lemma base64_printable (bs : list N) :
  forallb printable_ascii (toString_base64 bs) = true.
Proof.
  unfold toString_base64.
  assert (H : forall n, printable_ascii (b64_char false n) = true)
    by (intros n; apply standard_char_printable, (b64_char_alphabet false)).
  induction bs as [|a|a b|a b c l IH] using list_ind3;
    cbn [encode64 app forallb]; rewrite ?H, ?IH; reflexivity.
Qed.

Lemma encodeSubject_printable (subject : jsstring) :
  test_printable (encodeSubject subject) = true.
Proof.
  unfold encodeSubject, test_printable.
  destruct (forallb printable_ascii subject) eqn:E; [exact E|].
  rewrite !forallb_app, base64_printable. reflexivity.
Qed.

(** X1.  Whatever the subject, the [Subject] line is made of printable
    ASCII characters only; in particular it holds no carriage return and
    no line feed, so a subject cannot open a new header line. *)
Theorem subject_line_printable (p : SendParams.t) :
  exists line,
    nth_error (messageParts p) 1 = Some line
    /\ forallb printable_ascii line = true
    /\ ~ In 13 line /\ ~ In 10 line.
Proof.
  exists (js "Subject: " ++ encodeSubject (SendParams.subject p)).
  assert (H : forallb printable_ascii
                (js "Subject: " ++ encodeSubject (SendParams.subject p)) = true).
  { pose proof (encodeSubject_printable (SendParams.subject p)) as E.
    unfold test_printable in E. rewrite forallb_app, E. reflexivity. }
  split; [|split; [exact H|]].
  - unfold messageParts.
    destruct (has_length (SendParams.cc p)), (has_length (SendParams.bcc p));
      reflexivity.
  - rewrite forallb_forall in H.
    split; intros Hin; apply H in Hin; discriminate.
Qed.

(** X2.  Encoding a subject twice is encoding it once: an encoded
    subject is not encoded again. *)
Theorem encodeSubject_idempotent (subject : jsstring) :
  encodeSubject (encodeSubject subject) = encodeSubject subject.
Proof.
  unfold encodeSubject at 1. rewrite encodeSubject_printable. reflexivity.
Qed.

Lemma well_formed_utf16_app (a b : jsstring) :
  well_formed_utf16 a = true -> well_formed_utf16 b = true ->
  well_formed_utf16 (a ++ b) = true.
Proof.
  intros Ha Hb.
  induction a as [|c|c d a IH1 IH2] using list_ind2.
  - exact Hb.
  - cbn [well_formed_utf16] in Ha. cbn [app well_formed_utf16].
    destruct (is_high_surrogate c); [discriminate|].
    rewrite !andb_true_iff in Ha. destruct Ha as [[-> ->] _]. exact Hb.
  - cbn [well_formed_utf16] in Ha.
    change ((c :: d :: a) ++ b) with (c :: d :: (a ++ b)).
    change (well_formed_utf16 (c :: d :: a ++ b))
      with (if is_high_surrogate c
            then is_low_surrogate d && well_formed_utf16 (a ++ b)
            else negb (is_low_surrogate c) && (c <? 0x10000)
                 && well_formed_utf16 ((d :: a) ++ b)).
    destruct (is_high_surrogate c).
    + apply andb_true_iff in Ha. destruct Ha as [-> Ha].
      rewrite (IH1 Ha). reflexivity.
    + rewrite !andb_true_iff in Ha. destruct Ha as [[-> ->] Ha].
      rewrite (IH2 Ha). reflexivity.
Qed.

Lemma printable_well_formed (s : jsstring) :
  forallb printable_ascii s = true -> well_formed_utf16 s = true.
Proof.
  induction s as [|c s IH]; [reflexivity|]. cbn [forallb]. intros H.
  apply andb_true_iff in H. destruct H as [Hc Hs].
  unfold printable_ascii in Hc. apply andb_true_iff in Hc.
  rewrite !N.leb_le in Hc.
  cbn [well_formed_utf16]. unfold is_high_surrogate, is_low_surrogate.
  rewrite (proj2 (N.leb_gt 0xD800 c)) by lia.
  rewrite (proj2 (N.leb_gt 0xDC00 c)) by lia.
  rewrite (proj2 (N.ltb_lt c 0x10000)) by lia.
  cbn [andb negb]. apply IH, Hs.
Qed.

Lemma join_well_formed (sep : jsstring) (l : list jsstring) :
  well_formed_utf16 sep = true ->
  forallb well_formed_utf16 l = true ->
  well_formed_utf16 (join sep l) = true.
Proof.
  intros Hsep. induction l as [|x l IH]; [reflexivity|].
  cbn [forallb]. intros H. apply andb_true_iff in H. destruct H as [Hx Hl].
  destruct l as [|y l]; [exact Hx|].
  rewrite join_cons. repeat apply well_formed_utf16_app; auto.
Qed.

Lemma optional_line_well_formed (label : jsstring) (l : option (list jsstring)) :
  well_formed_utf16 label = true ->
  forallb well_formed_utf16 (or_nil l) = true ->
  well_formed_utf16 (optional_line label l) = true.
Proof.
  intros Hlabel Hl. unfold optional_line.
  destruct l as [[|a others]|]; try reflexivity.
  rewrite <- join_comma_separated.
  repeat apply well_formed_utf16_app; auto.
  apply join_well_formed; [reflexivity | exact Hl].
Qed.

Lemma composed_text_well_formed (p : SendParams.t) :
  forallb well_formed_utf16 (SendParams.to p) = true ->
  forallb well_formed_utf16 (or_nil (SendParams.cc p)) = true ->
  forallb well_formed_utf16 (or_nil (SendParams.bcc p)) = true ->
  well_formed_utf16 (SendParams.body p) = true ->
  well_formed_utf16 (composed_text p) = true.
Proof.
  intros Hto Hcc Hbcc Hbody. unfold composed_text.
  rewrite <- join_comma_separated.
  repeat apply well_formed_utf16_app;
    try reflexivity; try assumption;
    try (apply optional_line_well_formed; [reflexivity | assumption]).
  - apply join_well_formed; [reflexivity | exact Hto].
  - apply printable_well_formed, encodeSubject_printable.
Qed.

(** X3.  When the addresses and the body are well-formed UTF-16, the
    blob handed to the transport decodes, as base64 and then as UTF-8,
    to the composed text, whatever the subject is: the body comes out
    unchanged at the other end. *)
Theorem raw_message_round_trip (p : SendParams.t) :
  forallb well_formed_utf16 (SendParams.to p) = true ->
  forallb well_formed_utf16 (or_nil (SendParams.cc p)) = true ->
  forallb well_formed_utf16 (or_nil (SendParams.bcc p)) = true ->
  well_formed_utf16 (SendParams.body p) = true ->
  sendEmail (fun raw => toString_utf8 (from_base64 raw)) p = composed_text p.
Proof.
  intros Hto Hcc Hbcc Hbody.
  pose proof (composed_text_well_formed p Hto Hcc Hbcc Hbody) as Hwf.
  unfold sendEmail. rewrite join_messageParts.
  unfold toString_base64url.
  rewrite from_base64_encode64
    by (apply from_utf8_bytes, well_formed_code_units, Hwf).
  apply toString_from_utf8, Hwf.
Qed.

Lemma raw_message_round_trip_witness :
  sendEmail (fun raw => toString_utf8 (from_base64 raw))
    {| SendParams.to := [js "a@example.com"; js "b@example.com"];
       SendParams.subject := [0xD800];
       SendParams.body := [0x48; 0xE9; 0xD83D; 0xDE00; 13; 10; 0x2E];
       SendParams.cc := Some [js "c@example.com"];
       SendParams.bcc := None |}
  = js "To: a@example.com, b@example.com" ++ CRLF
    ++ js "Subject: =?UTF-8?B?77+9?=" ++ CRLF
    ++ js "Cc: c@example.com" ++ CRLF
    ++ js "Content-Type: text/plain; charset=utf-8" ++ CRLF ++ CRLF
    ++ [0x48; 0xE9; 0xD83D; 0xDE00; 13; 10; 0x2E].
Proof.
  rewrite raw_message_round_trip by reflexivity. reflexivity.
Defined.

(** ** More on plain-text extraction *)

(** X4.  Whatever the payload, the body returned is the empty string,
    the decoded content of a plain-text leaf of the tree, or the
    conversion of an HTML leaf of the tree; nothing else reaches the
    body. *)
Theorem body_comes_from_a_leaf (payload : option MimeNode) :
  extractPlainTextBody payload = []
  \/ exists root n,
       payload = Some root
       /\ ((In n (plain_leaves root)
            /\ extractPlainTextBody payload = decoded n)
           \/ (In n (html_leaves root)
               /\ extractPlainTextBody payload = htmlToText (decoded n))).
Proof.
  destruct payload as [root|]; [|left; reflexivity].
  cbn [extractPlainTextBody].
  destruct (extract_provenance root) as [E|[(n & Hn & E)|(n & Hn & E)]].
  - left. exact E.
  - right. exists root, n. split; [reflexivity|]. left. split; assumption.
  - right. exists root, n. split; [reflexivity|]. right. split; assumption.
Qed.

Lemma plain_pass_flat (self : MimeNode -> jsstring) (ps : list MimeNode) :
  forallb (fun q => negb (is_multipart q)) ps = true ->
  plain_pass self ps = option_map decoded (find (leaf_of text_plain) ps).
Proof.
  induction ps as [|q ps IH]; [reflexivity|].
  cbn [forallb plain_pass find]. intros H.
  apply andb_true_iff in H. destruct H as [Hq Hps].
  apply negb_true_iff in Hq. rewrite Hq.
  destruct (leaf_of text_plain q); [reflexivity | apply IH, Hps].
Qed.

Lemma html_pass_find (ps : list MimeNode) :
  html_pass ps
  = option_map (fun h => htmlToText (decoded h)) (find (leaf_of text_html) ps).
Proof.
  induction ps as [|q ps IH]; [reflexivity|].
  cbn [html_pass find]. destruct (leaf_of text_html q); [reflexivity | exact IH].
Qed.

(** X5.  In a message whose child parts are all leaves (none is
    multipart), the body is the content of the first plain-text child
    with data wherever it stands among the children; only without such a
    child is it the conversion of the first HTML child with data, and
    without either it is empty. *)
Theorem flat_message_body (mt : option jsstring) (hs : option (list Header))
    (b : option MessagePartBody) (ps : list MimeNode) :
  leaf_of text_plain (mkMimeNode mt hs b (Some ps)) = false ->
  forallb (fun q => negb (is_multipart q)) ps = true ->
  extractPlainTextBody (Some (mkMimeNode mt hs b (Some ps)))
  = match find (leaf_of text_plain) ps with
    | Some p => decoded p
    | None =>
        match find (leaf_of text_html) ps with
        | Some h => htmlToText (decoded h)
        | None => []
        end
    end.
Proof.
  intros Hroot Hflat. cbn [extractPlainTextBody].
  rewrite extractPlainTextBody_node_eq, Hroot. cbn [parts].
  rewrite (plain_pass_flat _ ps Hflat), html_pass_find.
  destruct (find (leaf_of text_plain) ps); [reflexivity|].
  destruct (find (leaf_of text_html) ps); reflexivity.
Qed.

Lemma flat_message_body_witness :
  extractPlainTextBody
    (Some (multipart "alternative"
             [leaf text_html (js "<b>hi</b>"); leaf text_plain (js "plain")]))
  = js "plain".
Proof.
  unfold multipart. rewrite flat_message_body by reflexivity.
  vm_compute. reflexivity.
Defined.

Lemma plain_pass_skip (self : MimeNode -> jsstring) (pre rest : list MimeNode) :
  (forall q, In q pre ->
             leaf_of text_plain q = false
             /\ (is_multipart q = true -> self q = [])) ->
  plain_pass self (pre ++ rest) = plain_pass self rest.
Proof.
  induction pre as [|q pre IH]; intros H; [reflexivity|].
  cbn [app plain_pass].
  destruct (H q (or_introl eq_refl)) as [Hq Hm]. rewrite Hq.
  assert (Hrest : plain_pass self (pre ++ rest) = plain_pass self rest)
    by (apply IH; intros q' Hq'; apply H; right; exact Hq').
  destruct (is_multipart q); [|exact Hrest].
  rewrite (Hm eq_refl). exact Hrest.
Qed.

(** X6.  A plain-text child with data is returned when every child
    before it is neither a plain-text leaf nor a multipart part that
    yields text: multipart parts that yield nothing, and all other
    parts, are passed over. *)
Theorem plain_child_after_silent_parts (mt : option jsstring)
    (hs : option (list Header)) (b : option MessagePartBody)
    (pre post : list MimeNode) (p : MimeNode) :
  leaf_of text_plain (mkMimeNode mt hs b (Some (pre ++ p :: post))) = false ->
  leaf_of text_plain p = true ->
  (forall q, In q pre ->
             leaf_of text_plain q = false
             /\ (is_multipart q = true -> extractPlainTextBody (Some q) = [])) ->
  extractPlainTextBody (Some (mkMimeNode mt hs b (Some (pre ++ p :: post))))
  = decoded p.
Proof.
  intros Hroot Hp Hpre. cbn [extractPlainTextBody].
  rewrite extractPlainTextBody_node_eq, Hroot. cbn [parts].
  rewrite plain_pass_skip by exact Hpre.
  cbn [plain_pass]. rewrite Hp. reflexivity.
Qed.

Lemma plain_child_after_silent_parts_witness :
  extractPlainTextBody
    (Some (multipart "mixed"
             ([multipart "related" [leaf (js "image/png") (js "png")];
               leaf text_html (js "<b>hi</b>")]
              ++ leaf text_plain (js "plain") :: [])))
  = js "plain".
Proof.
  unfold multipart at 1. rewrite plain_child_after_silent_parts.
  - vm_compute. reflexivity.
  - reflexivity.
  - reflexivity.
  - intros q [<-|[<-|[]]]; split; try reflexivity; try discriminate.
Defined.

(** ** The conversion of HTML to text *)

Lemma greedy_space (s : jsstring) :
  greedy space (fun rest => Some (@None jsstring, rest)) s
  = Some (None, skipn (run s) s).
Proof.
  induction s as [|c s IH]; [reflexivity|].
  cbn [greedy run]. destruct (space c); [|reflexivity].
  rewrite IH. reflexivity.
Qed.

Lemma run_le (s : jsstring) : (run s <= List.length s)%nat.
Proof.
  induction s as [|c s IH]; [apply Nat.le_refl|].
  cbn [run List.length]. destruct (space c); lia.
Qed.

Lemma exec_at_spaces (c : N) (s : jsstring) :
  exec_at spacesRegex None (c :: s)
  = if space c then Some (None, skipn (run s) s) else None.
Proof.
  unfold spacesRegex. cbn [exec_at]. destruct (space c); [|reflexivity].
  apply greedy_space.
Qed.

Lemma replace_spaces_collapse (s : jsstring) :
  replace_from spacesRegex (js " ") O s = collapse false s
  /\ replace_from spacesRegex (js " ") (run s) s = collapse true s.
Proof.
  induction s as [|c s [IH0 IHr]]; [split; reflexivity|].
  assert (E0 : replace_from spacesRegex (js " ") O (c :: s)
               = collapse false (c :: s)).
  { cbn [replace_from collapse]. rewrite exec_at_spaces.
    destruct (space c) eqn:Ec.
    - unfold consumed. rewrite length_skipn. cbn [List.length].
      pose proof (run_le s) as Hle.
      replace (S (List.length s) - (List.length s - run s))%nat
        with (S (run s)) by lia.
      rewrite IHr. reflexivity.
    - rewrite IH0. reflexivity. }
  split; [exact E0|].
  cbn [run]. destruct (space c) eqn:Ec.
  - cbn [replace_from collapse]. rewrite Ec. exact IHr.
  - rewrite E0. cbn [collapse]. rewrite Ec. reflexivity.
Qed.

Lemma collapse_spaces (in_run : bool) (s : jsstring) (c : N) :
  In c (collapse in_run s) -> space c = true -> c = 32.
Proof.
  revert in_run; induction s as [|d s IH]; intros in_run H Hc; [destruct H|].
  cbn [collapse] in H. destruct (space d) eqn:Ed.
  - destruct in_run.
    + apply (IH true); assumption.
    + destruct H as [<-|H]; [reflexivity | apply (IH true); assumption].
  - destruct H as [<-|H]; [congruence | apply (IH false); assumption].
Qed.

(** In a collapsed string no two white-space characters are adjacent;
    inside a run the result does not start with white space. *)
Lemma collapse_no_pair (in_run : bool) (s pre post : jsstring) (a b : N) :
  collapse in_run s = pre ++ a :: b :: post ->
  space a = true -> space b = false.
Proof.
  revert in_run pre. 
  assert (Hhead : forall s x r, collapse true s = x :: r -> space x = false).
  { clear. induction s as [|d s IH]; intros x r H; [discriminate|].
    cbn [collapse] in H. destruct (space d) eqn:Ed.
    - apply (IH x r H).
    - inversion H; subst. exact Ed. }
  induction s as [|d s IH]; intros in_run pre H Ha.
  - destruct pre; discriminate.
  - cbn [collapse] in H. destruct (space d) eqn:Ed.
    + destruct in_run; [apply (IH true pre H Ha)|].
      destruct pre as [|x pre].
      * cbn [app] in H. inversion H as [[E1 E2]].
        apply (Hhead s b post E2).
      * cbn [app] in H. inversion H as [[E1 E2]]. apply (IH true pre E2 Ha).
    + destruct pre as [|x pre].
      * cbn [app] in H. inversion H; subst. congruence.
      * cbn [app] in H. inversion H as [[E1 E2]]. apply (IH false pre E2 Ha).
Qed.

Lemma trimStart_suffix (s : jsstring) :
  exists u, s = u ++ trimStart s.
Proof.
  induction s as [|c s [u IH]]; [exists []; reflexivity|].
  cbn [trimStart]. destruct (space c).
  - exists (c :: u). cbn [app]. f_equal. exact IH.
  - exists []. reflexivity.
Qed.

Lemma trimStart_head (s : jsstring) (c : N) (r : jsstring) :
  trimStart s = c :: r -> space c = false.
Proof.
  induction s as [|d s IH]; [discriminate|].
  cbn [trimStart]. destruct (space d) eqn:Ed; [exact IH|].
  intros H. inversion H; subst. exact Ed.
Qed.

(** The trimmed string sits inside the string; it neither starts nor
    ends with white space. *)
Lemma trim_infix (s : jsstring) : exists u v, s = u ++ trim s ++ v.
Proof.
  unfold trim.
  destruct (trimStart_suffix s) as [u Hu].
  destruct (trimStart_suffix (rev (trimStart s))) as [w Hw].
  exists u, (rev w).
  rewrite <- rev_app_distr, <- Hw, rev_involutive. exact Hu.
Qed.

Lemma trim_ends (s : jsstring) :
  (forall c r, trim s = c :: r -> space c = false)
  /\ (forall c r, trim s = r ++ [c] -> space c = false).
Proof.
  unfold trim. split.
  - intros c r H.
    destruct (trimStart_suffix (rev (trimStart s))) as [w Hw].
    remember (trimStart (rev (trimStart s))) as B eqn:EB.
    destruct (trimStart s) as [|x A] eqn:EA.
    + cbn [rev] in EB. cbn [trimStart] in EB. subst B. discriminate.
    + (* the trimmed string starts like [trimStart s] *)
      assert (Hx : space x = false) by (apply (trimStart_head s x A EA)).
      assert (EA' : x :: A = rev B ++ rev w).
      { rewrite <- rev_app_distr, <- Hw, rev_involutive. reflexivity. }
      rewrite H in EA'. cbn [app] in EA'. inversion EA'; subst. exact Hx.
  - intros c r H.
    assert (E : trimStart (rev (trimStart s)) = c :: rev r).
    { rewrite <- (rev_involutive (trimStart (rev (trimStart s)))), H.
      rewrite rev_app_distr. reflexivity. }
    apply (trimStart_head _ _ _ E).
Qed.

(** X7.  The text made from HTML is single-spaced: it neither starts nor
    ends with white space, every white-space character in it is a plain
    space, and no two spaces are adjacent. *)
Theorem htmlToText_single_spaced (html : jsstring) :
  (forall c r, htmlToText html = c :: r -> space c = false)
  /\ (forall c r, htmlToText html = r ++ [c] -> space c = false)
  /\ (forall c, In c (htmlToText html) -> space c = true -> c = 32)
  /\ (forall pre post a b,
        htmlToText html = pre ++ a :: b :: post ->
        space a = true -> space b = false).
Proof.
  unfold htmlToText.
  set (x := Regex.replace (lit "&#39;") _ _).
  assert (E : Regex.replace spacesRegex (js " ") x = collapse false x)
    by (apply replace_spaces_collapse).
  rewrite E. clear E.
  destruct (trim_ends (collapse false x)) as [H1 H2].
  destruct (trim_infix (collapse false x)) as (u & v & Huv).
  split; [exact H1|]. split; [exact H2|]. split.
  - intros c Hc. apply (collapse_spaces false x).
    rewrite Huv. apply in_or_app. right. apply in_or_app. left. exact Hc.
  - intros pre post a b H.
    apply (collapse_no_pair false x (u ++ pre) (post ++ v)).
    rewrite Huv, H, <- !app_assoc. reflexivity.
Qed.
Lemma htmlToText_single_spaced_witness :
  space 97 = false /\ space 98 = false.
Proof.
  destruct (htmlToText_single_spaced (js "<p> a  b </p>")) as (H1 & H2 & _).
  split.
  - apply (H1 97 (js " b")). vm_compute. reflexivity.
  - apply (H2 98 (js "a ")). vm_compute. reflexivity.
Defined.

Lemma utf8_of_code_point_cons (cp : N) :
  exists b r, utf8_of_code_point cp = b :: r.
Proof.
  unfold utf8_of_code_point.
  destruct (cp <? 0x80); [|destruct (cp <? 0x800); [|destruct (cp <? 0x10000)]];
    eexists; eexists; reflexivity.
Qed.

Lemma from_utf8_truthy (s : jsstring) : s <> [] -> from_utf8 s <> [].
Proof.
  destruct s as [|c s]; [intros H; exfalso; apply H; reflexivity|]. intros _.
  rewrite from_utf8_cons.
  destruct (is_high_surrogate c).
  - destruct s as [|d s].
    + destruct (utf8_of_code_point_cons replacement) as (b & r & ->). discriminate.
    + destruct (is_low_surrogate d).
      * destruct (utf8_of_code_point_cons
                    (0x10000 + (c - 0xD800) * 0x400 + (d - 0xDC00)))
          as (b & r & ->). discriminate.
      * destruct (utf8_of_code_point_cons replacement) as (b & r & ->). discriminate.
  - destruct (is_low_surrogate c).
    + destruct (utf8_of_code_point_cons replacement) as (b & r & ->). discriminate.
    + destruct (utf8_of_code_point_cons c) as (b & r & ->). discriminate.
Qed.

Lemma encode64_truthy (url pad : bool) (bs : list N) :
  bs <> [] -> truthy (encode64 url pad bs) = true.
Proof.
  destruct bs as [|a [|b [|c l]]]; [intros H; exfalso; apply H; reflexivity| | |];
    intros _; reflexivity.
Qed.

(** X8.  A [text/plain] payload whose body data is the base64 of the
    UTF-8 bytes of a text, in the standard or the URL-safe alphabet,
    padded or not, yields that text, provided the text is not empty and
    is well-formed UTF-16. *)
Theorem plain_body_decoded (url pad : bool) (text : jsstring)
    (hs : option (list Header)) (ps : option (list MimeNode)) :
  well_formed_utf16 text = true ->
  text <> [] ->
  extractPlainTextBody
    (Some (mkMimeNode (Some text_plain) hs
             (Some {| data := Some (encode64 url pad (from_utf8 text)) |}) ps))
  = text.
Proof.
  intros Hwf Hne. cbn [extractPlainTextBody].
  rewrite extractPlainTextBody_node_eq.
  unfold leaf_of, mimeType_is, body_data, decoded.
  cbn [mimeType body data truthy_opt].
  rewrite jseqb_refl, (encode64_truthy url pad _ (from_utf8_truthy text Hne)).
  cbn [andb body_data body data].
  rewrite from_base64_encode64
    by (apply from_utf8_bytes, well_formed_code_units, Hwf).
  apply toString_from_utf8, Hwf.
Qed.

Lemma plain_body_decoded_witness :
  extractPlainTextBody
    (Some (mkMimeNode (Some text_plain) None
             (Some {| data := Some (js "w6l0w6kg8J+YgA==") |}) None))
  = [0xE9; 0x74; 0xE9; 0x20; 0xD83D; 0xDE00].
Proof.
  change (js "w6l0w6kg8J+YgA==")
    with (encode64 false true (from_utf8 [0xE9; 0x74; 0xE9; 0x20; 0xD83D; 0xDE00])).
  apply plain_body_decoded; [reflexivity | discriminate].
Defined.

(** ** More on link extraction *)

Lemma decodeURIComponent_plain_char (c : N) (rest d : jsstring) :
  (c =? 37) = false ->
  decodeURIComponent (c :: rest) = Normal d ->
  exists d0, decodeURIComponent rest = Normal d0 /\ d = c :: d0.
Proof.
  intros Hc. unfold decodeURIComponent. cbn [unescape]. rewrite Hc.
  destruct (unescape rest) as [items|e]; cbn [bind]; [|discriminate].
  cbn [decode_items].
  destruct (decode_items items) as [s|e]; cbn [bind]; [|discriminate].
  intros H. inversion H. exists s. split; reflexivity.
Qed.

Lemma decodeURIComponent_prefix (p rest d : jsstring) :
  forallb (fun c => negb (c =? 37)) p = true ->
  decodeURIComponent (p ++ rest) = Normal d ->
  exists d0, d = p ++ d0.
Proof.
  revert d; induction p as [|c p IH]; intros d Hp H.
  - exists d. reflexivity.
  - cbn [forallb] in Hp. apply andb_true_iff in Hp. destruct Hp as [Hc Hp].
    apply negb_true_iff in Hc. cbn [app] in H.
    destruct (decodeURIComponent_plain_char c _ d Hc H) as (d0 & H0 & ->).
    destruct (IH d0 Hp H0) as [d1 ->]. exists d1. reflexivity.
Qed.

Lemma is_http_decoded (v d : jsstring) :
  is_http v = true -> decodeURIComponent v = Normal d -> is_http d = true.
Proof.
  unfold is_http. intros Hv Hd. apply orb_true_iff in Hv.
  destruct Hv as [Hv|Hv]; apply startsWith_eq in Hv; destruct Hv as [r ->];
    apply decodeURIComponent_prefix in Hd; try reflexivity;
    destruct Hd as [d0 ->]; rewrite startsWith_app;
    [reflexivity | apply orb_true_r].
Qed.

Lemma find_destination_http (parsed : URL) (params : list jsstring)
    (v : jsstring) :
  find_destination parsed params = Some v -> is_http v = true.
Proof.
  induction params as [|q params IH]; [discriminate|].
  cbn [find_destination].
  destruct (searchParams_get (searchParams parsed) q) as [w|]; [|exact IH].
  destruct (truthy w && is_http w) eqn:E; [|exact IH].
  intros H. inversion H; subst. apply andb_true_iff in E. apply E.
Qed.

Section LinkInvariants.
Context {rt : Runtime}.

Lemma cleanTrackingUrl_http (url link : jsstring) :
  is_http url = true ->
  cleanTrackingUrl url = Normal (Some link) ->
  is_http link = true.
Proof.
  intros Hu. unfold cleanTrackingUrl, try_catch, bind.
  destruct (new_URL url) as [parsed|e]; [|discriminate].
  destruct (find_destination parsed destination_params) as [v|] eqn:Ev.
  - destruct (decodeURIComponent v) as [d|e] eqn:Ed; [|discriminate].
    intros H. inversion H; subst.
    apply (is_http_decoded v link (find_destination_http _ _ _ Ev) Ed).
  - intros H. inversion H; subst. exact Hu.
Qed.

Lemma links_of_html_http (html link : jsstring) :
  In link (links_of_html html) -> is_http link = true.
Proof.
  unfold links_of_html. rewrite in_flat_map. intros (url & _ & H).
  apply link_of_href_In in H. destruct H as (Hk & Hc & _).
  apply (cleanTrackingUrl_http url link (href_kept_http url Hk) Hc).
Qed.

End LinkInvariants.

(** X9.  Whatever the payload and whatever the URL parser does, every
    link returned starts with [http://] or [https://]; in particular no
    link is empty, and decoding a tracking destination cannot turn it
    into a link of another scheme. *)
Theorem links_are_http (rt : Runtime) (payload : option MimeNode)
    (links : list jsstring) (link : jsstring) :
  extractLinksFromPayload payload = Normal links ->
  In link links ->
  is_http link = true /\ link <> [].
Proof.
  intros H Hin.
  assert (Hh : is_http link = true).
  { destruct payload as [root|]; cbn [extractLinksFromPayload] in H.
    - rewrite extractLinks_visited in H. inversion H; subst; clear H.
      apply fold_set_add_In in Hin. destruct Hin as [[]|Hin].
      unfold links_of_leaves in Hin. apply in_flat_map in Hin.
      destruct Hin as (x & _ & Hx). apply (links_of_html_http _ _ Hx).
    - inversion H; subst. destruct Hin. }
  split; [exact Hh|]. apply truthy_true, is_http_truthy, Hh.
Qed.

Lemma links_are_http_witness :
  is_http (js "https://real.example.com/page") = true
  /\ js "https://real.example.com/page" <> [].
Proof.
  apply (links_are_http Reference.runtime
           (Some (leaf text_html (anchor tracking_href)))
           [js "https://real.example.com/page"]).
  - vm_compute. reflexivity.
  - left. reflexivity.
Defined.

(** X10.  The tests against [mailto:], [javascript:] and [#] and the
    test for an empty value never decide anything: an [href] value is
    kept exactly when it starts with [http://] or [https://]. *)
Theorem href_kept_is_http (url : jsstring) : href_kept url = is_http url.
Proof.
  unfold href_kept. destruct (is_http url) eqn:E.
  - unfold is_http in E. apply orb_true_iff in E.
    destruct E as [E|E]; apply startsWith_eq in E; destruct E as [r ->];
      reflexivity.
  - apply andb_false_r.
Qed.

(** X11.  The links of the parts that come first stay first: when parts
    are added after the child parts of a payload, the link list of the
    longer payload starts with the link list of the shorter one. *)
Theorem links_of_earlier_parts_first (rt : Runtime) (mt : option jsstring)
    (hs : option (list Header)) (b : option MessagePartBody)
    (ps qs : list MimeNode) :
  exists l1 more,
    extractLinksFromPayload (Some (mkMimeNode mt hs b (Some ps))) = Normal l1
    /\ extractLinksFromPayload (Some (mkMimeNode mt hs b (Some (ps ++ qs))))
       = Normal (l1 ++ more).
Proof.
  cbn [extractLinksFromPayload]. rewrite !extractLinks_visited.
  set (step := fun part =>
         (if leaf_of text_html part then [part] else [])
         ++ (if is_multipart part then visited_html part else [])).
  assert (E : links_of_leaves (visited_html (mkMimeNode mt hs b (Some (ps ++ qs))))
              = links_of_leaves (visited_html (mkMimeNode mt hs b (Some ps)))
                ++ links_of_leaves (flat_map step qs)).
  { cbn [visited_html parts]. fold step.
    rewrite flat_map_app.
    rewrite !(links_of_leaves_app (if leaf_of text_html _ then _ else _)).
    rewrite (links_of_leaves_app (flat_map step ps)), app_assoc.
    f_equal. f_equal.
    change (leaf_of text_html (mkMimeNode mt hs b (Some (ps ++ qs))))
      with (leaf_of text_html (mkMimeNode mt hs b (Some ps))).
    destruct (leaf_of text_html (mkMimeNode mt hs b (Some ps))); reflexivity. }
  rewrite E, fold_left_app.
  set (l1 := fold_left set_add
               (links_of_leaves (visited_html (mkMimeNode mt hs b (Some ps)))) []).
  exists l1, (unseen l1 (links_of_leaves (flat_map step qs))).
  split; [reflexivity|]. rewrite fold_set_add_unseen. reflexivity.
Qed.

(** ** Header lookup *)

Section HeaderLookup.
Context {rt : Runtime}.

Lemma extractHeader_getHeader (message : Message.t) (n : jsstring) :
  extractHeader message n = getHeader (payload_headers message) n.
Proof.
  unfold extractHeader, getHeader, payload_headers.
  destruct (Message.payload message) as [p|]; [|reflexivity].
  destruct (headers p); reflexivity.
Qed.

Lemma find_first {A : Type} (f : A -> bool) (pre post : list A) (h : A) :
  (forall q, In q pre -> f q = false) -> f h = true ->
  find f (pre ++ h :: post) = Some h.
Proof.
  intros Hpre Hh. induction pre as [|q pre IH].
  - cbn [app find]. rewrite Hh. reflexivity.
  - cbn [app find]. rewrite (Hpre q (or_introl eq_refl)).
    apply IH. intros q' Hq'. apply Hpre. right. exact Hq'.
Qed.

Lemma find_none {A : Type} (f : A -> bool) (l : list A) :
  (forall q, In q l -> f q = false) -> find f l = None.
Proof.
  induction l as [|q l IH]; intros H; [reflexivity|].
  cbn [find]. rewrite (H q (or_introl eq_refl)).
  apply IH. intros q' Hq'. apply H. right. exact Hq'.
Qed.

End HeaderLookup.

Section ProviderHeaders.
Context {rt : Runtime}.

Lemma find_header_named (hs : list Header) (n : jsstring) :
  find_header (map named hs) n
  = Normal (option_map named
              (find (fun h => jseqb (toLowerCase (name h)) (toLowerCase n))
                    hs)).
Proof.
  induction hs as [|h hs IH]; [reflexivity|].
  cbn [map find_header find named Provider.name].
  destruct (jseqb _ _); [reflexivity|exact IH].
Qed.

Lemma header_lookup_named (hs : list Header) (n : jsstring) :
  header_lookup (map named hs) n = Normal (getHeader hs n).
Proof.
  unfold header_lookup, getHeader. rewrite find_header_named. cbn [bind].
  destruct (find _ hs); reflexivity.
Qed.

Lemma find_header_nameless (pre post : list Provider.Header)
    (h : Provider.Header) (n : jsstring) :
  Provider.name h = None ->
  (forall q, In q pre ->
             exists qn, Provider.name q = Some qn
                        /\ toLowerCase qn <> toLowerCase n) ->
  find_header (pre ++ h :: post) n = Throw TypeError.
Proof.
  intros Hh. induction pre as [|q pre IH]; intros Hpre.
  - cbn [app find_header]. rewrite Hh. reflexivity.
  - cbn [app find_header].
    destruct (Hpre q (or_introl eq_refl)) as (qn & -> & Hq).
    apply jseqb_neq in Hq. rewrite Hq.
    apply IH. intros q' Hq'. apply Hpre. right. exact Hq'.
Qed.

Lemma find_header_match (pre post : list Provider.Header)
    (h : Provider.Header) (hn n : jsstring) :
  Provider.name h = Some hn ->
  toLowerCase hn = toLowerCase n ->
  (forall q, In q pre ->
             exists qn, Provider.name q = Some qn
                        /\ toLowerCase qn <> toLowerCase n) ->
  find_header (pre ++ h :: post) n = Normal (Some h).
Proof.
  intros Hh Hn. induction pre as [|q pre IH]; intros Hpre.
  - cbn [app find_header]. rewrite Hh, Hn, jseqb_refl. reflexivity.
  - cbn [app find_header].
    destruct (Hpre q (or_introl eq_refl)) as (qn & -> & Hq).
    apply jseqb_neq in Hq. rewrite Hq.
    apply IH. intros q' Hq'. apply Hpre. right. exact Hq'.
Qed.

End ProviderHeaders.

(** X12.  On headers as the provider types them, the lookup behind
    [getMessageLight] and [extractHeader] needs names.  When every
    header has a name it does not throw and gives what the lookups of
    the model give; the light read of such a message ends normally and
    its sender, recipient, subject and date are the results of the four
    lookups and are those of [extractHeader].  A header without a name
    that is met before a header of the name looked for makes the lookup
    raise a [TypeError], even when a later header matches; a header of
    that name standing before it is found and nothing is raised.  A
    nameless header before any [From] header makes the four lookups of a
    light read fail at the first. *)
Theorem header_lookup_needs_names (rt : Runtime) (n : jsstring) :
  (forall hs : list Header,
     header_lookup (map named hs) n = Normal (getHeader hs n))
  /\ (forall message : Message.t,
        header_lookup (map named (payload_headers message)) n
        = Normal (extractHeader message n)
        /\ exists light,
             getMessageLight message = Normal light
             /\ light_headers (map named (payload_headers message))
                = Normal (Light.from light, Light.to light,
                          Light.subject light, Light.date light)
             /\ Light.from light = extractHeader message (js "From")
             /\ Light.to light = extractHeader message (js "To")
             /\ Light.subject light = extractHeader message (js "Subject")
             /\ Light.date light = extractHeader message (js "Date"))
  /\ (forall pre h post,
        Provider.name h = None ->
        (forall q, In q pre ->
                   exists qn, Provider.name q = Some qn
                              /\ toLowerCase qn <> toLowerCase n) ->
        header_lookup (pre ++ h :: post) n = Throw TypeError)
  /\ (forall pre h hn post,
        Provider.name h = Some hn ->
        toLowerCase hn = toLowerCase n ->
        (forall q, In q pre ->
                   exists qn, Provider.name q = Some qn
                              /\ toLowerCase qn <> toLowerCase n) ->
        header_lookup (pre ++ h :: post) n
        = Normal (or_empty (Provider.value h)))
  /\ (forall pre h post,
        Provider.name h = None ->
        (forall q, In q pre ->
                   exists qn, Provider.name q = Some qn
                              /\ toLowerCase qn <> toLowerCase (js "From")) ->
        light_headers (pre ++ h :: post) = Throw TypeError).
Proof.
  split; [intros hs; apply header_lookup_named|]. split; [|split; [|split]].
  - intros message.
    split; [rewrite extractHeader_getHeader; apply header_lookup_named|].
    unfold getMessageLight.
    assert (H : exists links,
               extractLinksFromPayload (Message.payload message)
               = Normal links).
    { destruct (Message.payload message) as [root|];
        cbn [extractLinksFromPayload].
      - rewrite extractLinks_visited. eexists. reflexivity.
      - eexists. reflexivity. }
    destruct H as [links ->]. cbn [bind].
    eexists. split; [reflexivity|].
    cbn [Light.from Light.to Light.subject Light.date].
    rewrite !extractHeader_getHeader. split; [|repeat split].
    unfold light_headers. rewrite !header_lookup_named. reflexivity.
  - intros pre h post Hh Hpre. unfold header_lookup.
    rewrite (find_header_nameless pre post h n Hh Hpre). reflexivity.
  - intros pre h hn post Hh Hn Hpre. unfold header_lookup.
    rewrite (find_header_match pre post h hn n Hh Hn Hpre). reflexivity.
  - intros pre h post Hh Hpre. unfold light_headers, header_lookup.
    rewrite (find_header_nameless pre post h (js "From") Hh Hpre).
    reflexivity.
Qed.

Lemma header_lookup_needs_names_witness :
  header_lookup (rt := Reference.runtime) nameless_second (js "Subject")
  = Throw TypeError
  /\ header_lookup (rt := Reference.runtime) nameless_second (js "from")
     = Normal (js "a@example.com")
  /\ header_lookup (rt := Reference.runtime)
       (map named [{| name := js "SUBJECT"; value := None |}]) (js "Subject")
     = Normal [].
Proof.
  split; [|split].
  - refine (proj1 (proj2 (proj2 (header_lookup_needs_names Reference.runtime
                                   (js "Subject"))))
              [from_header] nameless_header [subject_header] eq_refl _).
    intros q [<-|[]]. exists (js "From"). split; [reflexivity|].
    vm_compute. discriminate.
  - refine (proj1 (proj2 (proj2 (proj2
              (header_lookup_needs_names Reference.runtime (js "from")))))
              [] from_header (js "From") [nameless_header; subject_header]
              eq_refl eq_refl _).
    intros q [].
  - rewrite (proj1 (header_lookup_needs_names Reference.runtime
                      (js "Subject"))).
    reflexivity.
Defined.

(** X13.  Header lookup compares names through [toLowerCase] on both
    sides and stops at the first header that matches: its value is the
    answer, the empty string when that value is absent, even if a later
    header of the same name has one.  When no header matches, the answer
    is the empty string. *)
Theorem header_first_match (rt : Runtime) (message : Message.t)
    (p : MimeNode) (n : jsstring) :
  Message.payload message = Some p ->
  (forall pre post h,
     headers p = Some (pre ++ h :: post) ->
     (forall q, In q pre -> toLowerCase (name q) <> toLowerCase n) ->
     toLowerCase (name h) = toLowerCase n ->
     extractHeader message n = or_empty (value h))
  /\ (forall hs,
        headers p = Some hs ->
        (forall q, In q hs -> toLowerCase (name q) <> toLowerCase n) ->
        extractHeader message n = []).
Proof.
  intros Hp. unfold extractHeader. rewrite Hp. split.
  - intros pre post h -> Hpre Hh.
    rewrite find_first; [reflexivity | | apply jseqb_eq, Hh].
    intros q Hq. apply jseqb_neq, Hpre, Hq.
  - intros hs -> Hnone.
    rewrite find_none; [reflexivity|].
    intros q Hq. apply jseqb_neq, Hnone, Hq.
Qed.

Lemma header_first_match_witness :
  extractHeader (rt := Reference.runtime) two_subjects_message (js "subject")
  = [].
Proof.
  refine (proj1 (header_first_match Reference.runtime two_subjects_message
                   two_subjects_payload (js "subject") eq_refl)
            [{| name := js "From"; value := Some (js "a@example.com") |}]
            [{| name := js "Subject"; value := Some (js "second") |}]
            {| name := js "SUBJECT"; value := None |} eq_refl _ _).
  - intros q [<-|[]]. vm_compute. discriminate.
  - reflexivity.
Defined.

(** ** Searching *)

Lemma promise_all_fulfilled {A B : Type} (f : A -> Promise B) (l : list A)
    (r : list B) :
  promise_all (map f l) = inr r -> Forall2 (fun x y => f x = inr y) l r.
Proof.
  revert r; induction l as [|x l IH]; intros r H.
  - cbn [map promise_all] in H. inversion H. constructor.
  - cbn [map promise_all] in H. destruct (f x) as [e|y] eqn:Ex; [discriminate|].
    destruct (promise_all (map f l)) as [e|r']; [discriminate|].
    inversion H; subst. constructor; [exact Ex | apply IH; reflexivity].
Qed.

Lemma promise_all_rejected {A B : Type} (f : A -> Promise B) (l : list A)
    (x : A) (e : Thrown) :
  In x l -> f x = inl e -> exists e', promise_all (map f l) = inl e'.
Proof.
  intros Hin Hx. induction l as [|y l IH]; [destruct Hin|].
  cbn [map promise_all]. destruct (f y) as [e1|b] eqn:Ey.
  - exists e1. reflexivity.
  - destruct Hin as [->|Hin]; [congruence|].
    destruct (IH Hin) as [e' ->]. exists e'. reflexivity.
Qed.

(** X14.  A search that succeeds has listed the messages with the query
    and with [maxResults], the number 10 when the argument is left out.
    It returns one summary per listed message, in the order of the
    listing: each carries the listed id and thread id and the snippet,
    subject, sender and date of the message fetched under that id; the
    size estimate and the page token are those of the listing.  A
    listing without [messages] gives no summary. *)
Theorem search_summaries_follow_listing (sv : Services) (rt : Runtime)
    (client : Client.t) (query : jsstring) (maxResults : option number)
    (w : world) (found : Found.t number) :
  searchEmails client query maxResults w = inr found ->
  exists res,
    messages_list (Client.auth_ client) query
      (match maxResults with Some m => m | None => 10%Q end) w = inr res
    /\ Forall2
         (fun msg s =>
            Summary.id s = Listing.id msg
            /\ Summary.threadId s = Listing.threadId msg
            /\ exists details,
                 messages_get (Client.auth_ client) (Listing.id msg) w
                 = inr details
                 /\ Summary.snippet s = Message.snippet details
                 /\ Summary.subject s = extractHeader details (js "Subject")
                 /\ Summary.from s = extractHeader details (js "From")
                 /\ Summary.date s = extractHeader details (js "Date"))
         (match Listing.messages res with Some l => l | None => [] end)
         (Found.messages found)
    /\ Found.resultSizeEstimate found = Listing.resultSizeEstimate res
    /\ Found.nextPageToken found = Listing.nextPageToken res.
Proof.
  unfold searchEmails. intros H.
  destruct (messages_list _ _ _ _) as [e|res]; [discriminate|].
  exists res. split; [reflexivity|].
  destruct (promise_all _) as [e|messages] eqn:Ep; [discriminate|].
  inversion H; subst; clear H. cbn [Found.messages Found.resultSizeEstimate
                                     Found.nextPageToken].
  split; [|split; reflexivity].
  apply promise_all_fulfilled in Ep.
  induction Ep as [|msg s l r Hs _ IH]; constructor; [|exact IH].
  unfold summarize, getMessage in Hs.
  destruct (messages_get _ _ _) as [e|details] eqn:Eg; [discriminate|].
  inversion Hs; subst. cbn.
  split; [reflexivity|]. split; [reflexivity|].
  exists details. repeat split. 
Qed.

Lemma search_summaries_follow_listing_witness :
  exists found,
    searchEmails (sv := ServiceExamples.services) (rt := Reference.runtime)
      ServiceExamples.me (js "is:unread") None
      {| ServiceExamples.default := None; ServiceExamples.outbox := [] |}
    = inr found
    /\ Found.nextPageToken found = Some (js "next").
Proof.
  eexists. split; [vm_compute; reflexivity|].
  destruct (search_summaries_follow_listing ServiceExamples.services
              Reference.runtime ServiceExamples.me (js "is:unread") None
              {| ServiceExamples.default := None; ServiceExamples.outbox := [] |}
              _ eq_refl) as (res & Hl & _ & _ & Ht).
  transitivity (Listing.nextPageToken res); [exact Ht|].
  vm_compute in Hl. inversion Hl. reflexivity.
Defined.

(** X15.  A search gives all the summaries or none: when the listing is
    rejected, or when fetching one of the listed messages is rejected,
    the search is rejected, whatever the other messages are. *)
Theorem search_all_or_nothing (sv : Services) (rt : Runtime)
    (client : Client.t) (query : jsstring) (maxResults : option number)
    (w : world) :
  (forall e,
     messages_list (Client.auth_ client) query
       (match maxResults with Some m => m | None => 10%Q end) w = inl e ->
     searchEmails client query maxResults w = inl e)
  /\ (forall res l msg e,
        messages_list (Client.auth_ client) query
          (match maxResults with Some m => m | None => 10%Q end) w = inr res ->
        Listing.messages res = Some l ->
        In msg l ->
        messages_get (Client.auth_ client) (Listing.id msg) w = inl e ->
        exists e', searchEmails client query maxResults w = inl e').
Proof.
  unfold searchEmails. split.
  - intros e ->. reflexivity.
  - intros res l msg e -> -> Hin Hget.
    destruct (promise_all_rejected (summarize client w) l msg e Hin) as [e' ->].
    + unfold summarize, getMessage. rewrite Hget. reflexivity.
    + exists e'. reflexivity.
Qed.

Lemma search_all_or_nothing_witness :
  exists e',
    searchEmails (sv := ServiceExamples.services) (rt := Reference.runtime)
      ServiceExamples.me (js "in:trash") (Some 5%Q)
      {| ServiceExamples.default := None; ServiceExamples.outbox := [] |}
    = inl e'.
Proof.
  refine (proj2 (search_all_or_nothing ServiceExamples.services
                   Reference.runtime ServiceExamples.me (js "in:trash") (Some 5%Q)
                   {| ServiceExamples.default := None;
                      ServiceExamples.outbox := [] |})
            _ _ {| Listing.id := Some (js "gone"); Listing.threadId := None |}
            (ErrorObject (js "Not Found")) eq_refl eq_refl _ eq_refl).
  right. right. left. reflexivity.
Defined.

(** ** The server: resolving the account and sending *)

Section ServerProperties.
Context {sv : Services}.

Lemma client_for_fulfilled (email : jsstring) (w w' : world) (client : Client.t) :
  client_for email w = (inr client, w') ->
  Client.accountEmail client = email
  /\ getAccountAuth email w = (inr (Client.auth_ client), w').
Proof.
  unfold client_for. destruct (getAccountAuth email w) as [[e|a] w1]; intros H;
    inversion H; subst. split; reflexivity.
Qed.

Lemma truthy_opt_some (o : option jsstring) :
  truthy_opt o = true -> o = Some (or_empty o) /\ or_empty o <> [].
Proof.
  destruct o as [[|c s]|]; try discriminate. intros _. split; [reflexivity|].
  discriminate.
Qed.

Lemma send_email_rejected (account : option jsstring) (p : SendParams.t)
    (w w1 : world) (e : Thrown) :
  getGmailClient account w = (inl e, w1) ->
  send_email account p w
  = ({| Accounts.content := [js "Error: " ++ describe e];
        Accounts.isError := true |}, w1).
Proof. intros H. unfold send_email. rewrite H. reflexivity. Qed.

End ServerProperties.

(** X16.  A client is made for one address, which is never empty, with
    the authorization obtained for that very address.  An account given
    by the caller is used as it is and the default pointer is not read;
    without it the address is the default account. *)
Theorem client_is_for_its_address (sv : Services) (account : option jsstring)
    (w w' : world) (client : Client.t) :
  getGmailClient account w = (inr client, w') ->
  Client.accountEmail client <> []
  /\ (truthy_opt account = true ->
      account = Some (Client.accountEmail client)
      /\ getAccountAuth (Client.accountEmail client) w
         = (inr (Client.auth_ client), w'))
  /\ (truthy_opt account = false ->
      exists w1,
        getDefaultAccount w = (inr (Some (Client.accountEmail client)), w1)
        /\ getAccountAuth (Client.accountEmail client) w1
           = (inr (Client.auth_ client), w')).
Proof.
  unfold getGmailClient. destruct (truthy_opt account) eqn:Ea.
  - intros H. apply client_for_fulfilled in H. destruct H as [Hm Hauth].
    destruct (truthy_opt_some account Ea) as [Hs Hne].
    rewrite Hm. split; [exact Hne|]. split; [|discriminate].
    intros _. split; [exact Hs | rewrite <- Hm in Hauth |- *; exact Hauth].
  - destruct (getDefaultAccount w) as [[e|d] w1] eqn:Ed; [discriminate|].
    destruct (truthy_opt d) eqn:Et; [|discriminate].
    intros H. apply client_for_fulfilled in H. destruct H as [Hm Hauth].
    destruct (truthy_opt_some d Et) as [Hs Hne].
    rewrite Hm. split; [exact Hne|]. split; [discriminate|].
    intros _. exists w1. rewrite <- Hs. split; [reflexivity|].
    rewrite <- Hm in Hauth |- *. exact Hauth.
Qed.

Lemma client_is_for_its_address_witness :
  Client.accountEmail ServiceExamples.me <> [].
Proof.
  apply (client_is_for_its_address ServiceExamples.services
           (Some (js "me@example.com"))
           {| ServiceExamples.default := Some (js "other@example.com");
              ServiceExamples.outbox := [] |}
           {| ServiceExamples.default := Some (js "other@example.com");
              ServiceExamples.outbox := [] |}
           ServiceExamples.me).
  reflexivity.
Defined.

(** X17.  Without an account in the call and without a default account
    nothing is sent: the tool answers with an error result that asks for
    an account, and the world is left as the lookup of the default left
    it, no authorization having been asked for.  More generally, when no
    client can be made the answer is the error's text after [Error: ]
    and the transport is not called. *)
Theorem send_email_needs_an_account (sv : Services)
    (account : option jsstring) (p : SendParams.t) (w w1 : world) :
  (forall d,
     truthy_opt account = false ->
     getDefaultAccount w = (inr d, w1) ->
     truthy_opt d = false ->
     send_email account p w
     = ({| Accounts.content := [js "Error: " ++ no_account_message];
           Accounts.isError := true |}, w1))
  /\ (forall e,
        getGmailClient account w = (inl e, w1) ->
        send_email account p w
        = ({| Accounts.content := [js "Error: " ++ describe e];
              Accounts.isError := true |}, w1)).
Proof.
  split.
  - intros d Ha Hd Ht.
    apply (send_email_rejected account p w w1 (ErrorObject no_account_message)).
    unfold getGmailClient. rewrite Ha, Hd, Ht. reflexivity.
  - intros e. apply send_email_rejected.
Qed.

Lemma send_email_needs_an_account_witness :
  send_email (sv := ServiceExamples.services) None ServiceExamples.hello
    {| ServiceExamples.default := None; ServiceExamples.outbox := [] |}
  = ({| Accounts.content := [js "Error: " ++ no_account_message];
        Accounts.isError := true |},
     {| ServiceExamples.default := None; ServiceExamples.outbox := [] |}).
Proof.
  apply (proj1 (send_email_needs_an_account ServiceExamples.services None
                  ServiceExamples.hello _ _) None); reflexivity.
Defined.

(** X18.  When a client is made, the tool hands the transport one blob,
    the base64url of the UTF-8 bytes of the composed text, under the
    client's authorization.  If the transport accepts it, the answer
    names the address of the client and the id the transport returned
    and is no error; if the transport rejects it, the answer is the
    error's text after [Error: ], flagged as an error. *)
Theorem send_email_outcome (sv : Services) (account : option jsstring)
    (p : SendParams.t) (w w1 w2 : world) (client : Client.t) :
  getGmailClient account w = (inr client, w1) ->
  (forall messageId,
     messages_send (Client.auth_ client)
       (toString_base64url (from_utf8 (composed_text p))) w1
     = (inr messageId, w2) ->
     send_email account p w
     = ({| Accounts.content :=
             [js "Email sent successfully from " ++ Client.accountEmail client
              ++ js ". Message ID: " ++ in_template messageId];
           Accounts.isError := false |}, w2))
  /\ (forall e,
        messages_send (Client.auth_ client)
          (toString_base64url (from_utf8 (composed_text p))) w1
        = (inl e, w2) ->
        send_email account p w
        = ({| Accounts.content := [js "Error: " ++ describe e];
              Accounts.isError := true |}, w2)).
Proof.
  intros Hc. unfold send_email. rewrite Hc. unfold sendEmail.
  rewrite join_messageParts.
  split; intros x Hs; rewrite Hs; reflexivity.
Qed.

Lemma send_email_outcome_witness :
  send_email (sv := ServiceExamples.services) None ServiceExamples.hello
    {| ServiceExamples.default := Some (js "me@example.com");
       ServiceExamples.outbox := [] |}
  = ({| Accounts.content :=
          [js "Email sent successfully from me@example.com. Message ID: sent-1"];
        Accounts.isError := false |},
     {| ServiceExamples.default := Some (js "me@example.com");
        ServiceExamples.outbox :=
          [toString_base64url (from_utf8 (composed_text ServiceExamples.hello))] |}).
Proof.
  apply (proj1 (send_email_outcome ServiceExamples.services None
                  ServiceExamples.hello
                  {| ServiceExamples.default := Some (js "me@example.com");
                     ServiceExamples.outbox := [] |}
                  {| ServiceExamples.default := Some (js "me@example.com");
                     ServiceExamples.outbox := [] |}
                  _ ServiceExamples.me eq_refl) (Some (js "sent-1"))).
  reflexivity.
Defined.

(** ** Text without markup *)

(** A pattern that starts with a character absent from the text finds
    nothing to replace. *)
Lemma replace_from_absent (r : regex) (by_ : jsstring) (s : jsstring) :
  (forall c rest, In c s -> exec_at r None (c :: rest) = None) ->
  replace_from r by_ O s = s.
Proof.
  induction s as [|c s IH]; intros H; [reflexivity|].
  cbn [replace_from]. rewrite (H c s (or_introl eq_refl)).
  f_equal. apply IH. intros d rest Hd. apply H. right. exact Hd.
Qed.

Lemma ascii_upper_lt (x : N) : ascii_upper x = 60 -> x = 60.
Proof.
  unfold ascii_upper.
  destruct ((97 <=? x) && (x <=? 122)) eqn:E; [|auto].
  apply andb_true_iff in E. rewrite !N.leb_le in E. lia.
Qed.

Lemma exec_at_first_lit (c : N) (r : regex) (x : N) (rest : jsstring) :
  x <> c -> exec_at (Lit c :: r) None (x :: rest) = None.
Proof.
  intros H. cbn [exec_at]. destruct (N.eqb_spec x c); [contradiction | reflexivity].
Qed.

Lemma exec_at_first_lt (r : regex) (x : N) (rest : jsstring) :
  x <> 60 -> exec_at (LitI 60 :: r) None (x :: rest) = None.
Proof.
  intros H. cbn [exec_at].
  destruct (N.eqb_spec (ascii_upper x) (ascii_upper 60)) as [E|E]; [|reflexivity].
  exfalso. apply H, ascii_upper_lt, E.
Qed.

Lemma markup_free_chars (s : jsstring) (c : N) :
  markup_free s = true -> In c s -> c <> 60 /\ c <> 38.
Proof.
  unfold markup_free. rewrite forallb_forall. intros H Hc.
  apply H in Hc. apply andb_true_iff in Hc. rewrite !negb_true_iff in Hc.
  destruct Hc as [H1 H2]. apply N.eqb_neq in H1, H2. auto.
Qed.

Lemma replaces_markup_free (s : jsstring) :
  markup_free s = true ->
  Regex.replace (lit "&#39;") (js "'")
    (Regex.replace (lit "&quot;") [34]
    (Regex.replace (lit "&gt;") (js ">")
    (Regex.replace (lit "&lt;") (js "<")
    (Regex.replace (lit "&amp;") (js "&")
    (Regex.replace (lit "&nbsp;") (js " ")
    (Regex.replace tagRegex (js " ")
    (Regex.replace styleRegex []
    (Regex.replace scriptRegex [] s))))))))
  = s.
Proof.
  intros H. unfold Regex.replace.
  assert (Hlt : forall r by_, replace_from (LitI 60 :: r) by_ O s = s).
  { intros r by_. apply replace_from_absent. intros c rest Hc.
    apply exec_at_first_lt, (markup_free_chars s c H Hc). }
  assert (Hlt' : forall r by_, replace_from (Lit 60 :: r) by_ O s = s).
  { intros r by_. apply replace_from_absent. intros c rest Hc.
    apply exec_at_first_lit, (markup_free_chars s c H Hc). }
  assert (Hamp : forall r by_, replace_from (Lit 38 :: r) by_ O s = s).
  { intros r by_. apply replace_from_absent. intros c rest Hc.
    apply exec_at_first_lit, (markup_free_chars s c H Hc). }
  change scriptRegex with (LitI 60 :: tl scriptRegex). rewrite Hlt.
  change styleRegex with (LitI 60 :: tl styleRegex). rewrite Hlt.
  change tagRegex with (Lit 60 :: tl tagRegex). rewrite Hlt'.
  change (lit "&nbsp;") with (Lit 38 :: tl (lit "&nbsp;")). rewrite Hamp.
  change (lit "&amp;") with (Lit 38 :: tl (lit "&amp;")). rewrite Hamp.
  change (lit "&lt;") with (Lit 38 :: tl (lit "&lt;")). rewrite Hamp.
  change (lit "&gt;") with (Lit 38 :: tl (lit "&gt;")). rewrite Hamp.
  change (lit "&quot;") with (Lit 38 :: tl (lit "&quot;")). rewrite Hamp.
  change (lit "&#39;") with (Lit 38 :: tl (lit "&#39;")). rewrite Hamp.
  reflexivity.
Qed.

Lemma collapse_tidy (b : bool) (s : jsstring) :
  tidy_from b s = true -> collapse b s = s.
Proof.
  revert b; induction s as [|c s IH]; intros b H; [reflexivity|].
  cbn [tidy_from] in H. cbn [collapse]. destruct (space c) eqn:Ec.
  - rewrite !andb_true_iff in H. destruct H as [[Hc Hb] Hs].
    apply N.eqb_eq in Hc. apply negb_true_iff in Hb. subst b c.
    rewrite (IH true Hs). reflexivity.
  - rewrite (IH false H). reflexivity.
Qed.

Lemma collapse_start (s : jsstring) :
  (forall c r, s = c :: r -> space c = false) ->
  collapse false s = collapse true s.
Proof.
  destruct s as [|c s]; [reflexivity|]. intros H.
  cbn [collapse]. rewrite (H c s eq_refl). reflexivity.
Qed.

Lemma tidy_last (b : bool) (s : jsstring) (c : N) (r : jsstring) :
  tidy_from b s = true -> s = r ++ [c] -> space c = false.
Proof.
  revert b r; induction s as [|d s IH]; intros b r H E.
  - destruct r; discriminate.
  - cbn [tidy_from] in H. destruct r as [|x r].
    + cbn [app] in E. inversion E; subst.
      destruct (space c); [|reflexivity].
      cbn [tidy_from] in H. rewrite andb_false_r in H. discriminate.
    + cbn [app] in E. inversion E; subst.
      destruct (space x).
      * rewrite !andb_true_iff in H. destruct H as [_ Hs].
        apply (IH true r Hs eq_refl).
      * apply (IH false r H eq_refl).
Qed.

Lemma trimStart_non_space (s : jsstring) :
  (forall c r, s = c :: r -> space c = false) -> trimStart s = s.
Proof.
  destruct s as [|c s]; [reflexivity|]. intros H.
  cbn [trimStart]. rewrite (H c s eq_refl). reflexivity.
Qed.

Lemma trim_tidy (s : jsstring) : tidy s = true -> trim s = s.
Proof.
  destruct s as [|c s]; [reflexivity|]. unfold tidy. intros H.
  unfold trim.
  assert (Hc : space c = false).
  { cbn [tidy_from] in H. destruct (space c); [|reflexivity].
    rewrite andb_false_r in H. discriminate. }
  rewrite (trimStart_non_space (c :: s))
    by (intros x r E; inversion E; subst; exact Hc).
  rewrite trimStart_non_space; [apply rev_involutive|].
  intros x r E.
  apply (tidy_last true (c :: s) x (rev r) H).
  rewrite <- (rev_involutive (c :: s)), E. reflexivity.
Qed.

(** X19.  A text without [<] and [&] whose white space is tidy (single
    plain spaces, none at either end) goes through the conversion
    unchanged: nothing but markup and white space is ever touched. *)
Theorem htmlToText_plain_text (s : jsstring) :
  markup_free s = true -> tidy s = true -> htmlToText s = s.
Proof.
  intros Hm Ht. unfold htmlToText. rewrite (replaces_markup_free s Hm).
  unfold Regex.replace. rewrite (proj1 (replace_spaces_collapse s)).
  assert (E : collapse false s = s).
  { destruct s as [|c s]; [reflexivity|]. unfold tidy in Ht.
    rewrite collapse_start; [apply collapse_tidy, Ht|].
    intros x r Ex. inversion Ex; subst.
    cbn [tidy_from] in Ht. destruct (space x); [|reflexivity].
    rewrite andb_false_r in Ht. discriminate. }
  rewrite E. apply trim_tidy, Ht.
Qed.

Lemma htmlToText_plain_text_witness :
  htmlToText (js "Tom > Jerry, 3 times") = js "Tom > Jerry, 3 times".
Proof. apply htmlToText_plain_text; reflexivity. Defined.

(** X20.  A URL is dropped by the cleanup for two reasons only: the URL
    constructor rejects it, or it parses and the destination found in
    its parameters is rejected by [decodeURIComponent]. *)
Theorem cleanTrackingUrl_drops (rt : Runtime) (url : jsstring) :
  cleanTrackingUrl url = Normal None
  <-> (exists e, new_URL url = Throw e)
      \/ (exists parsed v e,
            new_URL url = Normal parsed
            /\ find_destination parsed destination_params = Some v
            /\ decodeURIComponent v = Throw e).
Proof.
  unfold cleanTrackingUrl, try_catch, bind. split.
  - destruct (new_URL url) as [parsed|e]; [|intros _; left; exists e; reflexivity].
    destruct (find_destination parsed destination_params) as [v|] eqn:Ev;
      [|discriminate].
    destruct (decodeURIComponent v) as [d|e] eqn:Ed; [discriminate|].
    intros _. right. exists parsed, v, e. repeat split; assumption.
  - intros [[e ->]|(parsed & v & e & -> & -> & ->)]; reflexivity.
Qed.

Lemma cleanTrackingUrl_drops_witness :
  cleanTrackingUrl (rt := Reference.runtime) unparsable_href = Normal None.
Proof.
  apply (proj2 (cleanTrackingUrl_drops Reference.runtime unparsable_href)).
  left. exists TypeError. reflexivity.
Defined.
